(** * Wyoming speech gateway: a model of the event handlers

    The development follows the three protocol handlers of the repository:

    - [Kokoro]    : kokoro/kokoro_handler.py    (text to speech, streaming)
    - [Moonshine] : moonshine/moonshine_handler.py (speech to text, ONNX)
    - [Voxtral]   : voxtral/voxtral_handler.py  (speech to text, vLLM)

    Every handler method is a computation in a small monad [M] that
    threads the mutable Python state, collects the calls made to the outside
    world (events written to the client, HTTP requests, model constructions,
    resampler and model invocations) and carries Python exceptions, so that
    [try ... except] blocks are modelled by [catch].

    Logging and wall-clock measurements of the source have no influence on
    the events written, and are left out, except for the warning that reports
    degraded quality.

    The events handed to [handle_event] are taken as parsed ([from_event]
    has succeeded on them) and [write_event] as succeeding: an event that
    cannot be parsed and a client that cannot be written to are outside the
    model, and nothing is stated about them. *)

From Stdlib Require Import ZArith List Ascii String Lia.
From Stdlib Require Import Floats.SpecFloat.
From Stdlib Require Import Init.Byte.
From stdpp Require Import gmap strings list.

Local Open Scope string_scope.
Local Open Scope list_scope.
Local Open Scope Z_scope.

(** ** Data *)

Abbreviation bytes := (list byte).

(** Python's [len], as an integer. *)
Definition len {A} (l : list A) : Z := Z.of_nat (length l).

(** IEEE 754 binary32 ([np.float32]): 24 bits of precision, maximal exponent
    128, with the rounding to nearest even of the Standard Library's
    executable specification of floating-point numbers. *)
Abbreviation f32 := spec_float.
Definition f32_of_Z (z : Z) : f32 := binary_normalize 24 128 z 0 false.
Definition f32_add : f32 -> f32 -> f32 := SFadd 24 128.
Definition f32_div : f32 -> f32 -> f32 := SFdiv 24 128.
Definition f32_zero : f32 := S754_zero false.

(** Python exceptions that the handlers can meet.  All of them are
    subclasses of [Exception]; [HTTPError] is [httpx.HTTPError]. *)
Inductive exn : Type :=
| HTTPError
| ValueError
| ImportError
| KeyError
| AttributeError
| RuntimeError.

(** The advertised capabilities ([wyoming.info.Info]), pure data. *)
Record WyomingInfo : Type := {
  program : string;
  models : list string;
  languages : list string
}.

(** Wyoming events, in both directions.  [Synthesize] carries the text and
    the voice and speed that the client asked for. *)
Inductive Event : Type :=
| Describe
| Info_event (info : WyomingInfo)
| Transcribe (language : option string)
| Transcript (text : string)
| Synthesize (text : string) (voice : option string) (speed : option f32)
| AudioStart (rate width channels : Z)
| AudioChunk (audio : bytes) (rate width channels : Z)
| AudioStop
| OtherEvent (type : string).

(** The JSON body of the request to the Kokoro API. *)
Record Payload : Type := {
  p_model : string;
  p_voice : string;
  p_input : string;
  p_response_format : string;
  p_speed : f32;
  p_stream : bool
}.

(** Calls to the outside world, in the order in which they are made. *)
Inductive Effect : Type :=
| Emit (e : Event)
| HttpPost (endpoint : string) (payload : Payload)
| Construct (model_name : string) (ok : bool)
| Resample (audio : list f32) (orig_sr target_sr : Z)
| Generate (audio : list f32) (ok : bool)
| Warning (msg : string).

(** ** The monad: state, trace of effects, exceptions *)

Record Run (S A : Type) : Type := mkRun {
  trace : list Effect;
  final : S;
  outcome : exn + A
}.
Arguments mkRun {S A} _ _ _.
Arguments trace {S A} _.
Arguments final {S A} _.
Arguments outcome {S A} _.

Definition M (S A : Type) : Type := S -> Run S A.

Section MonadOps.
Context {S : Type}.

Definition ret {A} (a : A) : M S A := fun s => mkRun [] s (inr a).

Definition raise {A} (e : exn) : M S A := fun s => mkRun [] s (inl e).

Definition bind {A B} (m : M S A) (k : A -> M S B) : M S B := fun s =>
  match m s with
  | mkRun t s' (inl e) => mkRun t s' (inl e)
  | mkRun t s' (inr a) =>
      match k a s' with
      | mkRun t' s'' o => mkRun (t ++ t') s'' o
      end
  end.

(** [try: m except Exception as e: h e].  The state changes made by [m]
    before it raised are kept, as in Python. *)
Definition catch {A} (m : M S A) (h : exn -> M S A) : M S A := fun s =>
  match m s with
  | mkRun t s' (inl e) =>
      match h e s' with
      | mkRun t' s'' o => mkRun (t ++ t') s'' o
      end
  | mkRun t s' (inr a) => mkRun t s' (inr a)
  end.

Definition get : M S S := fun s => mkRun [] s (inr s).
Definition put (s : S) : M S unit := fun _ => mkRun [] s (inr tt).
Definition tell (e : Effect) : M S unit := fun s => mkRun [e] s (inr tt).

(** [await self.write_event(ev)] *)
Definition write_event (ev : Event) : M S unit := tell (Emit ev).

(** A result of the outside world, raised when it is an exception. *)
Definition lift {A} (r : exn + A) : M S A :=
  match r with inl e => raise e | inr a => ret a end.
End MonadOps.

Notation "x <- m ;; k" := (bind m (fun x => k))
  (at level 100, m at next level, right associativity).
Notation "m ;;; k" := (bind m (fun _ => k))
  (at level 100, right associativity).

Definition is_ok {A} (r : exn + A) : bool :=
  match r with inr _ => true | inl _ => false end.

(** The events written to the client, in order. *)
Fixpoint written (t : list Effect) : list Event :=
  match t with
  | [] => []
  | Emit e :: t' => e :: written t'
  | _ :: t' => written t'
  end.

Definition is_audio_start (e : Event) : bool :=
  match e with AudioStart _ _ _ => true | _ => false end.
Definition is_audio_chunk (e : Event) : bool :=
  match e with AudioChunk _ _ _ _ => true | _ => false end.
Definition is_audio_stop (e : Event) : bool :=
  match e with AudioStop => true | _ => false end.
Definition is_transcript (e : Event) : bool :=
  match e with Transcript _ => true | _ => false end.

Definition count_events (p : Event -> bool) (es : list Event) : nat :=
  length (List.filter p es).

(** The audio carried by the [AudioChunk] events of a list. *)
Fixpoint payloads (es : list Event) : list bytes :=
  match es with
  | [] => []
  | AudioChunk a _ _ _ :: es' => a :: payloads es'
  | _ :: es' => payloads es'
  end.

Definition total_len (l : list bytes) : Z := len (concat l).

(** ** Text to speech: kokoro/kokoro_handler.py *)

Module Kokoro.

(** The response of the Kokoro API to the streaming POST request:
    whether [raise_for_status] passes, the items that
    [aiter_bytes(chunk_size=512)] yields and, when the transfer breaks,
    the exception raised after the last item.  The items of a response
    that comes through the HTTP client are those of [Httpx.aiter_bytes]
    below, of at most 512 bytes each. *)
Record Response : Type := {
  status_ok : bool;
  items : list bytes;
  stream_error : option exn
}.

(** [str.rstrip("/")] *)
Fixpoint rstrip_slash (s : string) : string :=
  match s with
  | EmptyString => EmptyString
  | String c s' =>
      match rstrip_slash s' with
      | EmptyString => if Ascii.eqb c "/"%char then EmptyString else String c EmptyString
      | t => String c t
      end
  end.

(** The fields of [KokoroEventHandler]. *)
Record Handler : Type := {
  wyoming_info : WyomingInfo;
  api_url : string;
  voice : string;
  speed : f32;
  api_timeout : f32
}.

(** [KokoroEventHandler.__init__] *)
Definition __init__ (wyoming_info : WyomingInfo) (api_url voice : string)
    (speed api_timeout : f32) : Handler :=
  {| wyoming_info := wyoming_info;
     api_url := rstrip_slash api_url;
     voice := voice;
     speed := speed;
     api_timeout := api_timeout |}.

(** Lines 51 to 59: the request sent to the Kokoro API. *)
Definition endpoint_of (self : Handler) : string :=
  String.append (api_url self) "/audio/speech".

Definition payload_of (self : Handler) (text : string) : Payload :=
  {| p_model := "kokoro";
     p_voice := voice self;
     p_input := text;
     p_response_format := "pcm";
     p_speed := speed self;
     p_stream := true |}.

Section Handler.
(** The Kokoro API server: [client.stream("POST", endpoint, json=payload)]
    fails to connect or answers. *)
Variable post : string -> Payload -> exn + Response.

Definition sample_rate : Z := 24000.

(** The loop [while len(buffer) >= 2], lines 96 to 115.  Every turn
    removes at least two bytes, so that [length buffer] turns are
    enough (see [while_buffer_rest]). *)
Fixpoint while_buffer (fuel : nat) (buffer : bytes) : M Handler bytes :=
  match fuel with
  | O => ret buffer
  | S fuel' =>
      if 2 <=? len buffer then
        let samples_available := len buffer / 2 in
        let chunk_samples := Z.min samples_available 1024 in
        let chunk_bytes := take (Z.to_nat (chunk_samples * 2)) buffer in
        let buffer := drop (Z.to_nat (chunk_samples * 2)) buffer in
        write_event (AudioChunk chunk_bytes sample_rate 2 1) ;;;
        while_buffer fuel' buffer
      else ret buffer
  end.

(** One turn of [async for chunk in response.aiter_bytes(...)]:
    lines 93 to 115. *)
Definition on_chunk (buffer chunk : bytes) : M Handler bytes :=
  let buffer := buffer ++ chunk in
  while_buffer (length buffer) buffer.

(** The whole [async for] loop; the stream raises after its last item
    when the transfer breaks. *)
Fixpoint aiter_bytes (its : list bytes) (err : option exn) (buffer : bytes)
    : M Handler bytes :=
  match its with
  | [] => match err with Some e => raise e | None => ret buffer end
  | chunk :: its' =>
      buffer <- on_chunk buffer chunk ;;
      aiter_bytes its' err buffer
  end.

(** Lines 118 to 129: what is left in the buffer after the stream. *)
Definition send_remaining (buffer : bytes) : M Handler unit :=
  if 2 <=? len buffer then
    let remaining_samples := len buffer / 2 in
    let chunk_bytes := take (Z.to_nat (remaining_samples * 2)) buffer in
    write_event (AudioChunk chunk_bytes sample_rate 2 1)
  else ret tt.

(** The body of the [try] block, lines 50 to 146. *)
Definition synthesize_body (text : string) : M Handler unit :=
  self <- get ;;
  let endpoint := endpoint_of self in
  let payload := payload_of self text in
  write_event (AudioStart sample_rate 2 1) ;;;
  tell (HttpPost endpoint payload) ;;;
  response <- lift (post endpoint payload) ;;
  (if status_ok response then ret tt else raise HTTPError) ;;;
  buffer <- aiter_bytes (items response) (stream_error response) [] ;;
  send_remaining buffer ;;;
  write_event AudioStop.

(** The two [except] clauses, lines 148 to 157. *)
Definition on_failure (e : exn) : M Handler unit :=
  match e with
  | HTTPError =>
      write_event (AudioStart 24000 2 1) ;;;
      write_event AudioStop
  | _ =>
      write_event (AudioStart 24000 2 1) ;;;
      write_event AudioStop
  end.

Definition handle_event (event : Event) : M Handler bool :=
  match event with
  | Describe =>
      self <- get ;;
      write_event (Info_event (wyoming_info self)) ;;;
      ret true
  | Synthesize text _ _ =>
      catch (synthesize_body text) on_failure ;;;
      ret true
  | _ => ret true
  end.

(** The chunk reframing of the handler, seen from outside: pushing a
    block of bytes is one turn of the [async for] loop, flushing is
    the code after the loop; both give the audio of the chunks they
    write and the buffer they leave. *)
Definition push (self : Handler) (buffer chunk : bytes) : list bytes * bytes :=
  let r := on_chunk buffer chunk self in
  (payloads (written (trace r)),
   match outcome r with inr b => b | inl _ => [] end).

Definition flush (self : Handler) (buffer : bytes) : list bytes :=
  payloads (written (trace (send_remaining buffer self))).

(** A sequence of pushes from an empty buffer. *)
Fixpoint push_all (self : Handler) (buffer : bytes) (blocks : list bytes)
    : list bytes * bytes :=
  match blocks with
  | [] => ([], buffer)
  | b :: bs =>
      let '(out, buffer') := push self buffer b in
      let '(out', rest) := push_all self buffer' bs in
      (out ++ out', rest)
  end.
End Handler.

End Kokoro.

(** ** The HTTP client: [response.aiter_bytes(chunk_size=512)] of httpx *)

Module Httpx.

(** [[value[i : i + size] for i in range(0, len(value), size)]] *)
Fixpoint slices (fuel : nat) (size : nat) (value : bytes) : list bytes :=
  match fuel with
  | O => []
  | S fuel' =>
      match value with
      | [] => []
      | _ => take size value :: slices fuel' size (drop size value)
      end
  end.

(** [ByteChunker.decode(content)], for a chunk size that is given: the
    content is appended to the buffer of the chunker; once the buffer holds
    [chunk_size] bytes it is cut into slices of that size, which are
    returned, short of a last slice that is not full and stays in the
    buffer.  The result is the list returned and the new buffer. *)
Definition decode (chunk_size : Z) (buffer content : bytes) : list bytes * bytes :=
  let value := buffer ++ content in
  if chunk_size <=? len value then
    let chunks := slices (length value) (Z.to_nat chunk_size) value in
    if len (List.last chunks []) =? chunk_size then (chunks, [])
    else (removelast chunks, List.last chunks [])
  else ([], value).

(** [ByteChunker.flush()] *)
Definition flush (buffer : bytes) : list bytes :=
  match buffer with
  | [] => []
  | _ => [buffer]
  end.

(** The items that [aiter_bytes(chunk_size)] yields for the fragments
    [raw] that the connection delivers: every fragment goes through
    [decode], and the chunker is flushed when the body ends.  When the
    connection breaks after the fragments ([err] is an exception), the
    exception leaves the generator and the buffer of the chunker is
    lost. *)
Fixpoint aiter (chunk_size : Z) (buffer : bytes) (raw : list bytes) (err : option exn)
    : list bytes :=
  match raw with
  | [] => match err with Some _ => [] | None => flush buffer end
  | content :: raw' =>
      let '(chunks, buffer') := decode chunk_size buffer content in
      chunks ++ aiter chunk_size buffer' raw' err
  end.

Definition aiter_bytes (chunk_size : Z) (raw : list bytes) (err : option exn)
    : list bytes :=
  aiter chunk_size [] raw err.

(** The response of a Kokoro API that answers with a success status and
    sends the fragments [raw], as the handler sees it. *)
Definition response (raw : list bytes) (err : option exn) : Kokoro.Response :=
  {| Kokoro.status_ok := true;
     Kokoro.items := aiter_bytes 512 raw err;
     Kokoro.stream_error := err |}.

End Httpx.

(** ** PCM audio with numpy *)

Module Np.

(** One [int16] from two bytes, least significant first, in two's
    complement. *)
Definition int16_of_bytes (lo hi : byte) : Z :=
  let u := Z.of_N (Byte.to_N lo) + 256 * Z.of_N (Byte.to_N hi) in
  if u <? 32768 then u else u - 65536.

Fixpoint int16_items (buffer : bytes) : list Z :=
  match buffer with
  | lo :: hi :: rest => int16_of_bytes lo hi :: int16_items rest
  | _ => []
  end.

(** [np.frombuffer(buffer, dtype=np.int16)]: a buffer whose size is no
    multiple of the size of an element is refused with [ValueError]. *)
Definition frombuffer {S} (buffer : bytes) : M S (list Z) :=
  if len buffer mod 2 =? 0 then ret (int16_items buffer)
  else raise ValueError.

(** [audio_data.astype(np.float32) / 32768.0] *)
Definition to_float (audio_data : list Z) : list f32 :=
  map (fun x => f32_div (f32_of_Z x) (f32_of_Z 32768)) audio_data.

(** The rows of [a.reshape(-1, c)], for a size that [c] divides. *)
Fixpoint rows (fuel : nat) (c : nat) (a : list f32) : list (list f32) :=
  match fuel with
  | O => []
  | S fuel' =>
      match a with
      | [] => []
      | _ => take c a :: rows fuel' c (drop c a)
      end
  end.

(** [a.reshape(-1, c)] raises [ValueError] when [c] does not divide the
    size of [a]. *)
Definition reshape {S} (c : Z) (a : list f32) : M S (list (list f32)) :=
  if len a mod c =? 0 then ret (rows (length a) (Z.to_nat c) a)
  else raise ValueError.

(** The mean of one row: the sum of its items, divided by their number,
    in [float32]. *)
Definition mean (row : list f32) : f32 :=
  f32_div (fold_left f32_add row f32_zero) (f32_of_Z (len row)).

(** [a.reshape(-1, c).mean(axis=1)] *)
Definition reshape_mean {S} (c : Z) (a : list f32) : M S (list f32) :=
  m <- reshape c a ;;
  ret (map mean m).

End Np.

(** [librosa.resample(audio, orig_sr=..., target_sr=...)], when the module
    can be imported. *)
Definition Resampler : Type := list f32 -> Z -> Z -> exn + list f32.

(** ** Speech to text: moonshine/moonshine_handler.py *)

Module Moonshine.

(** A loaded model with its tokenizer: [model.generate] followed by
    [tokenizer.decode_batch(tokens)[0].strip()]. *)
Record Model : Type := { generate : list f32 -> exn + string }.

(** The fields of [MoonshineEventHandler]. *)
Record Handler : Type := {
  wyoming_info : WyomingInfo;
  model_name : string;
  audio_buffer : bytes;
  sample_rate : Z;
  audio_width : Z;
  audio_channels : Z
}.

(** The handler of one connection together with the state of the
    process: the module-level [_model_cache], and the number of model
    constructions attempted so far. *)
Record State : Type := {
  self : Handler;
  _model_cache : gmap string Model;
  attempts : nat
}.

(** [MoonshineEventHandler.__init__] *)
Definition __init__ (wyoming_info : WyomingInfo) (model_name : string) : Handler :=
  {| wyoming_info := wyoming_info;
     model_name := model_name;
     audio_buffer := [];
     sample_rate := 16000;
     audio_width := 2;
     audio_channels := 1 |}.

Definition set_self (h : Handler) (s : State) : State :=
  {| self := h; _model_cache := _model_cache s; attempts := attempts s |}.

Definition set_format (rate width channels : Z) (h : Handler) : Handler :=
  {| wyoming_info := wyoming_info h;
     model_name := model_name h;
     audio_buffer := audio_buffer h;
     sample_rate := rate;
     audio_width := width;
     audio_channels := channels |}.

Definition set_audio_buffer (b : bytes) (h : Handler) : Handler :=
  {| wyoming_info := wyoming_info h;
     model_name := model_name h;
     audio_buffer := b;
     sample_rate := sample_rate h;
     audio_width := audio_width h;
     audio_channels := audio_channels h |}.

Definition format (h : Handler) : Z * Z * Z :=
  (sample_rate h, audio_width h, audio_channels h).

Section Handler.
(** [MoonshineOnnxModel(model_name=...)] and [load_tokenizer()]: what
    the construction gives when it is attempted after [n] earlier
    attempts in this process. *)
Variable MoonshineOnnxModel : string -> nat -> exn + Model.

(** [import librosa] fails with [ImportError] when this is [None]. *)
Variable librosa : option Resampler.

(** [get_model], under [_model_lock]. *)
Definition get_model (model_name : string) : M State Model :=
  s <- get ;;
  (match _model_cache s !! model_name with
   | None =>
       catch
         (let r := MoonshineOnnxModel model_name (attempts s) in
          tell (Construct model_name (is_ok r)) ;;;
          put {| self := self s; _model_cache := _model_cache s;
                 attempts := S (attempts s) |} ;;;
          loaded <- lift r ;;
          s <- get ;;
          put {| self := self s;
                 _model_cache := <[model_name := loaded]> (_model_cache s);
                 attempts := attempts s |})
         (fun e => raise e)
   | Some _ => ret tt
   end) ;;;
  s <- get ;;
  match _model_cache s !! model_name with
  | Some m => ret m
  | None => raise KeyError
  end.

(** [MoonshineEventHandler._transcribe_sync] *)
Definition _transcribe_sync (audio_data : list f32) : M State string :=
  catch
    (s <- get ;;
     model <- get_model (model_name (self s)) ;;
     let r := generate model audio_data in
     tell (Generate audio_data (is_ok r)) ;;;
     lift r)
    (fun _ => ret "").

(** Lines 103 to 105. *)
Definition downmix (channels : Z) (audio_float : list f32) : M State (list f32) :=
  if channels >? 1 then Np.reshape_mean channels audio_float
  else ret audio_float.

(** Lines 107 to 121. *)
Definition resample (rate : Z) (audio_float : list f32) : M State (list f32) :=
  if negb (rate =? 16000) then
    catch
      (match librosa with
       | None => raise ImportError
       | Some librosa_resample =>
           tell (Resample audio_float rate 16000) ;;;
           lift (librosa_resample audio_float rate 16000)
       end)
      (fun e =>
         match e with
         | ImportError =>
             tell (Warning "librosa not available for resampling; transcription quality may be degraded") ;;;
             ret audio_float
         | _ => raise e
         end)
  else ret audio_float.

(** The body of the [try] block of the [AudioStop] branch. *)
Definition audio_stop_body : M State unit :=
  s <- get ;;
  audio_data <- Np.frombuffer (audio_buffer (self s)) ;;
  let audio_float := Np.to_float audio_data in
  audio_float <- downmix (audio_channels (self s)) audio_float ;;
  audio_float <- resample (sample_rate (self s)) audio_float ;;
  text <- _transcribe_sync audio_float ;;
  write_event (Transcript text).

Definition handle_event (event : Event) : M State bool :=
  match event with
  | Describe =>
      s <- get ;;
      write_event (Info_event (wyoming_info (self s))) ;;;
      ret true
  | Transcribe _ =>
      s <- get ;;
      put (set_self (set_format 16000 (audio_width (self s)) (audio_channels (self s))
                       (set_audio_buffer [] (self s))) s) ;;;
      ret true
  | AudioChunk audio rate width channels =>
      s <- get ;;
      (match audio_buffer (self s) with
       | [] => put (set_self (set_format rate width channels (self s)) s)
       | _ => ret tt
       end) ;;;
      s <- get ;;
      put (set_self (set_audio_buffer (audio_buffer (self s) ++ audio) (self s)) s) ;;;
      ret true
  | AudioStop =>
      catch audio_stop_body (fun _ => write_event (Transcript "")) ;;;
      ret true
  | _ => ret true
  end.

(** The events of a connection, handled in their order of arrival; the
    connection is served as long as [handle_event] returns [True] and
    is closed by an exception. *)
Fixpoint handle_events (events : list Event) : M State bool :=
  match events with
  | [] => ret true
  | e :: es =>
      continue <- handle_event e ;;
      if continue : bool then handle_events es else ret false
  end.
End Handler.

End Moonshine.

(** ** Speech to text: voxtral/voxtral_handler.py *)

Module Voxtral.

(** The vLLM engine: [generate] on the audio, then the text of the first
    output, stripped, when there is one. *)
Record LLM : Type := { generate : list f32 -> exn + option string }.

(** The fields of [VoxtralEventHandler]. *)
Record Handler : Type := {
  wyoming_info : WyomingInfo;
  model_name : string;
  language : string;
  gpu_memory_utilization : f32;
  llm : option LLM;
  audio_buffer : bytes;
  sample_rate : Z;
  audio_width : Z;
  audio_channels : Z
}.

(** The handler of one connection together with the state of the
    process: the module-level [_llm_cache] and [_model_lock] (whether the
    lock exists yet), and the number of constructions attempted so
    far. *)
Record State : Type := {
  self : Handler;
  _llm_cache : option LLM;
  _model_lock : bool;
  attempts : nat
}.

(** [VoxtralEventHandler.__init__] *)
Definition __init__ (wyoming_info : WyomingInfo) (model_name language : string)
    (gpu_memory_utilization : f32) : Handler :=
  {| wyoming_info := wyoming_info;
     model_name := model_name;
     language := language;
     gpu_memory_utilization := gpu_memory_utilization;
     llm := None;
     audio_buffer := [];
     sample_rate := 16000;
     audio_width := 2;
     audio_channels := 1 |}.

Definition set_self (h : Handler) (s : State) : State :=
  {| self := h; _llm_cache := _llm_cache s; _model_lock := _model_lock s;
     attempts := attempts s |}.

Definition set_llm (l : option LLM) (h : Handler) : Handler :=
  {| wyoming_info := wyoming_info h;
     model_name := model_name h;
     language := language h;
     gpu_memory_utilization := gpu_memory_utilization h;
     llm := l;
     audio_buffer := audio_buffer h;
     sample_rate := sample_rate h;
     audio_width := audio_width h;
     audio_channels := audio_channels h |}.

Definition set_format (rate width channels : Z) (h : Handler) : Handler :=
  {| wyoming_info := wyoming_info h;
     model_name := model_name h;
     language := language h;
     gpu_memory_utilization := gpu_memory_utilization h;
     llm := llm h;
     audio_buffer := audio_buffer h;
     sample_rate := rate;
     audio_width := width;
     audio_channels := channels |}.

Definition set_audio_buffer (b : bytes) (h : Handler) : Handler :=
  {| wyoming_info := wyoming_info h;
     model_name := model_name h;
     language := language h;
     gpu_memory_utilization := gpu_memory_utilization h;
     llm := llm h;
     audio_buffer := b;
     sample_rate := sample_rate h;
     audio_width := audio_width h;
     audio_channels := audio_channels h |}.

Definition format (h : Handler) : Z * Z * Z :=
  (sample_rate h, audio_width h, audio_channels h).

Section Handler.
(** [vllm.LLM(model=..., gpu_memory_utilization=..., ...)]: what the
    construction gives when it is attempted after [n] earlier attempts
    in this process. *)
Variable vllm_LLM : string -> f32 -> nat -> exn + LLM.

(** [import librosa] fails with [ImportError] when this is [None]. *)
Variable librosa : option Resampler.

(** [get_vllm_model]; the lock is created by the first call. *)
Definition get_vllm_model (model_name : string) (gpu_memory_utilization : f32)
    : M State (option LLM) :=
  s <- get ;;
  (if _model_lock s then ret tt
   else put {| self := self s; _llm_cache := _llm_cache s;
               _model_lock := true; attempts := attempts s |}) ;;;
  s <- get ;;
  (match _llm_cache s with
   | None =>
       catch
         (let r := vllm_LLM model_name gpu_memory_utilization (attempts s) in
          tell (Construct model_name (is_ok r)) ;;;
          put {| self := self s; _llm_cache := _llm_cache s;
                 _model_lock := _model_lock s; attempts := S (attempts s) |} ;;;
          loaded <- lift r ;;
          s <- get ;;
          put {| self := self s; _llm_cache := Some loaded;
                 _model_lock := _model_lock s; attempts := attempts s |})
         (fun e => raise e)
   | Some _ => ret tt
   end) ;;;
  s <- get ;;
  ret (_llm_cache s).

(** [VoxtralEventHandler._transcribe_sync]; [import librosa] comes
    first, whatever the sample rate. *)
Definition _transcribe_sync (audio_data : list f32) (sample_rate : Z)
    : M State string :=
  catch
    (librosa_resample <-
       match librosa with
       | None => raise ImportError
       | Some f => ret f
       end ;;
     audio_data <-
       (if negb (sample_rate =? 16000) then
          tell (Resample audio_data sample_rate 16000) ;;;
          lift (librosa_resample audio_data sample_rate 16000)
        else ret audio_data) ;;
     s <- get ;;
     match llm (self s) with
     | None => raise AttributeError
     | Some engine =>
         let r := generate engine audio_data in
         tell (Generate audio_data (is_ok r)) ;;;
         outputs <- lift r ;;
         match outputs with
         | Some text => ret text
         | None => ret ""
         end
     end)
    (fun _ => ret "").

(** The body of the [try] block of the [AudioStop] branch. *)
Definition audio_stop_body : M State unit :=
  s <- get ;;
  (match llm (self s) with
   | None =>
       l <- get_vllm_model (model_name (self s)) (gpu_memory_utilization (self s)) ;;
       s <- get ;;
       put (set_self (set_llm l (self s)) s)
   | Some _ => ret tt
   end) ;;;
  s <- get ;;
  audio_data <- Np.frombuffer (audio_buffer (self s)) ;;
  let audio_float := Np.to_float audio_data in
  text <- _transcribe_sync audio_float (sample_rate (self s)) ;;
  write_event (Transcript text).

Definition handle_event (event : Event) : M State bool :=
  match event with
  | Describe =>
      s <- get ;;
      write_event (Info_event (wyoming_info (self s))) ;;;
      ret true
  | Transcribe _ =>
      s <- get ;;
      put (set_self (set_format 16000 (audio_width (self s)) (audio_channels (self s))
                       (set_audio_buffer [] (self s))) s) ;;;
      ret true
  | AudioChunk audio rate width channels =>
      s <- get ;;
      (match audio_buffer (self s) with
       | [] => put (set_self (set_format rate width channels (self s)) s)
       | _ => ret tt
       end) ;;;
      s <- get ;;
      put (set_self (set_audio_buffer (audio_buffer (self s) ++ audio) (self s)) s) ;;;
      ret true
  | AudioStop =>
      catch audio_stop_body (fun _ => write_event (Transcript "")) ;;;
      ret true
  | _ => ret true
  end.

Fixpoint handle_events (events : list Event) : M State bool :=
  match events with
  | [] => ret true
  | e :: es =>
      continue <- handle_event e ;;
      if continue : bool then handle_events es else ret false
  end.
End Handler.

End Voxtral.

(** ** Observations on traces *)

(** The requests sent to the Kokoro API. *)
Fixpoint requests (t : list Effect) : list (string * Payload) :=
  match t with
  | [] => []
  | HttpPost endpoint payload :: t' => (endpoint, payload) :: requests t'
  | _ :: t' => requests t'
  end.

(** The audio handed to the resampler, call by call. *)
Fixpoint resampled (t : list Effect) : list (list f32) :=
  match t with
  | [] => []
  | Resample audio _ _ :: t' => audio :: resampled t'
  | _ :: t' => resampled t'
  end.

(** The audio handed to the model, call by call. *)
Fixpoint generated (t : list Effect) : list (list f32) :=
  match t with
  | [] => []
  | Generate audio _ :: t' => audio :: generated t'
  | _ :: t' => generated t'
  end.

(** The model names whose construction was run. *)
Fixpoint constructed (t : list Effect) : list string :=
  match t with
  | [] => []
  | Construct name _ :: t' => name :: constructed t'
  | _ :: t' => constructed t'
  end.

(** Whether a call to the backend (construction or inference) raised. *)
Definition backend_raised (t : list Effect) : bool :=
  existsb (fun e =>
             match e with
             | Construct _ false | Generate _ false => true
             | _ => false
             end) t.

(** The events that the Kokoro handler writes. *)
Definition start_event : Event := AudioStart 24000 2 1.
Definition chunk_event (a : bytes) : Event := AudioChunk a 24000 2 1.

(** A list of events made of [AudioChunk] events only. *)
Definition all_chunks (events : list Event) : Prop :=
  Forall (fun e => is_audio_chunk e = true) events.

(** Chunks of 16-bit mono audio at 16000 Hz. *)
Definition chunks_16k (payloads : list bytes) : list Event :=
  map (fun a => AudioChunk a 16000 2 1) payloads.

(** ** The reframing loop of Kokoro as a function *)

(** The loop of [Kokoro.while_buffer]: the chunks cut off the front of
    the buffer, and what is left. *)
Fixpoint cut (fuel : nat) (buffer : bytes) : list bytes * bytes :=
  match fuel with
  | O => ([], buffer)
  | S fuel' =>
      if 2 <=? len buffer then
        let n := Z.to_nat (Z.min (len buffer / 2) 1024 * 2) in
        let '(out, rest) := cut fuel' (drop n buffer) in
        (take n buffer :: out, rest)
      else ([], buffer)
  end.

(** The same with the fuel that [Kokoro.on_chunk] gives to the loop. *)
Definition reframe (buffer : bytes) : list bytes * bytes :=
  cut (length buffer) buffer.

(** The number of bytes that one turn of the loop cuts off. *)
Definition cut_size (buffer : bytes) : nat :=
  Z.to_nat (Z.min (len buffer / 2) 1024 * 2).

(** What every chunk written by the loop satisfies: whole samples, at
    least one and at most 1024 of them. *)
Definition chunk_ok (c : bytes) : Prop :=
  2 <= len c <= 2048 /\ len c mod 2 = 0.

(** ** The steps of the Moonshine handler *)

Module MoonshineSteps.
Import Moonshine.

(** The state after one more attempt at construction. *)
Definition tick (s : State) : State :=
  {| self := self s; _model_cache := _model_cache s; attempts := S (attempts s) |}.

(** The state after [_model_cache[name] = m]. *)
Definition store (name : string) (m : Model) (s : State) : State :=
  {| self := self s; _model_cache := <[name := m]> (_model_cache s);
     attempts := attempts s |}.

(** The part of the [AudioStop] branch that comes before the model. *)
Definition prepare (librosa : option Resampler) : M State (list f32) :=
  s <- get ;;
  audio_data <- Np.frombuffer (audio_buffer (self s)) ;;
  audio_float <- downmix (audio_channels (self s)) (Np.to_float audio_data) ;;
  resample librosa (sample_rate (self s)) audio_float.

(** Whether the conversions of the [AudioStop] branch succeed: the buffer
    holds whole samples and, with several channels, whole frames. *)
Definition convertible (h : Handler) : bool :=
  (len (audio_buffer h) mod 2 =? 0)
  && (if audio_channels h >? 1
      then len (Np.int16_items (audio_buffer h)) mod audio_channels h =? 0
      else true).

(** The audio after conversion and downmix. *)
Definition mono_audio (h : Handler) : list f32 :=
  let a := Np.to_float (Np.int16_items (audio_buffer h)) in
  if audio_channels h >? 1
  then map Np.mean (Np.rows (length a) (Z.to_nat (audio_channels h)) a)
  else a.


End MoonshineSteps.

(** ** The steps of the Voxtral handler *)

Module VoxtralSteps.
Import Voxtral.

Definition lock (s : State) : State :=
  {| self := self s; _llm_cache := _llm_cache s; _model_lock := true;
     attempts := attempts s |}.

Definition tick (s : State) : State :=
  {| self := self s; _llm_cache := _llm_cache s; _model_lock := _model_lock s;
     attempts := S (attempts s) |}.

Definition store (l : LLM) (s : State) : State :=
  {| self := self s; _llm_cache := Some l; _model_lock := _model_lock s;
     attempts := attempts s |}.

(** The state once [_model_lock] exists. *)
Definition locked (s : State) : State := if _model_lock s then s else lock s.

(** The first lines of the [try] block: the engine is loaded when the
    handler has none. *)
Definition load_llm (vllm_LLM : string -> f32 -> nat -> exn + LLM) : M State unit :=
  s <- get ;;
  match llm (self s) with
  | None =>
      l <- get_vllm_model vllm_LLM (model_name (self s))
             (gpu_memory_utilization (self s)) ;;
      s <- get ;;
      put (set_self (set_llm l (self s)) s)
  | Some _ => ret tt
  end.

(** The rest of the [try] block. *)
Definition transcribe_buffer (librosa : option Resampler) : M State unit :=
  s <- get ;;
  audio_data <- Np.frombuffer (audio_buffer (self s)) ;;
  text <- _transcribe_sync librosa (Np.to_float audio_data) (sample_rate (self s)) ;;
  write_event (Transcript text).

(** The handler fields that the audio path reads. *)
Definition audio_fields (h : Handler) : bytes * Z * Z * Z :=
  (audio_buffer h, sample_rate h, audio_width h, audio_channels h).

(** What the engine is asked, after the effects [pre] of the resampling. *)
Definition ask (s : State) (pre : list Effect) (a : list f32) : Run State string :=
  match llm (self s) with
  | None => mkRun pre s (inr "")
  | Some engine =>
      match generate engine a with
      | inl _ => mkRun (pre ++ [Generate a false]) s (inr "")
      | inr (Some text) => mkRun (pre ++ [Generate a true]) s (inr text)
      | inr None => mkRun (pre ++ [Generate a true]) s (inr "")
      end
  end.

End VoxtralSteps.

(** ** Scenarios *)

Module Scenario.

Definition zeros (n : Z) : bytes := repeat x00 (Z.to_nat n).

Definition kokoro_info : WyomingInfo :=
  {| program := "kokoro-tts"; models := ["af_bella"]; languages := ["en"; "ja"] |}.

Definition kokoro : Kokoro.Handler :=
  Kokoro.__init__ kokoro_info "http://10.0.3.23:8880/v1" "af_bella"
    (f32_of_Z 1) (f32_of_Z 30).

(** A Kokoro API that streams the given items and then, maybe, breaks. *)
Definition api (its : list bytes) (err : option exn)
    : string -> Payload -> exn + Kokoro.Response :=
  fun _ _ => inr {| Kokoro.status_ok := true; Kokoro.items := its;
                    Kokoro.stream_error := err |}.

Definition hi : Event := Synthesize "hi" (Some "v1") (Some (f32_of_Z 1)).

Definition stt_info : WyomingInfo :=
  {| program := "stt"; models := ["tiny"]; languages := ["en"] |}.

(** A Moonshine model that answers, and one that raises. *)
Definition hello : Moonshine.Model :=
  {| Moonshine.generate := fun _ => inr "hello" |}.
Definition broken : Moonshine.Model :=
  {| Moonshine.generate := fun _ => inl RuntimeError |}.

Definition loads (m : Moonshine.Model) : string -> nat -> exn + Moonshine.Model :=
  fun _ _ => inr m.

(** A construction that fails the first time and succeeds afterwards. *)
Definition flaky : string -> nat -> exn + Moonshine.Model :=
  fun _ n => match n with O => inl RuntimeError | _ => inr hello end.

Definition moonshine : Moonshine.State :=
  {| Moonshine.self := Moonshine.__init__ stt_info "tiny";
     Moonshine._model_cache := ∅;
     Moonshine.attempts := 0 |}.

Definition hello_llm : Voxtral.LLM :=
  {| Voxtral.generate := fun _ => inr (Some "hello") |}.
Definition broken_llm : Voxtral.LLM :=
  {| Voxtral.generate := fun _ => inl RuntimeError |}.

Definition loads_llm (l : Voxtral.LLM) : string -> f32 -> nat -> exn + Voxtral.LLM :=
  fun _ _ _ => inr l.

Definition flaky_llm : string -> f32 -> nat -> exn + Voxtral.LLM :=
  fun _ _ n => match n with O => inl RuntimeError | _ => inr hello_llm end.

Definition voxtral : Voxtral.State :=
  {| Voxtral.self := Voxtral.__init__ stt_info "voxtral" "en" (f32_of_Z 1);
     Voxtral._llm_cache := None;
     Voxtral._model_lock := false;
     Voxtral.attempts := 0 |}.

(** A Voxtral session at 8000 Hz whose handler already holds its engine,
    with four bytes of audio in the buffer. *)
Definition voxtral_8k : Voxtral.State :=
  {| Voxtral.self :=
       Voxtral.set_audio_buffer (zeros 4)
         (Voxtral.set_format 8000 2 1
            (Voxtral.set_llm (Some hello_llm)
               (Voxtral.__init__ stt_info "voxtral" "en" (f32_of_Z 1))));
     Voxtral._llm_cache := Some hello_llm;
     Voxtral._model_lock := true;
     Voxtral.attempts := 1 |}.

(** A resampler that keeps one sample out of two. *)
Fixpoint halve (a : list f32) : list f32 :=
  match a with
  | x :: _ :: a' => x :: halve a'
  | _ => a
  end.
Definition decimate : Resampler := fun a _ _ => inr (halve a).

(** The start of a mono session at 8000 Hz. *)
Definition session_8k : list Event :=
  [Transcribe None; AudioChunk (zeros 8) 8000 2 1].

(** A stereo session at 8000 Hz with the samples 100, 200, 300, 400. *)
Definition stereo_8k : list Event :=
  [Transcribe None;
   AudioChunk [x64; x00; xc8; x00; x2c; x01; x90; x01] 8000 2 2].

End Scenario.

(** ** What the Kokoro handler writes, as functions *)

(** The events that follow the first [AudioStart], for each answer of the
    API: connection failure, error status, stream that breaks, stream that
    ends. *)
Definition reply_events (self : Kokoro.Handler) (answer : exn + Kokoro.Response)
    : list Event :=
  match answer with
  | inl _ => [start_event; AudioStop]
  | inr r =>
      if Kokoro.status_ok r then
        map chunk_event (fst (Kokoro.push_all self [] (Kokoro.items r)))
        ++ match Kokoro.stream_error r with
           | Some _ => [start_event; AudioStop]
           | None => [AudioStop]
           end
      else [start_event; AudioStop]
  end.

(** Whether the API answered with a complete stream. *)
Definition complete (answer : exn + Kokoro.Response) : bool :=
  match answer with
  | inl _ => false
  | inr r =>
      Kokoro.status_ok r
      && match Kokoro.stream_error r with Some _ => false | None => true end
  end.

(** Audio events in the format that Kokoro announces: 24000 Hz, 16 bits,
    mono, and for a chunk between 1 and 1024 whole samples. *)
Definition kokoro_audio (e : Event) : Prop :=
  match e with
  | AudioStart rate width channels => (rate, width, channels) = (24000, 2, 1)
  | AudioChunk a rate width channels =>
      (rate, width, channels) = (24000, 2, 1) /\ chunk_ok a
  | _ => True
  end.

(** Whether a string ends with a slash. *)
Fixpoint ends_with_slash (s : string) : bool :=
  match s with
  | EmptyString => false
  | String c EmptyString => Ascii.eqb c "/"%char
  | String _ s' => ends_with_slash s'
  end.

(** [n] slashes. *)
Fixpoint slashes (n : nat) : string :=
  match n with
  | O => EmptyString
  | S n' => String "/"%char (slashes n')
  end.

(** ** Counting what a session asks and gets *)

Definition is_describe (e : Event) : bool :=
  match e with Describe => true | _ => false end.
Definition is_info (e : Event) : bool :=
  match e with Info_event _ => true | _ => false end.

(** The configuration of a Voxtral handler: the fields set by [__init__]
    from the arguments of the server. *)
Definition voxtral_config (h : Voxtral.Handler) : WyomingInfo * string * string * f32 :=
  (Voxtral.wyoming_info h, Voxtral.model_name h, Voxtral.language h,
   Voxtral.gpu_memory_utilization h).

(** ** More scenarios *)

Module Cases.

(** A resampler that raises. *)
Definition raising (e : exn) : Resampler := fun _ _ _ => inl e.

(** A Kokoro API that answers with a success status and sends the
    fragments [raw], then maybe breaks. *)
Definition streams (raw : list bytes) (err : option exn)
    : string -> Payload -> exn + Kokoro.Response :=
  fun _ _ => inr (Httpx.response raw err).

End Cases.

(** ** The servers: kokoro_wrapper.py, voxtral_wrapper.py, moonshine_wrapper.py *)

Module KokoroWrapper.

(** The command line, parsed. *)
Record Args : Type := {
  api_url : string;
  voice : string;
  speed : f32;
  api_timeout : f32;
  uri : string;
  debug : bool
}.

(** The [Info] of [main]: one program with one voice. *)
Definition wyoming_info (args : Args) : WyomingInfo :=
  {| program := "kokoro-tts";
     models := [voice args];
     languages := ["en"; "ja"; "zh"; "ko"; "fr"; "es"] |}.

(** [partial(KokoroEventHandler, ...)], applied by the server to every
    connection. *)
Definition handler_factory (args : Args) : Kokoro.Handler :=
  Kokoro.__init__ (wyoming_info args) (api_url args) (voice args) (speed args)
    (api_timeout args).

End KokoroWrapper.

Module VoxtralWrapper.

Record Args : Type := {
  uri : string;
  model : string;
  language : string;
  gpu_memory_utilization : f32;
  debug : bool
}.

Definition supported_languages : list string :=
  ["en"; "es"; "fr"; "de"; "it"; "pt"; "ru"; "zh"; "ja"; "ko"; "ar"; "hi"; "nl"].

Definition wyoming_info (args : Args) : WyomingInfo :=
  {| program := "voxtral";
     models := [model args];
     languages := supported_languages |}.

Definition handler_factory (args : Args) : Voxtral.Handler :=
  Voxtral.__init__ (wyoming_info args) (model args) (language args)
    (gpu_memory_utilization args).

(** A new connection in a process whose module-level state is that of
    [p]. *)
Definition connect (args : Args) (p : Voxtral.State) : Voxtral.State :=
  Voxtral.set_self (handler_factory args) p.

End VoxtralWrapper.

Module MoonshineWrapper.

Record Args : Type := {
  uri : string;
  model : string;
  debug : bool
}.

Definition supported_languages : list string :=
  ["en"; "ar"; "zh"; "ja"; "ko"; "es"; "uk"; "vi"].

Definition wyoming_info (args : Args) : WyomingInfo :=
  {| program := "moonshine";
     models := [model args];
     languages := supported_languages |}.

Definition handler_factory (args : Args) : Moonshine.Handler :=
  Moonshine.__init__ (wyoming_info args) (model args).

Definition connect (args : Args) (p : Moonshine.State) : Moonshine.State :=
  Moonshine.set_self (handler_factory args) p.

End MoonshineWrapper.

(** ** What the [AudioStop] branch reads *)

(** The fields of a Moonshine session that the [AudioStop] branch reads:
    all but the advertised info and the sample width. *)
Definition moonshine_inputs (s : Moonshine.State)
    : string * bytes * Z * Z * gmap string Moonshine.Model * nat :=
  (Moonshine.model_name (Moonshine.self s), Moonshine.audio_buffer (Moonshine.self s),
   Moonshine.sample_rate (Moonshine.self s), Moonshine.audio_channels (Moonshine.self s),
   Moonshine._model_cache s, Moonshine.attempts s).

(** The same for Voxtral: the info, the language, the sample width and the
    number of channels are left out. *)
Definition voxtral_inputs (s : Voxtral.State)
    : string * f32 * option Voxtral.LLM * bytes * Z * option Voxtral.LLM * nat :=
  (Voxtral.model_name (Voxtral.self s), Voxtral.gpu_memory_utilization (Voxtral.self s),
   Voxtral.llm (Voxtral.self s), Voxtral.audio_buffer (Voxtral.self s),
   Voxtral.sample_rate (Voxtral.self s), Voxtral._llm_cache s, Voxtral.attempts s).

(** What the handlers read of an incoming event: Moonshine reads neither
    the language of [Transcribe] nor the sample width of a chunk, and
    nothing of the events that it does not handle; Voxtral does not read
    the number of channels either. *)
Definition moonshine_view (e : Event) : Event :=
  match e with
  | Describe => Describe
  | Transcribe _ => Transcribe None
  | AudioChunk a r _ c => AudioChunk a r 0 c
  | AudioStop => AudioStop
  | _ => OtherEvent ""
  end.

Definition voxtral_view (e : Event) : Event :=
  match e with
  | Describe => Describe
  | Transcribe _ => Transcribe None
  | AudioChunk a r _ _ => AudioChunk a r 0 0
  | AudioStop => AudioStop
  | _ => OtherEvent ""
  end.

(** * Properties *)

(** ** Lists and traces *)

Lemma len_app {A} (l1 l2 : list A) : len (l1 ++ l2) = len l1 + len l2.
Proof. unfold len. rewrite length_app. lia. Qed.

Lemma len_nonneg {A} (l : list A) : 0 <= len l.
Proof. unfold len. lia. Qed.

Lemma len_drop {A} (n : Z) (l : list A) :
  0 <= n <= len l -> len (drop (Z.to_nat n) l) = len l - n.
Proof. intros H. unfold len in *. rewrite length_drop. lia. Qed.

Lemma len_take {A} (n : Z) (l : list A) :
  0 <= n <= len l -> len (take (Z.to_nat n) l) = n.
Proof. intros H. unfold len in *. rewrite length_take. lia. Qed.

Lemma written_app (t1 t2 : list Effect) :
  written (t1 ++ t2) = written t1 ++ written t2.
Proof.
  induction t1 as [|e t1 IH]; simpl; [reflexivity|].
  destruct e; simpl; now rewrite ?IH.
Qed.

Lemma written_map_emit (es : list Event) : written (map Emit es) = es.
Proof. induction es as [|e es IH]; simpl; [reflexivity | now rewrite IH]. Qed.

Lemma payloads_chunks (out : list bytes) : payloads (map chunk_event out) = out.
Proof. induction out as [|c out IH]; simpl; [reflexivity | now rewrite IH]. Qed.

Lemma count_events_app (p : Event -> bool) (a b : list Event) :
  count_events p (a ++ b) = (count_events p a + count_events p b)%nat.
Proof. unfold count_events. now rewrite List.filter_app, length_app. Qed.

Lemma count_chunks (p : Event -> bool) (out : list bytes) :
  (forall c, p (chunk_event c) = false) ->
  count_events p (map chunk_event out) = 0%nat.
Proof.
  intros Hp. unfold count_events.
  induction out as [|c out IH]; [reflexivity|].
  simpl. rewrite Hp. exact IH.
Qed.

Lemma requests_map_emit (es : list Event) : requests (map Emit es) = [].
Proof. induction es; simpl; auto. Qed.

Lemma backend_raised_app (t1 t2 : list Effect) :
  backend_raised (t1 ++ t2) = backend_raised t1 || backend_raised t2.
Proof. unfold backend_raised. apply existsb_app. Qed.

Lemma generated_app (t1 t2 : list Effect) :
  generated (t1 ++ t2) = generated t1 ++ generated t2.
Proof.
  induction t1 as [|e t1 IH]; simpl; [reflexivity|].
  destruct e; simpl; now rewrite ?IH.
Qed.

Lemma resampled_app (t1 t2 : list Effect) :
  resampled (t1 ++ t2) = resampled t1 ++ resampled t2.
Proof.
  induction t1 as [|e t1 IH]; simpl; [reflexivity|].
  destruct e; simpl; now rewrite ?IH.
Qed.

(** ** The monad *)

Lemma bind_assoc {S A B C} (m : M S A) (k : A -> M S B) (h : B -> M S C) (s : S) :
  bind (bind m k) h s = bind m (fun a => bind (k a) h) s.
Proof.
  unfold bind. destruct (m s) as [t s1 [e|a]]; [reflexivity|].
  destruct (k a s1) as [t1 s2 [e|b]]; [reflexivity|].
  destruct (h b s2) as [t2 s3 o]. now rewrite app_assoc.
Qed.

Lemma bind_ext {S A B} (m : M S A) (k k' : A -> M S B) (s : S) :
  (forall a s', k a s' = k' a s') -> bind m k s = bind m k' s.
Proof.
  intros H. unfold bind. destruct (m s) as [t s' [e|a]]; [reflexivity|].
  now rewrite H.
Qed.

(** ** Kokoro: the reframing loop *)

Lemma cut_size_bounds (buffer : bytes) :
  2 <= len buffer ->
  (2 <= cut_size buffer <= length buffer)%nat /\
  Z.of_nat (cut_size buffer) <= 2048 /\
  Z.of_nat (cut_size buffer) mod 2 = 0.
Proof.
  intros H. unfold cut_size, len in *.
  assert (H1 : 1 <= Z.of_nat (length buffer) / 2) by (apply Z.div_le_lower_bound; lia).
  assert (H2 : 2 * (Z.of_nat (length buffer) / 2) <= Z.of_nat (length buffer))
    by (apply Z.mul_div_le; lia).
  rewrite Z2Nat.id by lia.
  repeat split; try lia.
  apply Z.mod_mul; lia.
Qed.

Lemma cut_fuel (f1 : nat) : forall (f2 : nat) (buffer : bytes),
  (length buffer <= f1)%nat -> (length buffer <= f2)%nat ->
  cut f1 buffer = cut f2 buffer.
Proof.
  induction f1 as [|f1 IH]; intros f2 buffer H1 H2.
  - destruct buffer; [|simpl in H1; lia].
    destruct f2; reflexivity.
  - destruct f2 as [|f2].
    + destruct buffer; [reflexivity | simpl in H2; lia].
    + simpl. destruct (2 <=? len buffer) eqn:E; [|reflexivity].
      apply Z.leb_le in E.
      destruct (cut_size_bounds buffer E) as [Hn _].
      fold (cut_size buffer).
      rewrite (IH f2); [reflexivity | |]; rewrite length_drop; lia.
Qed.

Lemma reframe_small (buffer : bytes) :
  len buffer < 2 -> reframe buffer = ([], buffer).
Proof.
  intros H. unfold reframe. destruct (length buffer) eqn:E; [reflexivity|].
  simpl. destruct (2 <=? len buffer) eqn:E'; [|reflexivity].
  apply Z.leb_le in E'. lia.
Qed.

Lemma reframe_step (buffer : bytes) :
  2 <= len buffer ->
  reframe buffer =
    (take (cut_size buffer) buffer :: fst (reframe (drop (cut_size buffer) buffer)),
     snd (reframe (drop (cut_size buffer) buffer))).
Proof.
  intros H. unfold reframe at 1.
  destruct (length buffer) as [|n] eqn:E; [unfold len in H; lia|].
  simpl. replace (2 <=? len buffer) with true by (symmetry; apply Z.leb_le; exact H).
  fold (cut_size buffer).
  destruct (cut_size_bounds buffer H) as [Hn _].
  rewrite (cut_fuel n (length (drop (cut_size buffer) buffer)));
    [| rewrite length_drop; lia | lia].
  fold (reframe (drop (cut_size buffer) buffer)).
  destruct (reframe (drop (cut_size buffer) buffer)); reflexivity.
Qed.

Lemma cut_spec (fuel : nat) : forall buffer : bytes,
  (length buffer <= fuel)%nat ->
  concat (fst (cut fuel buffer)) ++ snd (cut fuel buffer) = buffer /\
  len (snd (cut fuel buffer)) < 2 /\
  Forall chunk_ok (fst (cut fuel buffer)).
Proof.
  induction fuel as [|fuel IH]; intros buffer H.
  - destruct buffer; [|simpl in H; lia]. simpl. unfold len. simpl.
    split; [reflexivity | split; [lia | constructor]].
  - simpl. destruct (2 <=? len buffer) eqn:E.
    + apply Z.leb_le in E. fold (cut_size buffer).
      destruct (cut_size_bounds buffer E) as (Hn & Hle & Hmod).
      specialize (IH (drop (cut_size buffer) buffer)).
      destruct (cut fuel (drop (cut_size buffer) buffer)) as [out rest] eqn:Ec.
      simpl in *. destruct IH as (IH1 & IH2 & IH3); [rewrite length_drop; lia|].
      split; [|split].
      * rewrite <- app_assoc, IH1. apply take_drop.
      * exact IH2.
      * constructor; [|exact IH3]. unfold chunk_ok, len.
        rewrite length_take. rewrite Nat.min_l by lia. lia.
    + apply Z.leb_gt in E. simpl.
      split; [reflexivity | split; [exact E | constructor]].
Qed.

Lemma reframe_spec (buffer : bytes) :
  concat (fst (reframe buffer)) ++ snd (reframe buffer) = buffer /\
  len (snd (reframe buffer)) < 2 /\
  Forall chunk_ok (fst (reframe buffer)).
Proof. apply cut_spec. lia. Qed.

Lemma reframe_exact (b : bytes) :
  2 <= len b <= 2048 -> len b mod 2 = 0 -> reframe b = ([b], []).
Proof.
  intros H Hmod. rewrite reframe_step by lia.
  assert (Hn : cut_size b = length b).
  { unfold cut_size. rewrite Z.min_l by (apply Z.div_le_upper_bound; lia).
    rewrite Z.mul_comm, <- Z_div_exact_2 by lia. unfold len. lia. }
  rewrite Hn, take_ge, drop_ge by lia.
  rewrite reframe_small by (unfold len; simpl; lia). reflexivity.
Qed.

Lemma reframe_big (b : bytes) :
  2048 <= len b ->
  reframe b = (take (Z.to_nat 2048) b :: fst (reframe (drop (Z.to_nat 2048) b)),
               snd (reframe (drop (Z.to_nat 2048) b))).
Proof.
  intros H. rewrite reframe_step by lia.
  assert (Hn : cut_size b = Z.to_nat 2048).
  { unfold cut_size. rewrite Z.min_r by (apply Z.div_le_lower_bound; lia). reflexivity. }
  rewrite Hn. reflexivity.
Qed.

Lemma concat_even (out : list bytes) :
  Forall chunk_ok out -> len (concat out) mod 2 = 0.
Proof.
  induction 1 as [|c out [_ Hc] _ IH]; [reflexivity|].
  simpl. rewrite len_app, Z.add_mod, Hc, IH by lia. reflexivity.
Qed.

Lemma while_buffer_cut (fuel : nat) : forall (buffer : bytes) (self : Kokoro.Handler),
  Kokoro.while_buffer fuel buffer self =
    mkRun (map Emit (map chunk_event (fst (cut fuel buffer)))) self
          (inr (snd (cut fuel buffer))).
Proof.
  induction fuel as [|fuel IH]; intros buffer self; [reflexivity|].
  simpl. destruct (2 <=? len buffer); [|reflexivity].
  unfold bind at 1. cbn [write_event tell]. rewrite IH.
  destruct (cut fuel _) as [out rest]. reflexivity.
Qed.

(** The fuel given by [Kokoro.on_chunk] is enough: the loop ends because
    fewer than two bytes are left, not because the fuel ran out. *)
Lemma while_buffer_rest (fuel : nat) (buffer : bytes) (self : Kokoro.Handler) :
  (length buffer <= fuel)%nat ->
  exists rest,
    outcome (Kokoro.while_buffer fuel buffer self) = inr rest /\ len rest < 2.
Proof.
  intros H. rewrite while_buffer_cut. cbn [outcome].
  exists (snd (cut fuel buffer)). split; [reflexivity|].
  apply cut_spec. exact H.
Qed.

Lemma on_chunk_run (buffer chunk : bytes) (self : Kokoro.Handler) :
  Kokoro.on_chunk buffer chunk self =
    mkRun (map Emit (map chunk_event (fst (reframe (buffer ++ chunk))))) self
          (inr (snd (reframe (buffer ++ chunk)))).
Proof. unfold Kokoro.on_chunk. apply while_buffer_cut. Qed.

Lemma push_reframe (self : Kokoro.Handler) (buffer chunk : bytes) :
  Kokoro.push self buffer chunk = reframe (buffer ++ chunk).
Proof.
  unfold Kokoro.push. rewrite on_chunk_run. simpl.
  rewrite written_map_emit, payloads_chunks.
  destruct (reframe (buffer ++ chunk)); reflexivity.
Qed.

Lemma push_all_cons (self : Kokoro.Handler) (buffer b : bytes) (bs : list bytes) :
  Kokoro.push_all self buffer (b :: bs) =
    (fst (reframe (buffer ++ b)) ++ fst (Kokoro.push_all self (snd (reframe (buffer ++ b))) bs),
     snd (Kokoro.push_all self (snd (reframe (buffer ++ b))) bs)).
Proof.
  cbn [Kokoro.push_all]. rewrite push_reframe.
  destruct (reframe (buffer ++ b)) as [out buffer']. simpl.
  destruct (Kokoro.push_all self buffer' bs). reflexivity.
Qed.

Lemma push_all_spec (self : Kokoro.Handler) (blocks : list bytes) : forall buffer : bytes,
  concat (fst (Kokoro.push_all self buffer blocks)) ++ snd (Kokoro.push_all self buffer blocks)
    = buffer ++ concat blocks /\
  (len buffer < 2 -> len (snd (Kokoro.push_all self buffer blocks)) < 2) /\
  Forall chunk_ok (fst (Kokoro.push_all self buffer blocks)).
Proof.
  induction blocks as [|b bs IH]; intros buffer.
  - simpl. rewrite app_nil_r. split; [reflexivity | split; [tauto | constructor]].
  - rewrite push_all_cons.
    destruct (reframe_spec (buffer ++ b)) as (R1 & R2 & R3).
    destruct (reframe (buffer ++ b)) as [out buffer'] eqn:E. simpl in *.
    specialize (IH buffer').
    destruct (Kokoro.push_all self buffer' bs) as [out' rest] eqn:E'. simpl in *.
    destruct IH as (I1 & I2 & I3).
    split; [|split].
    + rewrite concat_app, <- app_assoc, I1, app_assoc, R1, <- app_assoc. reflexivity.
    + intros _. apply I2. exact R2.
    + apply Forall_app. split; assumption.
Qed.

Lemma push_all_rest_small (self : Kokoro.Handler) (blocks : list bytes) :
  len (snd (Kokoro.push_all self [] blocks)) < 2.
Proof. apply push_all_spec. unfold len. simpl. lia. Qed.

Lemma aiter_bytes_run (self : Kokoro.Handler) (err : option exn) (its : list bytes) :
  forall buffer : bytes,
  Kokoro.aiter_bytes its err buffer self =
    mkRun (map Emit (map chunk_event (fst (Kokoro.push_all self buffer its)))) self
          (match err with
           | Some e => inl e
           | None => inr (snd (Kokoro.push_all self buffer its))
           end).
Proof.
  induction its as [|c its IH]; intros buffer.
  - simpl. destruct err; reflexivity.
  - rewrite push_all_cons. cbn [Kokoro.aiter_bytes].
    unfold bind at 1. rewrite on_chunk_run.
    rewrite IH. cbn [fst snd].
    rewrite !map_app. destruct err; reflexivity.
Qed.

Lemma send_remaining_small (buffer : bytes) (self : Kokoro.Handler) :
  len buffer < 2 -> Kokoro.send_remaining buffer self = mkRun [] self (inr tt).
Proof.
  intros H. unfold Kokoro.send_remaining.
  destruct (2 <=? len buffer) eqn:E; [apply Z.leb_le in E; lia | reflexivity].
Qed.

Lemma flush_small (self : Kokoro.Handler) (buffer : bytes) :
  len buffer < 2 -> Kokoro.flush self buffer = [].
Proof.
  intros H. unfold Kokoro.flush. rewrite send_remaining_small by exact H. reflexivity.
Qed.

(** ** Kokoro: the handler *)

Lemma synthesize_run post (self : Kokoro.Handler) text voice speed r :
  post (Kokoro.endpoint_of self) (Kokoro.payload_of self text) = inr r ->
  Kokoro.status_ok r = true ->
  Kokoro.handle_event post (Synthesize text voice speed) self =
    mkRun ([Emit start_event;
            HttpPost (Kokoro.endpoint_of self) (Kokoro.payload_of self text)]
           ++ map Emit (map chunk_event (fst (Kokoro.push_all self [] (Kokoro.items r))))
           ++ match Kokoro.stream_error r with
              | Some _ => [Emit start_event; Emit AudioStop]
              | None => [Emit AudioStop]
              end)
          self (inr true).
Proof.
  intros Hpost Hok.
  unfold Kokoro.handle_event, Kokoro.synthesize_body, catch, bind, get, write_event, tell.
  rewrite Hpost. cbn [lift ret]. rewrite Hok. cbn [ret].
  rewrite aiter_bytes_run.
  destruct (Kokoro.stream_error r) as [e|].
  - destruct e; cbn; rewrite ?app_nil_r; reflexivity.
  - rewrite send_remaining_small by apply push_all_rest_small.
    cbn. rewrite ?app_nil_r. reflexivity.
Qed.


(** ** numpy *)

Lemma np_frombuffer_run {S} (buffer : bytes) (s : S) :
  Np.frombuffer buffer s =
    mkRun [] s (if len buffer mod 2 =? 0 then inr (Np.int16_items buffer)
                else inl ValueError).
Proof. unfold Np.frombuffer. destruct (len buffer mod 2 =? 0); reflexivity. Qed.

Lemma np_reshape_mean_run {S} (c : Z) (a : list f32) (s : S) :
  Np.reshape_mean c a s =
    mkRun [] s (if len a mod c =? 0
                then inr (map Np.mean (Np.rows (length a) (Z.to_nat c) a))
                else inl ValueError).
Proof.
  unfold Np.reshape_mean, Np.reshape, bind.
  destruct (len a mod c =? 0); reflexivity.
Qed.

Lemma np_len_to_float (a : list Z) : len (Np.to_float a) = len a.
Proof. unfold len, Np.to_float. now rewrite length_map. Qed.

Lemma int16_items_length (n : nat) : forall buffer : bytes,
  (length buffer <= n)%nat ->
  len (Np.int16_items buffer) = len buffer / 2.
Proof.
  induction n as [|n IH]; intros buffer H.
  - destruct buffer; [reflexivity | simpl in H; lia].
  - destruct buffer as [|lo [|hi rest]]; [reflexivity | reflexivity |].
    cbn [Np.int16_items]. unfold len in *. cbn [length].
    assert (Hr : (length rest <= n)%nat) by (simpl in H; lia).
    specialize (IH rest Hr).
    rewrite !Nat2Z.inj_succ, IH.
    replace (Z.succ (Z.succ (Z.of_nat (length rest))))
      with (Z.of_nat (length rest) + 1 * 2) by lia.
    rewrite Z.div_add by lia. lia.
Qed.

Lemma int16_items_zero (n : nat) : forall buffer : bytes,
  (length buffer <= n)%nat ->
  Forall (fun b => b = x00) buffer ->
  Forall (fun x => x = f32_zero) (Np.to_float (Np.int16_items buffer)).
Proof.
  induction n as [|n IH]; intros buffer H Hz.
  - destruct buffer; [constructor | simpl in H; lia].
  - destruct buffer as [|lo [|hi rest]]; [constructor | constructor |].
    inversion Hz as [|? ? Hlo Hz']; subst. inversion Hz' as [|? ? Hhi Hz'']; subst.
    cbn [Np.int16_items Np.to_float map]. constructor; [reflexivity|].
    apply IH; [simpl in H; lia | assumption].
Qed.



(** ** Moonshine *)

Module MoonshineFacts.
Import Moonshine MoonshineSteps.

Lemma moonshine_get_model_run ctor (name : string) (s : State) :
  get_model ctor name s =
    match _model_cache s !! name with
    | Some m => mkRun [] s (inr m)
    | None =>
        match ctor name (attempts s) with
        | inl e => mkRun [Construct name false] (tick s) (inl e)
        | inr m => mkRun [Construct name true] (store name m (tick s)) (inr m)
        end
    end.
Proof.
  unfold get_model, bind, catch, get, put, tell.
  destruct (_model_cache s !! name) as [m|] eqn:Hc.
  - cbn. rewrite Hc. reflexivity.
  - destruct (ctor name (attempts s)) as [e|m] eqn:Hm; cbn.
    + reflexivity.
    + rewrite lookup_insert_eq. reflexivity.
Qed.

Lemma moonshine_transcribe_sync_run ctor (audio : list f32) (s : State) :
  _transcribe_sync ctor audio s =
    match get_model ctor (model_name (self s)) s with
    | mkRun t s' (inl _) => mkRun t s' (inr "")
    | mkRun t s' (inr model) =>
        match generate model audio with
        | inl _ => mkRun (t ++ [Generate audio false]) s' (inr "")
        | inr text => mkRun (t ++ [Generate audio true]) s' (inr text)
        end
    end.
Proof.
  unfold _transcribe_sync, catch, bind at 1. cbn [get].
  unfold bind at 1.
  destruct (get_model ctor (model_name (self s)) s) as [t s' [e|model]].
  - cbn. rewrite app_nil_r. reflexivity.
  - unfold bind, tell. destruct (generate model audio) as [e|text]; cbn;
      rewrite ?app_nil_r; reflexivity.
Qed.

Lemma moonshine_transcribe_sync_total ctor (audio : list f32) (s : State) :
  exists t s' text,
    _transcribe_sync ctor audio s = mkRun t s' (inr text)
    /\ self s' = self s
    /\ written t = []
    /\ resampled t = []
    /\ (backend_raised t = true -> text = "")
    /\ (generated t = [] \/ generated t = [audio]).
Proof.
  rewrite moonshine_transcribe_sync_run, moonshine_get_model_run.
  destruct (_model_cache s !! model_name (self s)) as [m|].
  - destruct (generate m audio) as [e|text]; do 3 eexists;
      (split; [reflexivity|]); cbn; repeat split; auto; discriminate.
  - destruct (ctor (model_name (self s)) (attempts s)) as [e|m].
    + do 3 eexists. split; [reflexivity|]. cbn. repeat split; auto.
    + destruct (generate m audio) as [e|text]; do 3 eexists;
        (split; [reflexivity|]); cbn; repeat split; auto; discriminate.
Qed.

Lemma moonshine_audio_stop_body_split ctor librosa (s : State) :
  audio_stop_body ctor librosa s =
    bind (prepare librosa)
      (fun audio => bind (_transcribe_sync ctor audio)
                      (fun text => write_event (Transcript text))) s.
Proof.
  unfold audio_stop_body, prepare. symmetry.
  rewrite bind_assoc. apply bind_ext. intros s0 s1.
  rewrite bind_assoc. apply bind_ext. intros audio_data s2.
  rewrite bind_assoc. reflexivity.
Qed.

Lemma moonshine_downmix_run (c : Z) (a : list f32) (s : State) :
  exists o, downmix c a s = mkRun [] s o.
Proof.
  unfold downmix. destruct (c >? 1); [|eexists; reflexivity].
  rewrite np_reshape_mean_run. eexists; reflexivity.
Qed.

Lemma moonshine_resample_run librosa (rate : Z) (a : list f32) (s : State) :
  exists t o,
    resample librosa rate a s = mkRun t s o
    /\ written t = [] /\ backend_raised t = false /\ generated t = []
    /\ resampled t =
         (if negb (rate =? 16000) then
            match librosa with Some _ => [a] | None => [] end
          else []).
Proof.
  unfold resample. destruct (negb (rate =? 16000)).
  - unfold catch, bind, tell. destruct librosa as [f|].
    + destruct (f a rate 16000) as [e|a'].
      * destruct e; do 2 eexists; (split; [reflexivity|]); cbn; auto.
      * do 2 eexists. split; [reflexivity|]. cbn. auto.
    + do 2 eexists. split; [reflexivity|]. cbn. auto.
  - do 2 eexists. split; [reflexivity|]. cbn. auto.
Qed.

Lemma moonshine_prepare_run librosa (s : State) :
  exists t o,
    prepare librosa s = mkRun t s o
    /\ written t = [] /\ backend_raised t = false /\ generated t = [].
Proof.
  unfold prepare, bind at 1. cbn [get].
  unfold bind at 1. rewrite np_frombuffer_run.
  destruct (len (audio_buffer (self s)) mod 2 =? 0);
    [|do 2 eexists; split; [reflexivity | cbn; auto]].
  unfold bind.
  destruct (moonshine_downmix_run (audio_channels (self s))
              (Np.to_float (Np.int16_items (audio_buffer (self s)))) s) as [o Ho].
  rewrite Ho. destruct o as [e|a]; [do 2 eexists; split; [reflexivity | cbn; auto]|].
  destruct (moonshine_resample_run librosa (sample_rate (self s)) a s) as (t & o & Hr & H1 & H2 & H3 & _).
  rewrite Hr. do 2 eexists. split; [reflexivity|]. cbn. auto.
Qed.

Lemma moonshine_handle_audio_stop_run ctor librosa (s : State) :
  handle_event ctor librosa AudioStop s =
    match audio_stop_body ctor librosa s with
    | mkRun t s' (inl _) => mkRun (t ++ [Emit (Transcript "")]) s' (inr true)
    | mkRun t s' (inr _) => mkRun t s' (inr true)
    end.
Proof.
  unfold handle_event, bind, catch.
  destruct (audio_stop_body ctor librosa s) as [t s' [e|[]]]; cbn;
    rewrite ?app_nil_r; reflexivity.
Qed.

Lemma moonshine_audio_stop_body_run ctor librosa (s : State) :
  audio_stop_body ctor librosa s =
    match prepare librosa s with
    | mkRun t s' (inl e) => mkRun t s' (inl e)
    | mkRun t s' (inr audio) =>
        match _transcribe_sync ctor audio s' with
        | mkRun t' s'' (inl e) => mkRun (t ++ t') s'' (inl e)
        | mkRun t' s'' (inr text) =>
            mkRun (t ++ t' ++ [Emit (Transcript text)]) s'' (inr tt)
        end
    end.
Proof.
  rewrite moonshine_audio_stop_body_split. unfold bind.
  destruct (prepare librosa s) as [t s' [e|audio]]; [reflexivity|].
  destruct (_transcribe_sync ctor audio s') as [t' s'' [e|text]]; reflexivity.
Qed.

Theorem moonshine_audio_stop_total ctor librosa (s : State) :
  let r := handle_event ctor librosa AudioStop s in
  outcome r = inr true
  /\ self (final r) = self s
  /\ exists text,
       written (trace r) = [Transcript text]
       /\ (backend_raised (trace r) = true -> text = "").
Proof.
  cbv zeta. rewrite moonshine_handle_audio_stop_run, moonshine_audio_stop_body_run.
  destruct (moonshine_prepare_run librosa s) as (t & o & Hp & Hw & Hb & _). rewrite Hp.
  destruct o as [e|audio].
  - cbn [trace final outcome]. rewrite written_app, Hw.
    repeat split. exists "". split; [reflexivity | auto].
  - destruct (moonshine_transcribe_sync_total ctor audio s)
      as (t' & s' & text & Ht & Hs & Hw' & _ & Hb' & _).
    rewrite Ht. cbn [trace final outcome]. rewrite !written_app, Hw, Hw'.
    repeat split; [exact Hs|]. exists text. split; [reflexivity|].
    rewrite !backend_raised_app, Hb. cbn. rewrite orb_false_r. exact Hb'.
Qed.

Lemma moonshine_prepare_convertible librosa (s : State) :
  convertible (self s) = true ->
  prepare librosa s = resample librosa (sample_rate (self s)) (mono_audio (self s)) s.
Proof.
  unfold convertible, mono_audio. intros H. apply andb_prop in H as [H1 H2].
  unfold prepare, bind at 1. cbn [get].
  unfold bind at 1. rewrite np_frombuffer_run, H1.
  unfold bind, downmix.
  destruct (audio_channels (self s) >? 1).
  - rewrite np_reshape_mean_run, np_len_to_float, H2.
    destruct (resample librosa _ _ s) as [t s' o]. reflexivity.
  - cbn [ret]. destruct (resample librosa _ _ s) as [t s' o]. reflexivity.
Qed.

Lemma moonshine_prepare_not_convertible librosa (s : State) :
  convertible (self s) = false ->
  prepare librosa s = mkRun [] s (inl ValueError).
Proof.
  unfold convertible. intros H.
  unfold prepare, bind at 1. cbn [get].
  unfold bind at 1. rewrite np_frombuffer_run.
  destruct (len (audio_buffer (self s)) mod 2 =? 0); [|reflexivity].
  cbn [andb] in H. unfold bind, downmix.
  destruct (audio_channels (self s) >? 1); [|discriminate].
  rewrite np_reshape_mean_run, np_len_to_float, H. reflexivity.
Qed.


Section Env.
Variable ctor : string -> nat -> exn + Model.
Variable librosa : option Resampler.

Lemma moonshine_transcribe_run (language : option string) (s : State) :
  handle_event ctor librosa (Transcribe language) s =
    mkRun [] (set_self (set_format 16000 (audio_width (self s)) (audio_channels (self s))
                          (set_audio_buffer [] (self s))) s) (inr true).
Proof. reflexivity. Qed.

Lemma moonshine_chunk_run (a : bytes) (r w c : Z) (s : State) :
  handle_event ctor librosa (AudioChunk a r w c) s =
    mkRun []
      (set_self
         (set_audio_buffer (audio_buffer (self s) ++ a)
            (match audio_buffer (self s) with
             | [] => set_format r w c (self s)
             | _ => self s
             end)) s)
      (inr true).
Proof.
  unfold handle_event, bind, get, put. destruct (audio_buffer (self s)) eqn:E; cbn;
    rewrite ?E; reflexivity.
Qed.

Lemma moonshine_events_cons (e : Event) (es : list Event) (s s' : State) :
  handle_event ctor librosa e s = mkRun [] s' (inr true) ->
  handle_events ctor librosa (e :: es) s = handle_events ctor librosa es s'.
Proof.
  intros H. cbn [handle_events]. unfold bind. rewrite H.
  destruct (handle_events ctor librosa es s') as [t s'' o]. reflexivity.
Qed.

Lemma moonshine_chunk_keeps_format (a : bytes) (r w c : Z) (s : State) :
  audio_buffer (self s) <> [] ->
  let s' := final (handle_event ctor librosa (AudioChunk a r w c) s) in
  format (self s') = format (self s) /\ audio_buffer (self s') <> [].
Proof.
  intros H. rewrite moonshine_chunk_run. cbn [final].
  destruct (audio_buffer (self s)) as [|b rest] eqn:E; [contradiction|].
  split; [reflexivity | discriminate].
Qed.

Lemma moonshine_chunks_keep_format (later : list Event) : forall s : State,
  all_chunks later ->
  audio_buffer (self s) <> [] ->
  format (self (final (handle_events ctor librosa later s))) = format (self s).
Proof.
  induction later as [|e later IH]; intros s Hall Hne; [reflexivity|].
  inversion Hall as [|? ? He Hall']; subst.
  destruct e; try discriminate.
  rewrite (moonshine_events_cons _ _ _ _ (moonshine_chunk_run audio rate width channels s)).
  destruct (moonshine_chunk_keeps_format audio rate width channels s Hne) as [Hf Hb].
  rewrite moonshine_chunk_run in Hf, Hb. cbn [final] in Hf, Hb.
  rewrite IH by assumption. exact Hf.
Qed.

Lemma moonshine_chunks_16k_buffer (payloads : list bytes) : forall s : State,
  exists s',
    handle_events ctor librosa (chunks_16k payloads) s = mkRun [] s' (inr true)
    /\ audio_buffer (self s') = audio_buffer (self s) ++ concat payloads.
Proof.
  induction payloads as [|a payloads IH]; intros s.
  - exists s. split; [reflexivity | now rewrite app_nil_r].
  - cbn [chunks_16k map].
    rewrite (moonshine_events_cons _ _ _ _ (moonshine_chunk_run a 16000 2 1 s)).
    destruct (IH (set_self
                    (set_audio_buffer (audio_buffer (self s) ++ a)
                       (match audio_buffer (self s) with
                        | [] => set_format 16000 2 1 (self s)
                        | _ => self s
                        end)) s)) as (s' & Hrun & Hbuf).
    exists s'. split; [exact Hrun|].
    rewrite Hbuf. cbn. now rewrite <- app_assoc.
Qed.

Lemma moonshine_session_buffer (payloads : list bytes) (s : State) :
  audio_buffer (self (final (handle_events ctor librosa
                               (Transcribe None :: chunks_16k payloads) s)))
  = concat payloads.
Proof.
  rewrite (moonshine_events_cons _ _ _ _ (moonshine_transcribe_run None s)).
  destruct (moonshine_chunks_16k_buffer payloads
              (set_self (set_format 16000 (audio_width (self s)) (audio_channels (self s))
                           (set_audio_buffer [] (self s))) s)) as (s' & Hrun & Hbuf).
  rewrite Hrun. cbn [final]. rewrite Hbuf. reflexivity.
Qed.

Lemma moonshine_audio_stop_not_convertible (s : State) :
  convertible (self s) = false ->
  handle_event ctor librosa AudioStop s =
    mkRun [Emit (Transcript "")] s (inr true).
Proof.
  intros H. rewrite moonshine_handle_audio_stop_run, moonshine_audio_stop_body_run.
  rewrite (moonshine_prepare_not_convertible librosa s H). reflexivity.
Qed.

Lemma moonshine_audio_stop_odd (s : State) :
  len (audio_buffer (self s)) mod 2 <> 0 ->
  handle_event ctor librosa AudioStop s =
    mkRun [Emit (Transcript "")] s (inr true).
Proof.
  intros H. apply moonshine_audio_stop_not_convertible. unfold convertible.
  apply Z.eqb_neq in H. rewrite H. reflexivity.
Qed.



End Env.
End MoonshineFacts.

(** ** Voxtral *)

Module VoxtralFacts.
Import Voxtral VoxtralSteps.

Lemma voxtral_get_vllm_model_run ctor (name : string) (gpu : f32) (s : State) :
  get_vllm_model ctor name gpu s =
    match _llm_cache s with
    | Some l => mkRun [] (locked s) (inr (Some l))
    | None =>
        match ctor name gpu (attempts s) with
        | inl e => mkRun [Construct name false] (tick (locked s)) (inl e)
        | inr l => mkRun [Construct name true] (store l (tick (locked s))) (inr (Some l))
        end
    end.
Proof.
  unfold get_vllm_model, locked, tick, store, lock, bind, catch, get, put, tell.
  destruct (_model_lock s) eqn:Hl; cbn;
    (destruct (_llm_cache s) as [l|] eqn:Hc; cbn;
     [rewrite ?Hc, ?Hl; reflexivity
     | destruct (ctor name gpu (attempts s)) as [e|l]; cbn; rewrite ?Hc, ?Hl; reflexivity]).
Qed.

Lemma voxtral_audio_stop_body_split ctor librosa (s : State) :
  audio_stop_body ctor librosa s =
    bind (load_llm ctor) (fun _ => transcribe_buffer librosa) s.
Proof.
  unfold audio_stop_body, load_llm, transcribe_buffer. symmetry.
  rewrite bind_assoc. reflexivity.
Qed.

Lemma voxtral_load_llm_run ctor (s : State) :
  exists t s' o,
    load_llm ctor s = mkRun t s' o
    /\ audio_fields (self s') = audio_fields (self s)
    /\ written t = [] /\ generated t = [] /\ resampled t = []
    /\ (o = inr tt -> backend_raised t = false).
Proof.
  unfold load_llm, bind at 1. cbn [get].
  destruct (llm (self s)) as [l|].
  - do 3 eexists. split; [reflexivity|]. cbn. auto.
  - unfold bind. rewrite voxtral_get_vllm_model_run.
    destruct (_llm_cache s) as [l|].
    + do 3 eexists. split; [reflexivity|]. cbn.
      unfold locked. destruct (_model_lock s); cbn; auto.
    + destruct (ctor _ _ _) as [e|l]; do 3 eexists; (split; [reflexivity|]); cbn;
        unfold locked; destruct (_model_lock s); cbn; repeat split; auto; discriminate.
Qed.

Lemma voxtral_transcribe_sync_run librosa (audio : list f32) (rate : Z) (s : State) :
  _transcribe_sync librosa audio rate s =
    match librosa with
    | None => mkRun [] s (inr "")
    | Some f =>
        if negb (rate =? 16000) then
          match f audio rate 16000 with
          | inl _ => mkRun [Resample audio rate 16000] s (inr "")
          | inr a => ask s [Resample audio rate 16000] a
          end
        else ask s [] audio
    end.
Proof.
  unfold _transcribe_sync, ask, catch, bind, tell, get.
  destruct librosa as [f|]; [|reflexivity]. cbn [ret].
  destruct (negb (rate =? 16000)).
  - destruct (f audio rate 16000) as [e|a]; cbn; [reflexivity|].
    destruct (llm (self s)) as [engine|]; cbn; [|reflexivity].
    destruct (generate engine a) as [e|[text|]]; cbn; reflexivity.
  - cbn. destruct (llm (self s)) as [engine|]; cbn; [|reflexivity].
    destruct (generate engine audio) as [e|[text|]]; cbn; reflexivity.
Qed.

Lemma voxtral_ask_total (s : State) (pre : list Effect) (a : list f32) :
  written pre = [] -> backend_raised pre = false ->
  exists t text,
    ask s pre a = mkRun t s (inr text)
    /\ written t = []
    /\ (backend_raised t = true -> text = "").
Proof.
  intros Hw Hb. unfold ask. destruct (llm (self s)) as [engine|].
  - destruct (generate engine a) as [e|[text|]]; do 2 eexists;
      (split; [reflexivity|]); rewrite written_app, backend_raised_app, Hw, Hb;
      cbn; split; auto; discriminate.
  - do 2 eexists. split; [reflexivity|]. rewrite Hw, Hb. split; auto; discriminate.
Qed.

Lemma voxtral_transcribe_sync_total librosa (audio : list f32) (rate : Z) (s : State) :
  exists t text,
    _transcribe_sync librosa audio rate s = mkRun t s (inr text)
    /\ written t = []
    /\ (backend_raised t = true -> text = "")
    /\ (librosa = None -> t = [] /\ text = "").
Proof.
  rewrite voxtral_transcribe_sync_run. destruct librosa as [f|].
  - destruct (negb (rate =? 16000)).
    + destruct (f audio rate 16000) as [e|a].
      * do 2 eexists. split; [reflexivity|]. cbn. repeat split; auto; discriminate.
      * destruct (voxtral_ask_total s [Resample audio rate 16000] a eq_refl eq_refl)
          as (t & text & Ha & Hw & Hb).
        exists t, text. repeat split; auto; discriminate.
    + destruct (voxtral_ask_total s [] audio eq_refl eq_refl) as (t & text & Ha & Hw & Hb).
      exists t, text. repeat split; auto; discriminate.
  - do 2 eexists. split; [reflexivity|]. cbn. repeat split; auto.
Qed.

Lemma voxtral_transcribe_buffer_run librosa (s : State) :
  transcribe_buffer librosa s =
    if len (audio_buffer (self s)) mod 2 =? 0 then
      match _transcribe_sync librosa (Np.to_float (Np.int16_items (audio_buffer (self s))))
              (sample_rate (self s)) s with
      | mkRun t s' (inl e) => mkRun t s' (inl e)
      | mkRun t s' (inr text) => mkRun (t ++ [Emit (Transcript text)]) s' (inr tt)
      end
    else mkRun [] s (inl ValueError).
Proof.
  unfold transcribe_buffer, bind at 1. cbn [get].
  unfold bind at 1. rewrite np_frombuffer_run.
  destruct (len (audio_buffer (self s)) mod 2 =? 0); [|reflexivity].
  unfold bind.
  destruct (_transcribe_sync _ _ _ _) as [t s' [e|text]]; reflexivity.
Qed.

Lemma voxtral_handle_audio_stop_run ctor librosa (s : State) :
  handle_event ctor librosa AudioStop s =
    match audio_stop_body ctor librosa s with
    | mkRun t s' (inl _) => mkRun (t ++ [Emit (Transcript "")]) s' (inr true)
    | mkRun t s' (inr _) => mkRun t s' (inr true)
    end.
Proof.
  unfold handle_event, bind, catch.
  destruct (audio_stop_body ctor librosa s) as [t s' [e|[]]]; cbn;
    rewrite ?app_nil_r; reflexivity.
Qed.

Theorem voxtral_audio_stop_total ctor librosa (s : State) :
  let r := handle_event ctor librosa AudioStop s in
  outcome r = inr true
  /\ audio_fields (self (final r)) = audio_fields (self s)
  /\ exists text,
       written (trace r) = [Transcript text]
       /\ (backend_raised (trace r) = true -> text = "")
       /\ (len (audio_buffer (self s)) mod 2 <> 0 -> text = "").
Proof.
  cbv zeta. rewrite voxtral_handle_audio_stop_run, voxtral_audio_stop_body_split. unfold bind.
  destruct (voxtral_load_llm_run ctor s) as (t & s' & o & Hl & Hf & Hw & _ & _ & Hb).
  rewrite Hl. destruct o as [e|[]].
  - cbn [trace final outcome]. rewrite written_app, Hw.
    repeat split; [exact Hf|]. exists "". repeat split; auto.
  - rewrite voxtral_transcribe_buffer_run.
    assert (Hbuf : audio_buffer (self s') = audio_buffer (self s))
      by (unfold audio_fields in Hf; congruence).
    rewrite Hbuf.
    destruct (len (audio_buffer (self s)) mod 2 =? 0) eqn:Hev.
    + destruct (voxtral_transcribe_sync_total librosa
                  (Np.to_float (Np.int16_items (audio_buffer (self s))))
                  (sample_rate (self s')) s') as (t' & text & Ht & Hw' & Hb' & _).
      rewrite Ht. cbn [trace final outcome].
      rewrite !written_app, Hw, Hw'.
      repeat split; [exact Hf|]. exists text. split; [reflexivity|]. split.
      * rewrite !backend_raised_app, (Hb eq_refl). cbn. rewrite orb_false_r. exact Hb'.
      * apply Z.eqb_eq in Hev. intros Hodd. contradiction.
    + cbn [trace final outcome]. rewrite !written_app, Hw.
      repeat split; [exact Hf|]. exists "". repeat split; auto.
Qed.

Lemma voxtral_model_lock_locked (s : State) :
  _model_lock (locked s) = true.
Proof.
  unfold locked. destruct (_model_lock s) eqn:E; [exact E | reflexivity].
Qed.

Lemma voxtral_locked_id (s : State) :
  _model_lock s = true -> locked s = s.
Proof. unfold locked. now intros ->. Qed.

Section Env.
Variable ctor : string -> f32 -> nat -> exn + LLM.
Variable librosa : option Resampler.

Lemma voxtral_transcribe_run (language : option string) (s : State) :
  handle_event ctor librosa (Transcribe language) s =
    mkRun [] (set_self (set_format 16000 (audio_width (self s)) (audio_channels (self s))
                          (set_audio_buffer [] (self s))) s) (inr true).
Proof. reflexivity. Qed.

Lemma voxtral_chunk_run (a : bytes) (r w c : Z) (s : State) :
  handle_event ctor librosa (AudioChunk a r w c) s =
    mkRun []
      (set_self
         (set_audio_buffer (audio_buffer (self s) ++ a)
            (match audio_buffer (self s) with
             | [] => set_format r w c (self s)
             | _ => self s
             end)) s)
      (inr true).
Proof.
  unfold handle_event, bind, get, put. destruct (audio_buffer (self s)) eqn:E; cbn;
    rewrite ?E; reflexivity.
Qed.

Lemma voxtral_events_cons (e : Event) (es : list Event) (s s' : State) :
  handle_event ctor librosa e s = mkRun [] s' (inr true) ->
  handle_events ctor librosa (e :: es) s = handle_events ctor librosa es s'.
Proof.
  intros H. cbn [handle_events]. unfold bind. rewrite H.
  destruct (handle_events ctor librosa es s') as [t s'' o]. reflexivity.
Qed.

Lemma voxtral_chunk_keeps_format (a : bytes) (r w c : Z) (s : State) :
  audio_buffer (self s) <> [] ->
  let s' := final (handle_event ctor librosa (AudioChunk a r w c) s) in
  format (self s') = format (self s) /\ audio_buffer (self s') <> [].
Proof.
  intros H. rewrite voxtral_chunk_run. cbn [final].
  destruct (audio_buffer (self s)) as [|b rest] eqn:E; [contradiction|].
  split; [reflexivity | discriminate].
Qed.

Lemma voxtral_chunks_keep_format (later : list Event) : forall s : State,
  all_chunks later ->
  audio_buffer (self s) <> [] ->
  format (self (final (handle_events ctor librosa later s))) = format (self s).
Proof.
  induction later as [|e later IH]; intros s Hall Hne; [reflexivity|].
  inversion Hall as [|? ? He Hall']; subst.
  destruct e; try discriminate.
  rewrite (voxtral_events_cons _ _ _ _ (voxtral_chunk_run audio rate width channels s)).
  destruct (voxtral_chunk_keeps_format audio rate width channels s Hne) as [Hf Hb].
  rewrite voxtral_chunk_run in Hf, Hb. cbn [final] in Hf, Hb.
  rewrite IH by assumption. exact Hf.
Qed.

Lemma voxtral_chunks_16k_buffer (payloads : list bytes) : forall s : State,
  exists s',
    handle_events ctor librosa (chunks_16k payloads) s = mkRun [] s' (inr true)
    /\ audio_buffer (self s') = audio_buffer (self s) ++ concat payloads.
Proof.
  induction payloads as [|a payloads IH]; intros s.
  - exists s. split; [reflexivity | now rewrite app_nil_r].
  - cbn [chunks_16k map].
    rewrite (voxtral_events_cons _ _ _ _ (voxtral_chunk_run a 16000 2 1 s)).
    destruct (IH (set_self
                    (set_audio_buffer (audio_buffer (self s) ++ a)
                       (match audio_buffer (self s) with
                        | [] => set_format 16000 2 1 (self s)
                        | _ => self s
                        end)) s)) as (s' & Hrun & Hbuf).
    exists s'. split; [exact Hrun|].
    rewrite Hbuf. cbn. now rewrite <- app_assoc.
Qed.

Lemma voxtral_session_buffer (payloads : list bytes) (s : State) :
  audio_buffer (self (final (handle_events ctor librosa
                               (Transcribe None :: chunks_16k payloads) s)))
  = concat payloads.
Proof.
  rewrite (voxtral_events_cons _ _ _ _ (voxtral_transcribe_run None s)).
  destruct (voxtral_chunks_16k_buffer payloads
              (set_self (set_format 16000 (audio_width (self s)) (audio_channels (self s))
                           (set_audio_buffer [] (self s))) s)) as (s' & Hrun & Hbuf).
  rewrite Hrun. cbn [final]. rewrite Hbuf. reflexivity.
Qed.

Lemma voxtral_audio_stop_odd (s : State) :
  len (audio_buffer (self s)) mod 2 <> 0 ->
  written (trace (handle_event ctor librosa AudioStop s)) = [Transcript ""].
Proof.
  intros H.
  destruct (voxtral_audio_stop_total ctor librosa s) as (_ & _ & text & Hw & _ & Hodd).
  rewrite Hw, (Hodd H). reflexivity.
Qed.

Lemma voxtral_load_llm_loaded (engine : LLM) (s : State) :
  llm (self s) = Some engine -> load_llm ctor s = mkRun [] s (inr tt).
Proof. intros H. unfold load_llm, bind. cbn [get]. rewrite H. reflexivity. Qed.

Lemma voxtral_ask_resampled (s : State) (pre : list Effect) (a : list f32) :
  resampled (trace (ask s pre a)) = resampled pre.
Proof.
  unfold ask. destruct (llm (self s)) as [engine|]; [|reflexivity].
  destruct (generate engine a) as [e|[text|]]; cbn [trace];
    rewrite resampled_app; cbn; apply app_nil_r.
Qed.

Lemma voxtral_audio_stop_resampled (engine : LLM) (f : Resampler) (s : State) :
  librosa = Some f ->
  llm (self s) = Some engine ->
  len (audio_buffer (self s)) mod 2 = 0 ->
  resampled (trace (handle_event ctor librosa AudioStop s)) =
    if negb (sample_rate (self s) =? 16000)
    then [Np.to_float (Np.int16_items (audio_buffer (self s)))]
    else [].
Proof.
  intros Hl He Hev. subst librosa.
  rewrite voxtral_handle_audio_stop_run, voxtral_audio_stop_body_split. unfold bind.
  rewrite (voxtral_load_llm_loaded engine s He), voxtral_transcribe_buffer_run.
  apply Z.eqb_eq in Hev. rewrite Hev, voxtral_transcribe_sync_run.
  set (audio := Np.to_float (Np.int16_items (audio_buffer (self s)))).
  destruct (negb (sample_rate (self s) =? 16000)).
  - destruct (f audio (sample_rate (self s)) 16000) as [e|a]; [reflexivity|].
    pose proof (voxtral_ask_resampled s [Resample audio (sample_rate (self s)) 16000] a) as Ha.
    destruct (ask s _ a) as [t s' [e|text]]; cbn [trace] in *;
      rewrite ?app_nil_l, ?resampled_app, Ha; reflexivity.
  - pose proof (voxtral_ask_resampled s [] audio) as Ha.
    destruct (ask s [] audio) as [t s' [e|text]]; cbn [trace] in *;
      rewrite ?app_nil_l, ?resampled_app, Ha; reflexivity.
Qed.


End Env.
End VoxtralFacts.

(** ** The HTTP client *)

Module HttpxFacts.
Import Httpx.

Lemma slices_fuel (size : nat) (f1 : nat) : forall (f2 : nat) (value : bytes),
  (0 < size)%nat -> (length value <= f1)%nat -> (length value <= f2)%nat ->
  slices f1 size value = slices f2 size value.
Proof.
  induction f1 as [|f1 IH]; intros f2 value Hs H1 H2.
  - destruct value; [|cbn in H1; lia]. destruct f2; reflexivity.
  - destruct f2 as [|f2]; [destruct value; [reflexivity | cbn in H2; lia]|].
    cbn [slices]. destruct value as [|b value]; [reflexivity|].
    f_equal. apply IH; [exact Hs | |]; rewrite length_drop; cbn [length] in *; lia.
Qed.

Lemma slices_concat (size : nat) (fuel : nat) : forall value : bytes,
  (0 < size)%nat -> (length value <= fuel)%nat ->
  concat (slices fuel size value) = value.
Proof.
  induction fuel as [|fuel IH]; intros value Hs Hf.
  - destruct value; [reflexivity | cbn in Hf; lia].
  - cbn [slices]. destruct value as [|b value]; [reflexivity|].
    cbn [concat]. rewrite IH; [apply take_drop | exact Hs |].
    rewrite length_drop. cbn [length] in *. lia.
Qed.

(** A whole slice in front. *)
Lemma slices_app (size : nat) (a b : bytes) (fuel : nat) :
  (0 < size)%nat -> length a = size -> (length (a ++ b) <= fuel)%nat ->
  slices fuel size (a ++ b) = a :: slices (length b) size b.
Proof.
  intros Hs Ha Hf. rewrite length_app in Hf.
  destruct fuel as [|fuel]; [lia|].
  cbn [slices]. destruct a as [|x a]; [cbn in Ha; lia|].
  change ((x :: a) ++ b) with (x :: (a ++ b)) at 1.
  cbv iota. change (x :: (a ++ b)) with ((x :: a) ++ b).
  rewrite take_app_length' by (symmetry; exact Ha).
  rewrite drop_app_length' by (symmetry; exact Ha). f_equal.
  apply slices_fuel; [exact Hs | | lia]. lia.
Qed.

(** The slices of a value shorter than the size, and not empty. *)
Lemma slices_short (size : nat) (value : bytes) (fuel : nat) :
  value <> [] -> (length value <= size)%nat -> (length value <= fuel)%nat ->
  slices fuel size value = [value].
Proof.
  intros Hv Hs Hf. destruct fuel as [|fuel]; [destruct value; [contradiction | cbn in Hf; lia]|].
  cbn [slices]. destruct value as [|b value]; [contradiction|].
  rewrite take_ge by exact Hs. rewrite drop_ge by exact Hs.
  destruct fuel; reflexivity.
Qed.

(** What the slices are: full ones, then what is left when it is not
    empty. *)
Lemma slices_spec (size : nat) (fuel : nat) : forall value : bytes,
  (0 < size)%nat -> (length value <= fuel)%nat ->
  exists full,
    Forall (fun c => length c = size) full
    /\ concat full = take (size * (length value / size)) value
    /\ length full = (length value / size)%nat
    /\ slices fuel size value =
         full ++ match drop (size * (length value / size)) value with
                 | [] => []
                 | rest => [rest]
                 end.
Proof.
  induction fuel as [|fuel IH]; intros value Hs Hf.
  - destruct value; [|cbn in Hf; lia]. exists []. cbn.
    rewrite Nat.Div0.div_0_l, Nat.mul_0_r. repeat split. constructor.
  - destruct (le_lt_dec size (length value)) as [Hbig|Hsmall].
    + destruct (IH (drop size value) Hs) as (full & F1 & F2 & F3 & F4).
      { rewrite length_drop. lia. }
      exists (take size value :: full).
      assert (Hq : (length value / size = S (length (drop size value) / size))%nat).
      { rewrite length_drop.
        replace (length value) with ((length value - size) + 1 * size)%nat at 1 by lia.
        rewrite Nat.div_add by lia. lia. }
      split; [|split; [|split]].
      * constructor; [rewrite length_take; lia | exact F1].
      * cbn [concat]. rewrite F2, Hq.
        replace (size * S (length (drop size value) / size))%nat
          with (size + size * (length (drop size value) / size))%nat by lia.
        apply take_take_drop.
      * cbn [length]. rewrite F3, Hq. reflexivity.
      * cbn [slices]. destruct value as [|b value]; [cbn in Hbig; lia|].
        rewrite F4, Hq.
        replace (size * S (length (drop size (b :: value)) / size))%nat
          with (size + size * (length (drop size (b :: value)) / size))%nat by lia.
        rewrite drop_drop. reflexivity.
    + exists []. rewrite Nat.div_small by exact Hsmall. rewrite Nat.mul_0_r.
      cbn [take drop app concat length]. split; [constructor|].
      split; [now rewrite take_0|]. split; [reflexivity|].
      destruct value as [|b value]; [reflexivity|].
      rewrite drop_0. apply slices_short; [discriminate | lia | exact Hf].
Qed.

Lemma last_full (size : nat) (full : list bytes) :
  Forall (fun c => length c = size) full -> full <> [] ->
  length (List.last full []) = size.
Proof.
  intros H Hne. destruct (exists_last Hne) as (l & x & ->).
  rewrite last_last. apply Forall_app in H. destruct H as (_ & H).
  inversion H; assumption.
Qed.

(** What [decode] returns: slices that are full, and a buffer that is
    not. *)
Lemma decode_spec (chunk_size : Z) (buffer content : bytes) :
  0 < chunk_size ->
  exists full rest,
    decode chunk_size buffer content = (full, rest)
    /\ Forall (fun c => length c = Z.to_nat chunk_size) full
    /\ concat full ++ rest = buffer ++ content
    /\ (length rest < Z.to_nat chunk_size)%nat.
Proof.
  intros Hs. unfold decode. set (value := buffer ++ content).
  set (size := Z.to_nat chunk_size).
  assert (Hsize : (0 < size)%nat) by (unfold size; lia).
  destruct (chunk_size <=? len value) eqn:Hle.
  - apply Z.leb_le in Hle.
    assert (Hbig : (size <= length value)%nat) by (unfold size, len in *; lia).
    destruct (slices_spec size (length value) value Hsize (le_n _))
      as (full & F1 & F2 & F3 & F4).
    assert (Hq : (1 <= length value / size)%nat)
      by (apply Nat.div_le_lower_bound; lia).
    assert (Hne : full <> []) by (intros ->; cbn in F3; lia).
    rewrite F4.
    destruct (drop (size * (length value / size)) value) as [|b rest] eqn:Hd.
    + rewrite app_nil_r.
      replace (len (List.last full []) =? chunk_size) with true.
      * exists full, []. rewrite app_nil_r. repeat split; try assumption.
        -- rewrite F2.
           transitivity (take (size * (length value / size)) value
                         ++ drop (size * (length value / size)) value);
             [now rewrite Hd, app_nil_r | apply take_drop].
      * symmetry. apply Z.eqb_eq. unfold len. rewrite (last_full size full F1 Hne).
        unfold size. lia.
    + rewrite last_last, removelast_last.
      assert (Hr : (length (b :: rest) < size)%nat).
      { rewrite <- Hd, length_drop.
        pose proof (Nat.mod_upper_bound (length value) size ltac:(lia)).
        pose proof (Nat.div_mod_eq (length value) size). lia. }
      replace (len (b :: rest) =? chunk_size) with false.
      * exists full, (b :: rest). repeat split; try assumption.
        rewrite F2, <- Hd. apply take_drop.
      * symmetry. apply Z.eqb_neq. unfold len, size in *. lia.
  - apply Z.leb_gt in Hle. exists [], value. repeat split; [constructor|].
    unfold len, size in *. lia.
Qed.

(** The items that [aiter_bytes] yields: full slices of the bytes received
    and, when the body ends without an exception, what is left. *)
Lemma aiter_spec (chunk_size : Z) (err : option exn) (raw : list bytes) :
  0 < chunk_size ->
  forall buffer : bytes,
  exists full rest,
    aiter chunk_size buffer raw err
      = full ++ match err with Some _ => [] | None => flush rest end
    /\ Forall (fun c => length c = Z.to_nat chunk_size) full
    /\ concat full ++ rest = buffer ++ concat raw
    /\ ((length buffer < Z.to_nat chunk_size)%nat ->
        (length rest < Z.to_nat chunk_size)%nat).
Proof.
  intros Hs. induction raw as [|content raw IH]; intros buffer.
  - exists [], buffer. cbn. rewrite app_nil_r. repeat split; [constructor | auto].
  - cbn [aiter concat].
    destruct (decode_spec chunk_size buffer content Hs) as (f1 & b1 & Hd & F1 & C1 & L1).
    rewrite Hd.
    destruct (IH b1) as (f2 & rest & Ha & F2 & C2 & L2).
    exists (f1 ++ f2), rest. rewrite Ha, app_assoc. split; [reflexivity|].
    split; [apply Forall_app; split; assumption|].
    split; [|intros _; apply L2, L1].
    rewrite concat_app, <- app_assoc, C2, app_assoc, C1, <- app_assoc. reflexivity.
Qed.

Lemma concat_full_length (size : nat) (full : list bytes) :
  Forall (fun c => length c = size) full ->
  length (concat full) = (size * length full)%nat.
Proof.
  induction 1 as [|c full Hc _ IH]; cbn [concat length]; [lia|].
  rewrite length_app, IH, Hc. lia.
Qed.

(** The same, with the items given by the bytes received. *)
Lemma aiter_bytes_spec (chunk_size : Z) (err : option exn) (raw : list bytes) :
  0 < chunk_size ->
  let data := concat raw in
  let n := Z.to_nat (chunk_size * (len data / chunk_size)) in
  exists full,
    aiter_bytes chunk_size raw err
      = full ++ match err with Some _ => [] | None => flush (drop n data) end
    /\ Forall (fun c => len c = chunk_size) full
    /\ len full = len data / chunk_size
    /\ concat full = take n data
    /\ len (drop n data) = len data mod chunk_size.
Proof.
  intros Hs. cbv zeta. unfold aiter_bytes.
  destruct (aiter_spec chunk_size err raw Hs []) as (full & rest & Ha & F & C & L).
  cbn [app] in C. specialize (L ltac:(cbn; lia)).
  pose proof (concat_full_length _ _ F) as Hlen.
  assert (Htot : length (concat raw) = (Z.to_nat chunk_size * length full + length rest)%nat).
  { rewrite <- C, length_app, Hlen. reflexivity. }
  assert (Hq : len (concat raw) / chunk_size = Z.of_nat (length full)).
  { unfold len. rewrite Htot. symmetry.
    apply (Z.div_unique _ _ _ (Z.of_nat (length rest))); lia. }
  assert (Hn : Z.to_nat (chunk_size * (len (concat raw) / chunk_size))
               = length (concat full)).
  { rewrite Hq, Hlen. lia. }
  exists full. rewrite Hn.
  assert (Hdrop : drop (length (concat full)) (concat raw) = rest).
  { rewrite <- C. apply drop_app_length. }
  rewrite Hdrop. split; [exact Ha|].
  split; [eapply Forall_impl; [exact F|]; cbn; intros c Hc; unfold len; lia|].
  split; [unfold len in *; lia|].
  split; [rewrite <- C; symmetry; apply take_app_length|].
  unfold len. rewrite Htot.
  apply (Z.mod_unique_pos _ _ (Z.of_nat (length full))); lia.
Qed.

Lemma map_len_full (size : Z) (full : list bytes) :
  Forall (fun c => len c = size) full ->
  map len full = repeat size (length full).
Proof.
  induction 1 as [|c full Hc _ IH]; [reflexivity|].
  cbn [map length repeat]. now rewrite Hc, IH.
Qed.
End HttpxFacts.

(** ** Kokoro: the items of a response *)

Lemma push_all_whole_chunks (self : Kokoro.Handler) (its : list bytes) :
  Forall chunk_ok its -> Kokoro.push_all self [] its = (its, []).
Proof.
  induction its as [|b its IH]; intros Hall; [reflexivity|].
  inversion Hall as [|? ? [Hlen Hmod] Hrest]; subst.
  rewrite push_all_cons. cbn [app].
  rewrite (reframe_exact b Hlen Hmod). cbn [fst snd]. rewrite (IH Hrest). reflexivity.
Qed.

Lemma aiter_bytes_failed_ok (raw : list bytes) (e : exn) :
  Forall chunk_ok (Httpx.aiter_bytes 512 raw (Some e)).
Proof.
  destruct (HttpxFacts.aiter_bytes_spec 512 (Some e) raw ltac:(lia))
    as (full & Ha & F & _).
  rewrite Ha, app_nil_r. eapply Forall_impl; [exact F|]. cbn.
  intros c Hc. unfold chunk_ok. rewrite Hc. split; [lia | reflexivity].
Qed.

Lemma aiter_bytes_even_ok (raw : list bytes) :
  len (concat raw) mod 2 = 0 ->
  Forall chunk_ok (Httpx.aiter_bytes 512 raw None).
Proof.
  intros Heven.
  destruct (HttpxFacts.aiter_bytes_spec 512 None raw ltac:(lia))
    as (full & Ha & F & _ & _ & Hr).
  rewrite Ha. apply Forall_app. split.
  - eapply Forall_impl; [exact F|]. cbn.
    intros c Hc. unfold chunk_ok. rewrite Hc. split; [lia | reflexivity].
  - unfold Httpx.flush.
    destruct (drop _ (concat raw)) as [|b rest] eqn:Hd; [constructor|].
    constructor; [|constructor].
    assert (Hpos : 1 <= len (b :: rest)) by (unfold len; cbn [length]; lia).
    unfold chunk_ok. rewrite Hr in *.
    clear - Heven Hpos. Z.to_euclidean_division_equations. lia.
Qed.

(** The run of a synthesis whose stream breaks after the fragments
    [raw]. *)
Lemma synthesize_failed_stream_run post (self : Kokoro.Handler) text voice speed
    (raw : list bytes) (e : exn) :
  post (Kokoro.endpoint_of self) (Kokoro.payload_of self text)
    = inr (Httpx.response raw (Some e)) ->
  written (trace (Kokoro.handle_event post (Synthesize text voice speed) self))
    = start_event :: map chunk_event (Httpx.aiter_bytes 512 raw (Some e))
        ++ [start_event; AudioStop].
Proof.
  intros Hpost.
  rewrite (synthesize_run _ _ _ _ _ _ Hpost eq_refl).
  cbn [Httpx.response Kokoro.items Kokoro.stream_error trace].
  rewrite (push_all_whole_chunks self _ (aiter_bytes_failed_ok raw e)).
  cbn [app written fst]. rewrite written_app, written_map_emit. reflexivity.
Qed.


(** The items of a body that ends, for a length that 512 does not
    divide. *)
Lemma aiter_bytes_items (raw : list bytes) :
  len (concat raw) mod 512 <> 0 ->
  exists full rest,
    Httpx.aiter_bytes 512 raw None = full ++ [rest]
    /\ map len (full ++ [rest])
       = repeat 512 (Z.to_nat (len (concat raw) / 512)) ++ [len (concat raw) mod 512]
    /\ concat (full ++ [rest]) = concat raw.
Proof.
  intros Hmod.
  destruct (HttpxFacts.aiter_bytes_spec 512 None raw ltac:(lia))
    as (full & Ha & F & Hn & Hc & Hr).
  set (n := Z.to_nat (512 * (len (concat raw) / 512))) in *.
  exists full, (drop n (concat raw)).
  assert (Hne : drop n (concat raw) <> []).
  { intros H. rewrite H in Hr. apply Hmod. symmetry. exact Hr. }
  split.
  - rewrite Ha. unfold Httpx.flush.
    destruct (drop n (concat raw)); [contradiction | reflexivity].
  - split.
    + rewrite map_app, (HttpxFacts.map_len_full 512 full F). cbn [map].
      rewrite Hr, <- Hn. unfold len at 2. rewrite Nat2Z.id. reflexivity.
    + rewrite concat_app, Hc. cbn [concat]. rewrite app_nil_r. apply take_drop.
Qed.

(** ** Voxtral: the run of the [AudioStop] branch *)

Module VoxtralStop.
Import Voxtral VoxtralSteps VoxtralFacts.

Section Env.
Variable ctor : string -> f32 -> nat -> exn + LLM.
Variable librosa : option Resampler.

Lemma voxtral_locked_fields (s : State) :
  self (locked s) = self s /\ _llm_cache (locked s) = _llm_cache s
  /\ attempts (locked s) = attempts s.
Proof. unfold locked. destruct (_model_lock s); repeat split. Qed.

Lemma voxtral_load_llm_cases (s : State) :
  load_llm ctor s =
    match llm (self s) with
    | Some _ => mkRun [] s (inr tt)
    | None =>
        match _llm_cache s with
        | Some l =>
            mkRun [] (set_self (set_llm (Some l) (self (locked s))) (locked s)) (inr tt)
        | None =>
            match ctor (model_name (self s)) (gpu_memory_utilization (self s)) (attempts s) with
            | inl e => mkRun [Construct (model_name (self s)) false] (tick (locked s)) (inl e)
            | inr l =>
                mkRun [Construct (model_name (self s)) true]
                  (set_self (set_llm (Some l) (self (locked s))) (store l (tick (locked s))))
                  (inr tt)
            end
        end
    end.
Proof.
  unfold load_llm, bind at 1. cbn [get].
  destruct (llm (self s)) as [l|]; [reflexivity|].
  unfold bind. rewrite voxtral_get_vllm_model_run.
  destruct (_llm_cache s) as [l|]; [reflexivity|].
  destruct (ctor _ _ _) as [e|l]; reflexivity.
Qed.

(** The run of the [AudioStop] branch, from the run of the loading and the
    run of [_transcribe_sync]. *)
Lemma voxtral_audio_stop_shape (s : State) :
  handle_event ctor librosa AudioStop s =
    let r1 := load_llm ctor s in
    let s1 := final r1 in
    match outcome r1 with
    | inl _ => mkRun (trace r1 ++ [Emit (Transcript "")]) s1 (inr true)
    | inr _ =>
        if len (audio_buffer (self s1)) mod 2 =? 0 then
          let r2 := _transcribe_sync librosa
                      (Np.to_float (Np.int16_items (audio_buffer (self s1))))
                      (sample_rate (self s1)) s1 in
          mkRun (trace r1 ++ trace r2
                 ++ [Emit (Transcript (match outcome r2 with
                                       | inr text => text
                                       | inl _ => ""
                                       end))])
                s1 (inr true)
        else mkRun (trace r1 ++ [Emit (Transcript "")]) s1 (inr true)
    end.
Proof.
  rewrite voxtral_handle_audio_stop_run, voxtral_audio_stop_body_split. unfold bind.
  cbv zeta. destruct (load_llm ctor s) as [t s' [e|[]]]; cbn [trace final outcome];
    [reflexivity|].
  rewrite voxtral_transcribe_buffer_run.
  destruct (len (audio_buffer (self s')) mod 2 =? 0);
    [|now rewrite app_nil_r].
  destruct (voxtral_transcribe_sync_total librosa
              (Np.to_float (Np.int16_items (audio_buffer (self s'))))
              (sample_rate (self s')) s') as (t' & text & Ht & _).
  rewrite Ht. reflexivity.
Qed.
End Env.
End VoxtralStop.

(** * The claims *)

(** C1, as the code has it.  When the Kokoro stream breaks after some
    fragments, the handler has written the first [AudioStart] and one
    [AudioChunk] of 512 bytes for every 512 bytes received (the HTTP client
    hands the body over in items of 512 bytes, and what it holds of an
    unfinished item is lost); its [except] clause then writes an [AudioStart]
    followed by [AudioStop].  The events are therefore two [AudioStart], a
    single [AudioStop] in last position, and the handler returns [True]. *)
Theorem synthesize_failure_mid_stream
    post (self : Kokoro.Handler) text voice speed (raw : list bytes) (e : exn) :
  post (Kokoro.endpoint_of self) (Kokoro.payload_of self text)
    = inr (Httpx.response raw (Some e)) ->
  let run := Kokoro.handle_event post (Synthesize text voice speed) self in
  let data := concat raw in
  exists chunks : list bytes,
    written (trace run) =
      start_event :: map chunk_event chunks ++ [start_event; AudioStop]
    /\ Forall (fun c => len c = 512) chunks
    /\ len chunks = len data / 512
    /\ concat chunks = take (Z.to_nat (512 * (len data / 512))) data
    /\ count_events is_audio_start (written (trace run)) = 2%nat
    /\ count_events is_audio_stop (written (trace run)) = 1%nat
    /\ outcome run = inr true.
Proof.
  intros Hpost run data. subst run data.
  rewrite (synthesize_failed_stream_run _ _ _ _ _ raw e Hpost).
  destruct (HttpxFacts.aiter_bytes_spec 512 (Some e) raw ltac:(lia))
    as (full & Ha & F & Hn & Hc & _).
  rewrite Ha, app_nil_r. exists full.
  split; [reflexivity|]. split; [exact F|]. split; [exact Hn|]. split; [exact Hc|].
  change (start_event :: map chunk_event full ++ [start_event; AudioStop])
    with ([start_event] ++ map chunk_event full ++ [start_event; AudioStop]).
  rewrite !count_events_app, !count_chunks by reflexivity.
  split; [reflexivity|]. split; [reflexivity|].
  rewrite (synthesize_run _ _ _ _ _ _ Hpost eq_refl). reflexivity.
Qed.

(** A stream that breaks after one fragment of 1000 bytes meets the
    hypothesis of the theorem above: one chunk of 512 bytes is written. *)
Lemma synthesize_failure_mid_stream_witness :
  let run := Kokoro.handle_event (Cases.streams [Scenario.zeros 1000] (Some HTTPError))
               (Synthesize "hi" (Some "v1") None) Scenario.kokoro in
  exists chunks : list bytes,
    written (trace run) =
      start_event :: map chunk_event chunks ++ [start_event; AudioStop]
    /\ len chunks = 1
    /\ concat chunks = Scenario.zeros 512.
Proof.
  cbv zeta.
  destruct (synthesize_failure_mid_stream
              (Cases.streams [Scenario.zeros 1000] (Some HTTPError)) Scenario.kokoro
              "hi" (Some "v1") None [Scenario.zeros 1000] HTTPError eq_refl)
    as (chunks & Hw & _ & Hn & Hc & _).
  exists chunks. split; [exact Hw|]. split; [exact Hn | exact Hc].
Defined.

(** C1 as stated does not hold: after one fragment of 512 bytes and a broken
    stream, the events are [AudioStart], one [AudioChunk], a second
    [AudioStart] and [AudioStop], and not [AudioStart], [AudioChunk],
    [AudioStop]; and after one fragment of 100 bytes no [AudioChunk] is
    written at all. *)
Lemma synthesize_failure_second_start :
  let run n := Kokoro.handle_event (Cases.streams [Scenario.zeros n] (Some HTTPError))
                 (Synthesize "hi" (Some "v1") None) Scenario.kokoro in
  written (trace (run 512)) =
    [start_event; chunk_event (Scenario.zeros 512); start_event; AudioStop]
  /\ written (trace (run 512)) <>
    [start_event; chunk_event (Scenario.zeros 512); AudioStop]
  /\ written (trace (run 100)) = [start_event; start_event; AudioStop]
  /\ written (trace (run 100)) <>
    [start_event; chunk_event (Scenario.zeros 100); AudioStop].
Proof.
  assert (H : written (trace (Kokoro.handle_event
                (Cases.streams [Scenario.zeros 512] (Some HTTPError))
                (Synthesize "hi" (Some "v1") None) Scenario.kokoro)) =
              [start_event; chunk_event (Scenario.zeros 512); start_event; AudioStop])
    by (vm_compute; reflexivity).
  assert (H' : written (trace (Kokoro.handle_event
                (Cases.streams [Scenario.zeros 100] (Some HTTPError))
                (Synthesize "hi" (Some "v1") None) Scenario.kokoro)) =
              [start_event; start_event; AudioStop])
    by (vm_compute; reflexivity).
  cbv beta zeta. rewrite H, H'. repeat split; discriminate.
Qed.

(** C2.  In both speech-to-text handlers, when a call to the backend
    (construction of the model or inference) raises while [AudioStop] is
    handled, exactly one [Transcript] with empty text is written, the handler
    returns [True] without an exception, the audio fields of the handler are
    untouched, and a following [Transcribe] is handled as always: it resets
    the buffer and the sample rate and returns [True]. *)
Theorem stt_backend_failure :
  (forall ctor librosa (s : Moonshine.State),
     let r := Moonshine.handle_event ctor librosa AudioStop s in
     backend_raised (trace r) = true ->
     written (trace r) = [Transcript ""]
     /\ outcome r = inr true
     /\ Moonshine.self (final r) = Moonshine.self s
     /\ forall language,
          let r' := Moonshine.handle_event ctor librosa (Transcribe language) (final r) in
          trace r' = [] /\ outcome r' = inr true
          /\ Moonshine.audio_buffer (Moonshine.self (final r')) = []
          /\ Moonshine.sample_rate (Moonshine.self (final r')) = 16000)
  /\
  (forall ctor librosa (s : Voxtral.State),
     let r := Voxtral.handle_event ctor librosa AudioStop s in
     backend_raised (trace r) = true ->
     written (trace r) = [Transcript ""]
     /\ outcome r = inr true
     /\ VoxtralSteps.audio_fields (Voxtral.self (final r))
        = VoxtralSteps.audio_fields (Voxtral.self s)
     /\ forall language,
          let r' := Voxtral.handle_event ctor librosa (Transcribe language) (final r) in
          trace r' = [] /\ outcome r' = inr true
          /\ Voxtral.audio_buffer (Voxtral.self (final r')) = []
          /\ Voxtral.sample_rate (Voxtral.self (final r')) = 16000).
Proof.
  split; intros ctor librosa s r Hb; subst r.
  - destruct (MoonshineFacts.moonshine_audio_stop_total ctor librosa s)
      as (Ho & Hs & text & Hw & Ht).
    rewrite Hw, (Ht Hb). repeat split; assumption.
  - destruct (VoxtralFacts.voxtral_audio_stop_total ctor librosa s)
      as (Ho & Hs & text & Hw & Ht & _).
    rewrite Hw, (Ht Hb). repeat split; assumption.
Qed.

(** A model whose inference raises, for both handlers. *)
Lemma stt_backend_failure_witness :
  written (trace (Moonshine.handle_event (Scenario.loads Scenario.broken) None
                    AudioStop Scenario.moonshine)) = [Transcript ""]
  /\ written (trace (Voxtral.handle_event (Scenario.loads_llm Scenario.broken_llm)
                       (Some Scenario.decimate) AudioStop Scenario.voxtral))
     = [Transcript ""].
Proof.
  split.
  - exact (proj1 (proj1 stt_backend_failure
                    (Scenario.loads Scenario.broken) None Scenario.moonshine eq_refl)).
  - exact (proj1 (proj2 stt_backend_failure
                    (Scenario.loads_llm Scenario.broken_llm) (Some Scenario.decimate)
                    Scenario.voxtral eq_refl)).
Defined.

(** A connection survives a failed transcription: the next session on it gets
    its transcript. *)
Example stt_next_session_after_failure :
  let events := [Transcribe None; AudioChunk (Scenario.zeros 4) 16000 2 1; AudioStop] in
  let r := Moonshine.handle_events Scenario.flaky None (events ++ events)
             Scenario.moonshine in
  written (trace r) = [Transcript ""; Transcript "hello"] /\ outcome r = inr true.
Proof. vm_compute. split; reflexivity. Qed.




(** C4, as the code has it.  5000 bytes reach the loop in items of 512 bytes,
    nine of 512 and one of 392, whatever the fragments in which they were
    sent; every item is written at once as one chunk, nothing is left in the
    buffer, and the code after the loop writes nothing.  And for any sequence
    of pushes followed by the final flush, the bytes written are the bytes
    pushed minus the one trailing byte of an odd total. *)
Theorem reframer_push_flush (self : Kokoro.Handler) (raw : list bytes) :
  len (concat raw) = 5000 ->
  let items := Httpx.aiter_bytes 512 raw None in
  let pushed := Kokoro.push_all self [] items in
  map len (fst pushed) = [512; 512; 512; 512; 512; 512; 512; 512; 512; 392]
  /\ concat (fst pushed) = concat raw
  /\ fst pushed = items
  /\ snd pushed = []
  /\ Kokoro.flush self (snd pushed) = []
  /\ forall blocks : list bytes,
       let p := Kokoro.push_all self [] blocks in
       let emitted := fst p ++ Kokoro.flush self (snd p) in
       total_len emitted = total_len blocks - total_len blocks mod 2
       /\ len (snd p) = total_len blocks mod 2
       /\ Kokoro.flush self (snd p) = [].
Proof.
  intros H. cbv zeta.
  rewrite (push_all_whole_chunks self _ (aiter_bytes_even_ok raw ltac:(now rewrite H))).
  cbn [fst snd].
  destruct (aiter_bytes_items raw) as (full & rest & Ha & Hm & Hc).
  { rewrite H. discriminate. }
  rewrite Ha, Hm, Hc, H.
  split; [reflexivity|]. split; [reflexivity|]. split; [reflexivity|].
  split; [reflexivity|].
  split; [apply flush_small; unfold len; simpl; lia|].
  intros blocks.
  destruct (push_all_spec self blocks []) as (P1 & P2 & P3).
  assert (Hrest : len (snd (Kokoro.push_all self [] blocks)) < 2)
    by (apply P2; unfold len; simpl; lia).
  rewrite (flush_small self _ Hrest), app_nil_r.
  pose proof (concat_even _ P3) as Heven.
  pose proof (len_nonneg (snd (Kokoro.push_all self [] blocks))) as Hpos.
  assert (Htot : total_len blocks =
                 total_len (fst (Kokoro.push_all self [] blocks))
                 + len (snd (Kokoro.push_all self [] blocks))).
  { unfold total_len. rewrite <- len_app, P1. reflexivity. }
  unfold total_len in *.
  assert (Hmod : len (concat blocks) mod 2 = len (snd (Kokoro.push_all self [] blocks))).
  { rewrite Htot. clear - Heven Hrest Hpos.
    Z.to_euclidean_division_equations. lia. }
  repeat split; lia.
Qed.

(** 5000 zero bytes sent in two fragments meet the hypothesis of the theorem
    above. *)
Lemma reframer_push_flush_witness :
  let items := Httpx.aiter_bytes 512 [Scenario.zeros 3000; Scenario.zeros 2000] None in
  map len (fst (Kokoro.push_all Scenario.kokoro [] items))
    = [512; 512; 512; 512; 512; 512; 512; 512; 512; 392].
Proof.
  exact (proj1 (reframer_push_flush Scenario.kokoro
                  [Scenario.zeros 3000; Scenario.zeros 2000] eq_refl)).
Defined.

(** C4 as stated does not hold: the 5000 bytes are written in ten chunks, none
    of 2048 bytes, no byte is retained, not 904, and the flush writes
    nothing. *)
Lemma reframer_nothing_retained :
  let items := Httpx.aiter_bytes 512 [Scenario.zeros 5000] None in
  let p := Kokoro.push_all Scenario.kokoro [] items in
  length (fst p) = 10%nat /\ length (fst p) <> 2%nat
  /\ Forall (fun c => len c <> 2048) (fst p)
  /\ len (snd p) = 0 /\ len (snd p) <> 904
  /\ Kokoro.flush Scenario.kokoro (snd p) = [].
Proof.
  assert (H : Kokoro.push_all Scenario.kokoro []
                (Httpx.aiter_bytes 512 [Scenario.zeros 5000] None) =
              (repeat (Scenario.zeros 512) 9 ++ [Scenario.zeros 392], []))
    by (vm_compute; reflexivity).
  cbv zeta. rewrite H. cbn [fst snd].
  split; [reflexivity|]. split; [discriminate|].
  split; [repeat constructor; discriminate|].
  repeat split; discriminate.
Qed.

(** C5, as the code has it.  After [Transcribe] and any chunks of 16-bit mono
    audio at 16000 Hz, the buffer of both handlers is the concatenation of the
    payloads, of length L.  When L is even, [np.frombuffer] gives the L/2
    samples; when L is odd it raises [ValueError], no sample is produced and
    the handler writes a [Transcript] with empty text.  The conversion to
    [float32] of samples read from zero bytes gives zeros only. *)
Theorem finalize_sample_count (payloads : list bytes) :
  let events := Transcribe None :: chunks_16k payloads in
  (forall ctor librosa (s : Moonshine.State),
     let s' := final (Moonshine.handle_events ctor librosa events s) in
     Moonshine.audio_buffer (Moonshine.self s') = concat payloads
     /\ (total_len payloads mod 2 = 0 ->
         Np.frombuffer (concat payloads) s'
           = mkRun [] s' (inr (Np.int16_items (concat payloads))))
     /\ (total_len payloads mod 2 <> 0 ->
         Np.frombuffer (concat payloads) s' = mkRun [] s' (inl ValueError)
         /\ written (trace (Moonshine.handle_event ctor librosa AudioStop s'))
            = [Transcript ""]))
  /\
  (forall ctor librosa (s : Voxtral.State),
     let s' := final (Voxtral.handle_events ctor librosa events s) in
     Voxtral.audio_buffer (Voxtral.self s') = concat payloads
     /\ (total_len payloads mod 2 = 0 ->
         Np.frombuffer (concat payloads) s'
           = mkRun [] s' (inr (Np.int16_items (concat payloads))))
     /\ (total_len payloads mod 2 <> 0 ->
         Np.frombuffer (concat payloads) s' = mkRun [] s' (inl ValueError)
         /\ written (trace (Voxtral.handle_event ctor librosa AudioStop s'))
            = [Transcript ""]))
  /\ len (Np.int16_items (concat payloads)) = total_len payloads / 2
  /\ (Forall (fun b => b = x00) (concat payloads) ->
      Forall (fun x => x = f32_zero) (Np.to_float (Np.int16_items (concat payloads)))).
Proof.
  cbv zeta. unfold total_len. split; [|split; [|split]].
  - intros ctor librosa s.
    pose proof (MoonshineFacts.moonshine_session_buffer ctor librosa payloads s) as Hbuf.
    split; [exact Hbuf|]. split.
    + intros Hev. rewrite np_frombuffer_run.
      apply Z.eqb_eq in Hev. rewrite Hev. reflexivity.
    + intros Hodd. split.
      * rewrite np_frombuffer_run.
        apply Z.eqb_neq in Hodd. rewrite Hodd. reflexivity.
      * rewrite MoonshineFacts.moonshine_audio_stop_odd; [reflexivity|].
        rewrite Hbuf. exact Hodd.
  - intros ctor librosa s.
    pose proof (VoxtralFacts.voxtral_session_buffer ctor librosa payloads s) as Hbuf.
    split; [exact Hbuf|]. split.
    + intros Hev. rewrite np_frombuffer_run.
      apply Z.eqb_eq in Hev. rewrite Hev. reflexivity.
    + intros Hodd. split.
      * rewrite np_frombuffer_run.
        apply Z.eqb_neq in Hodd. rewrite Hodd. reflexivity.
      * apply VoxtralFacts.voxtral_audio_stop_odd. rewrite Hbuf. exact Hodd.
  - apply (int16_items_length (length (concat payloads))). lia.
  - apply (int16_items_zero (length (concat payloads))). lia.
Qed.

(** Eight zero bytes in two chunks for the even case, three bytes for the odd
    case, for both handlers. *)
Lemma finalize_sample_count_witness :
  let even := [Scenario.zeros 6; Scenario.zeros 2] in
  let odd := [Scenario.zeros 3] in
  let m p := final (Moonshine.handle_events (Scenario.loads Scenario.hello) None
                      (Transcribe None :: chunks_16k p) Scenario.moonshine) in
  let v p := final (Voxtral.handle_events (Scenario.loads_llm Scenario.hello_llm) None
                      (Transcribe None :: chunks_16k p) Scenario.voxtral) in
  Np.frombuffer (concat even) (m even)
    = mkRun [] (m even) (inr (Np.int16_items (concat even)))
  /\ written (trace (Moonshine.handle_event (Scenario.loads Scenario.hello) None
                       AudioStop (m odd))) = [Transcript ""]
  /\ Np.frombuffer (concat even) (v even)
     = mkRun [] (v even) (inr (Np.int16_items (concat even)))
  /\ written (trace (Voxtral.handle_event (Scenario.loads_llm Scenario.hello_llm) None
                       AudioStop (v odd))) = [Transcript ""]
  /\ Forall (fun x => x = f32_zero) (Np.to_float (Np.int16_items (concat even))).
Proof.
  cbv zeta.
  pose proof (finalize_sample_count [Scenario.zeros 6; Scenario.zeros 2]) as He.
  pose proof (finalize_sample_count [Scenario.zeros 3]) as Ho.
  cbv zeta in He, Ho.
  destruct He as (HeM & HeV & _ & Hz). destruct Ho as (HoM & HoV & _).
  split; [|split; [|split; [|split]]].
  - apply (HeM (Scenario.loads Scenario.hello) None Scenario.moonshine). reflexivity.
  - apply (HoM (Scenario.loads Scenario.hello) None Scenario.moonshine).
    vm_compute. discriminate.
  - apply (HeV (Scenario.loads_llm Scenario.hello_llm) None Scenario.voxtral). reflexivity.
  - apply (HoV (Scenario.loads_llm Scenario.hello_llm) None Scenario.voxtral).
    vm_compute. discriminate.
  - apply Hz. repeat constructor.
Defined.

(** C5 as stated does not hold: with a buffer of three bytes [np.frombuffer]
    raises instead of giving one sample, the model is never asked and the
    transcript is empty. *)
Lemma finalize_odd_length_fails :
  let s := final (Moonshine.handle_events (Scenario.loads Scenario.hello) None
                    (Transcribe None :: chunks_16k [Scenario.zeros 3])
                    Scenario.moonshine) in
  len (Moonshine.audio_buffer (Moonshine.self s)) = 3
  /\ outcome (Np.frombuffer (Moonshine.audio_buffer (Moonshine.self s)) s) = inl ValueError
  /\ written (trace (Moonshine.handle_event (Scenario.loads Scenario.hello) None AudioStop s))
     = [Transcript ""]
  /\ generated (trace (Moonshine.handle_event (Scenario.loads Scenario.hello) None AudioStop s))
     = [].
Proof. vm_compute. repeat split. Qed.

(** What holds of C6.  A session whose first chunk carries at least one byte
    keeps the format of that chunk whatever chunks follow; and a chunk that
    arrives when the buffer holds audio never changes the format. *)
Theorem format_kept_once_buffered :
  (forall ctor librosa (s : Moonshine.State) language a r w c later,
     a <> [] -> all_chunks later ->
     Moonshine.format (Moonshine.self (final
       (Moonshine.handle_events ctor librosa
          (Transcribe language :: AudioChunk a r w c :: later) s))) = (r, w, c))
  /\
  (forall ctor librosa (s : Voxtral.State) language a r w c later,
     a <> [] -> all_chunks later ->
     Voxtral.format (Voxtral.self (final
       (Voxtral.handle_events ctor librosa
          (Transcribe language :: AudioChunk a r w c :: later) s))) = (r, w, c))
  /\
  (forall ctor librosa (s : Moonshine.State) a r w c,
     Moonshine.audio_buffer (Moonshine.self s) <> [] ->
     Moonshine.format (Moonshine.self (final
       (Moonshine.handle_event ctor librosa (AudioChunk a r w c) s)))
     = Moonshine.format (Moonshine.self s))
  /\
  (forall ctor librosa (s : Voxtral.State) a r w c,
     Voxtral.audio_buffer (Voxtral.self s) <> [] ->
     Voxtral.format (Voxtral.self (final
       (Voxtral.handle_event ctor librosa (AudioChunk a r w c) s)))
     = Voxtral.format (Voxtral.self s)).
Proof.
  split; [|split; [|split]].
  - intros ctor librosa s language a r w c later Ha Hall.
    rewrite (MoonshineFacts.moonshine_events_cons _ _ _ _ _ _
               (MoonshineFacts.moonshine_transcribe_run ctor librosa language s)).
    rewrite (MoonshineFacts.moonshine_events_cons _ _ _ _ _ _
               (MoonshineFacts.moonshine_chunk_run ctor librosa a r w c _)).
    rewrite MoonshineFacts.moonshine_chunks_keep_format; [reflexivity | exact Hall |].
    cbn. destruct a; [contradiction | discriminate].
  - intros ctor librosa s language a r w c later Ha Hall.
    rewrite (VoxtralFacts.voxtral_events_cons _ _ _ _ _ _
               (VoxtralFacts.voxtral_transcribe_run ctor librosa language s)).
    rewrite (VoxtralFacts.voxtral_events_cons _ _ _ _ _ _
               (VoxtralFacts.voxtral_chunk_run ctor librosa a r w c _)).
    rewrite VoxtralFacts.voxtral_chunks_keep_format; [reflexivity | exact Hall |].
    cbn. destruct a; [contradiction | discriminate].
  - intros ctor librosa s a r w c H.
    apply (MoonshineFacts.moonshine_chunk_keeps_format ctor librosa a r w c s H).
  - intros ctor librosa s a r w c H.
    apply (VoxtralFacts.voxtral_chunk_keeps_format ctor librosa a r w c s H).
Qed.

(** While the buffer is empty, every chunk sets the format, whether it
    carries audio or not. *)
Lemma format_set_while_empty :
  (forall ctor librosa (s : Moonshine.State) a r w c,
     Moonshine.audio_buffer (Moonshine.self s) = [] ->
     let s' := final (Moonshine.handle_event ctor librosa (AudioChunk a r w c) s) in
     Moonshine.format (Moonshine.self s') = (r, w, c)
     /\ Moonshine.audio_buffer (Moonshine.self s') = a)
  /\
  (forall ctor librosa (s : Voxtral.State) a r w c,
     Voxtral.audio_buffer (Voxtral.self s) = [] ->
     let s' := final (Voxtral.handle_event ctor librosa (AudioChunk a r w c) s) in
     Voxtral.format (Voxtral.self s') = (r, w, c)
     /\ Voxtral.audio_buffer (Voxtral.self s') = a).
Proof.
  split; intros ctor librosa s a r w c Hb; cbv zeta.
  - rewrite MoonshineFacts.moonshine_chunk_run. cbn [final]. rewrite Hb. split; reflexivity.
  - rewrite VoxtralFacts.voxtral_chunk_run. cbn [final]. rewrite Hb. split; reflexivity.
Qed.

(** C6, on the failing input.  The comment of the Voxtral handler says that
    the format is taken from the first chunk, and the guard tests that the
    buffer is empty instead: when the first chunk of a session carries no
    audio, the format recorded is that of the second chunk, in both
    handlers. *)
Lemma format_taken_from_later_chunk :
  let events := [Transcribe None;
                 AudioChunk [] 16000 2 1;
                 AudioChunk (Scenario.zeros 4) 48000 2 2] in
  let m := final (Moonshine.handle_events (Scenario.loads Scenario.hello) None
                    events Scenario.moonshine) in
  let v := final (Voxtral.handle_events (Scenario.loads_llm Scenario.hello_llm) None
                    events Scenario.voxtral) in
  Moonshine.format (Moonshine.self m) = (48000, 2, 2)
  /\ Moonshine.format (Moonshine.self m) <> (16000, 2, 1)
  /\ Voxtral.format (Voxtral.self v) = (48000, 2, 2)
  /\ Voxtral.format (Voxtral.self v) <> (16000, 2, 1).
Proof. vm_compute. repeat split; discriminate. Qed.






(** C8, as the code has it.  In [get_model] and in [get_vllm_model], a
    construction that fails raises to the caller and leaves the cache as it
    was; the next acquisition runs the construction again and has the outcome
    of that new attempt; once a construction has succeeded its result is
    cached and later acquisitions return it without constructing. *)
Theorem construction_failure_not_recorded :
  (forall ctor (name : string) (s : Moonshine.State) (e : exn),
     Moonshine._model_cache s !! name = None ->
     ctor name (Moonshine.attempts s) = inl e ->
     let r1 := Moonshine.get_model ctor name s in
     let r2 := Moonshine.get_model ctor name (final r1) in
     outcome r1 = inl e
     /\ Moonshine._model_cache (final r1) = Moonshine._model_cache s
     /\ constructed (trace r2) = [name]
     /\ outcome r2 = ctor name (S (Moonshine.attempts s))
     /\ (forall m, outcome r2 = inr m ->
         Moonshine.get_model ctor name (final r2) = mkRun [] (final r2) (inr m)))
  /\
  (forall ctor (name : string) (gpu : f32) (s : Voxtral.State) (e : exn),
     Voxtral._llm_cache s = None ->
     ctor name gpu (Voxtral.attempts s) = inl e ->
     let r1 := Voxtral.get_vllm_model ctor name gpu s in
     let r2 := Voxtral.get_vllm_model ctor name gpu (final r1) in
     outcome r1 = inl e
     /\ Voxtral._llm_cache (final r1) = None
     /\ constructed (trace r2) = [name]
     /\ outcome r2 = match ctor name gpu (S (Voxtral.attempts s)) with
                     | inl e' => inl e'
                     | inr l => inr (Some l)
                     end
     /\ (forall l, outcome r2 = inr l ->
         Voxtral.get_vllm_model ctor name gpu (final r2) = mkRun [] (final r2) (inr l))).
Proof.
  split.
  - intros ctor name s e Hc He. cbv zeta.
    rewrite (MoonshineFacts.moonshine_get_model_run ctor name s), Hc, He. cbn [final outcome].
    rewrite (MoonshineFacts.moonshine_get_model_run ctor name (MoonshineSteps.tick s)).
    cbn [MoonshineSteps.tick Moonshine._model_cache Moonshine.attempts]. rewrite Hc.
    split; [reflexivity|]. split; [reflexivity|].
    destruct (ctor name (S (Moonshine.attempts s))) as [e'|m] eqn:E2;
      cbn [trace outcome final constructed].
    + repeat split. intros m Hm. discriminate.
    + repeat split. intros m' Hm. inversion Hm; subst m'.
      rewrite MoonshineFacts.moonshine_get_model_run. cbn. rewrite lookup_insert_eq. reflexivity.
  - intros ctor name gpu s e Hc He. cbv zeta.
    rewrite (VoxtralFacts.voxtral_get_vllm_model_run ctor name gpu s), Hc, He. cbn [final outcome].
    rewrite (VoxtralFacts.voxtral_get_vllm_model_run ctor name gpu).
    assert (Hc' : Voxtral._llm_cache (VoxtralSteps.tick (VoxtralSteps.locked s)) = None).
    { unfold VoxtralSteps.locked. destruct (Voxtral._model_lock s); exact Hc. }
    assert (Ha : Voxtral.attempts (VoxtralSteps.tick (VoxtralSteps.locked s))
                 = S (Voxtral.attempts s)).
    { unfold VoxtralSteps.locked. destruct (Voxtral._model_lock s); reflexivity. }
    rewrite Hc', Ha.
    split; [reflexivity|]. split; [reflexivity|].
    destruct (ctor name gpu (S (Voxtral.attempts s))) as [e'|l] eqn:E2;
      cbn [trace outcome final constructed].
    + repeat split. intros l Hl. discriminate.
    + repeat split. intros l' Hl. inversion Hl; subst l'.
      rewrite VoxtralFacts.voxtral_get_vllm_model_run.
      cbn [VoxtralSteps.store Voxtral._llm_cache].
      rewrite VoxtralFacts.voxtral_locked_id by apply VoxtralFacts.voxtral_model_lock_locked. reflexivity.
Qed.

(** A construction that fails the first time, for both caches. *)
Lemma construction_failure_not_recorded_witness :
  let r1 := Moonshine.get_model Scenario.flaky "tiny" Scenario.moonshine in
  constructed (trace (Moonshine.get_model Scenario.flaky "tiny" (final r1))) = ["tiny"]
  /\
  let r1' := Voxtral.get_vllm_model Scenario.flaky_llm "voxtral" (f32_of_Z 1)
               Scenario.voxtral in
  constructed (trace (Voxtral.get_vllm_model Scenario.flaky_llm "voxtral" (f32_of_Z 1)
                        (final r1'))) = ["voxtral"].
Proof.
  split.
  - exact (proj1 (proj2 (proj2 (proj1 construction_failure_not_recorded
             Scenario.flaky "tiny" Scenario.moonshine RuntimeError eq_refl eq_refl)))).
  - exact (proj1 (proj2 (proj2 (proj2 construction_failure_not_recorded
             Scenario.flaky_llm "voxtral" (f32_of_Z 1) Scenario.voxtral RuntimeError
             eq_refl eq_refl)))).
Defined.

(** C8 as stated does not hold: after a failed construction the next call
    constructs again and, here, succeeds instead of raising the first failure.
    *)
Lemma construction_retried_after_failure :
  let r1 := Moonshine.get_model Scenario.flaky "tiny" Scenario.moonshine in
  let r2 := Moonshine.get_model Scenario.flaky "tiny" (final r1) in
  outcome r1 = inl RuntimeError
  /\ trace r2 = [Construct "tiny" true]
  /\ is_ok (outcome r2) = true
  /\ outcome r2 <> inl RuntimeError.
Proof. vm_compute. repeat split. discriminate. Qed.





(** * Further properties *)

(** ** Kokoro: every answer of the API *)

Lemma kokoro_synthesize_full_run post (self : Kokoro.Handler) text voice speed :
  Kokoro.handle_event post (Synthesize text voice speed) self =
    mkRun (Emit start_event
             :: HttpPost (Kokoro.endpoint_of self) (Kokoro.payload_of self text)
             :: map Emit (reply_events self
                            (post (Kokoro.endpoint_of self) (Kokoro.payload_of self text))))
          self (inr true).
Proof.
  destruct (post (Kokoro.endpoint_of self) (Kokoro.payload_of self text)) as [e|r] eqn:Hpost.
  - unfold Kokoro.handle_event, Kokoro.synthesize_body, catch, bind, get, write_event, tell.
    rewrite Hpost. destruct e; reflexivity.
  - cbn [reply_events]. destruct (Kokoro.status_ok r) eqn:Hok.
    + rewrite (synthesize_run _ _ _ _ _ r Hpost Hok). cbn [app].
      rewrite map_app. destruct (Kokoro.stream_error r); reflexivity.
    + unfold Kokoro.handle_event, Kokoro.synthesize_body, catch, bind, get, write_event, tell.
      rewrite Hpost. cbn [lift ret]. rewrite Hok. reflexivity.
Qed.

Lemma reply_events_last (self : Kokoro.Handler) (answer : exn + Kokoro.Response) :
  exists mid,
    reply_events self answer = mid ++ [AudioStop]
    /\ count_events is_audio_stop mid = 0%nat
    /\ count_events is_audio_start mid = (if complete answer then 0 else 1)%nat.
Proof.
  destruct answer as [e|r]; cbn [reply_events complete].
  - exists [start_event]. repeat split.
  - destruct (Kokoro.status_ok r); cbn [andb].
    + destruct (Kokoro.stream_error r).
      * exists (map chunk_event (fst (Kokoro.push_all self [] (Kokoro.items r)))
                ++ [start_event]).
        rewrite <- app_assoc. split; [reflexivity|].
        rewrite !count_events_app, !count_chunks by reflexivity. split; reflexivity.
      * exists (map chunk_event (fst (Kokoro.push_all self [] (Kokoro.items r)))).
        split; [reflexivity|].
        rewrite !count_chunks by reflexivity. split; reflexivity.
    + exists [start_event]. repeat split.
Qed.

(** X2.  A synthesis is always bracketed: [AudioStart] is written, then the
    one request is sent, and the events written after it end with the only
    [AudioStop]; a second [AudioStart] is written exactly when the API did
    not stream to the end. *)
Theorem kokoro_synthesize_bracketed post (self : Kokoro.Handler) text voice speed :
  let run := Kokoro.handle_event post (Synthesize text voice speed) self in
  let answer := post (Kokoro.endpoint_of self) (Kokoro.payload_of self text) in
  requests (trace run) = [(Kokoro.endpoint_of self, Kokoro.payload_of self text)]
  /\ (exists events,
        trace run = Emit start_event
                      :: HttpPost (Kokoro.endpoint_of self) (Kokoro.payload_of self text)
                      :: map Emit events)
  /\ exists mid,
       written (trace run) = start_event :: mid ++ [AudioStop]
       /\ count_events is_audio_stop (written (trace run)) = 1%nat
       /\ count_events is_audio_start (written (trace run))
          = (if complete answer then 1 else 2)%nat.
Proof.
  cbv zeta. rewrite kokoro_synthesize_full_run. cbn [trace requests written].
  rewrite requests_map_emit, written_map_emit. split; [reflexivity|].
  split; [eexists; reflexivity|].
  destruct (reply_events_last self
              (post (Kokoro.endpoint_of self) (Kokoro.payload_of self text)))
    as (mid & Hr & Hstop & Hstart).
  exists mid. rewrite Hr. split; [reflexivity|].
  change (start_event :: mid ++ [AudioStop]) with ([start_event] ++ mid ++ [AudioStop]).
  rewrite !count_events_app, Hstop, Hstart.
  destruct (complete _); split; reflexivity.
Qed.

Lemma payloads_app (a b : list Event) : payloads (a ++ b) = payloads a ++ payloads b.
Proof.
  induction a as [|e a IH]; [reflexivity|].
  destruct e; cbn [app payloads]; rewrite ?IH; reflexivity.
Qed.

(** X3.  The audio forwarded is the audio received: when the API answers
    with a success status, the chunks written carry the bytes of the items
    received, in order, short of one trailing byte when their number is
    odd. *)
Theorem kokoro_audio_forwarded post (self : Kokoro.Handler) text voice speed r :
  post (Kokoro.endpoint_of self) (Kokoro.payload_of self text) = inr r ->
  Kokoro.status_ok r = true ->
  let run := Kokoro.handle_event post (Synthesize text voice speed) self in
  exists rest,
    concat (payloads (written (trace run))) ++ rest = concat (Kokoro.items r)
    /\ len rest = total_len (Kokoro.items r) mod 2.
Proof.
  intros Hpost Hok. cbv zeta.
  rewrite kokoro_synthesize_full_run, Hpost. cbn [trace written reply_events].
  rewrite Hok, written_map_emit. cbn [payloads start_event].
  fold start_event. rewrite payloads_app, payloads_chunks.
  assert (Htail : payloads match Kokoro.stream_error r with
                            | Some _ => [start_event; AudioStop]
                            | None => [AudioStop]
                            end = [])
    by (destruct (Kokoro.stream_error r); reflexivity).
  rewrite Htail, app_nil_r.
  destruct (push_all_spec self (Kokoro.items r) []) as (P1 & P2 & P3).
  exists (snd (Kokoro.push_all self [] (Kokoro.items r))).
  split; [exact P1|].
  assert (Hrest : len (snd (Kokoro.push_all self [] (Kokoro.items r))) < 2)
    by (apply P2; unfold len; simpl; lia).
  pose proof (concat_even _ P3) as Heven.
  pose proof (len_nonneg (snd (Kokoro.push_all self [] (Kokoro.items r)))) as Hpos.
  unfold total_len. cbn [app] in P1. rewrite <- P1, len_app.
  clear - Heven Hrest Hpos. Z.to_euclidean_division_equations. lia.
Qed.

Lemma kokoro_audio_forwarded_witness :
  exists rest,
    concat (payloads (written (trace
      (Kokoro.handle_event (Scenario.api [Scenario.zeros 3000; Scenario.zeros 101] None)
         Scenario.hi Scenario.kokoro)))) ++ rest
    = concat [Scenario.zeros 3000; Scenario.zeros 101]
    /\ len rest = total_len [Scenario.zeros 3000; Scenario.zeros 101] mod 2.
Proof.
  apply (kokoro_audio_forwarded
           (Scenario.api [Scenario.zeros 3000; Scenario.zeros 101] None)
           Scenario.kokoro "hi" (Some "v1") (Some (f32_of_Z 1))
           {| Kokoro.status_ok := true;
              Kokoro.items := [Scenario.zeros 3000; Scenario.zeros 101];
              Kokoro.stream_error := None |});
    reflexivity.
Defined.

Lemma reply_events_audio (self : Kokoro.Handler) (answer : exn + Kokoro.Response) :
  Forall kokoro_audio (reply_events self answer).
Proof.
  assert (Htail : Forall kokoro_audio [start_event; AudioStop])
    by (repeat constructor).
  destruct answer as [e|r]; cbn [reply_events]; [exact Htail|].
  destruct (Kokoro.status_ok r); [|exact Htail].
  apply Forall_app. split.
  - destruct (push_all_spec self (Kokoro.items r) []) as (_ & _ & P3).
    induction P3 as [|c out Hc _ IH]; [constructor|].
    cbn [map]. constructor; [split; [reflexivity | exact Hc] | exact IH].
  - destruct (Kokoro.stream_error r); repeat constructor.
Qed.

(** X4.  Every audio event written is in the announced format: 24000 Hz, 16
    bits, mono, and every chunk holds between 1 and 1024 whole samples. *)
Theorem kokoro_events_in_format post (event : Event) (self : Kokoro.Handler) :
  Forall kokoro_audio (written (trace (Kokoro.handle_event post event self))).
Proof.
  destruct event; try (repeat constructor).
  rewrite kokoro_synthesize_full_run. cbn [trace written].
  rewrite written_map_emit. constructor; [reflexivity|].
  apply reply_events_audio.
Qed.

(** X5.  When the API cannot be reached or answers with an error status,
    its body is not read: the events written are [AudioStart],
    [AudioStart], [AudioStop]. *)
Theorem kokoro_api_error post (self : Kokoro.Handler) text voice speed :
  match post (Kokoro.endpoint_of self) (Kokoro.payload_of self text) with
  | inl _ => True
  | inr r => Kokoro.status_ok r = false
  end ->
  written (trace (Kokoro.handle_event post (Synthesize text voice speed) self))
    = [start_event; start_event; AudioStop].
Proof.
  intros H. rewrite kokoro_synthesize_full_run. cbn [trace written].
  rewrite written_map_emit.
  destruct (post (Kokoro.endpoint_of self) (Kokoro.payload_of self text)) as [e|r];
    cbn [reply_events]; [reflexivity|].
  rewrite H. reflexivity.
Qed.

Lemma kokoro_api_error_witness :
  written (trace (Kokoro.handle_event
                    (fun _ _ => inr {| Kokoro.status_ok := false;
                                       Kokoro.items := [Scenario.zeros 512];
                                       Kokoro.stream_error := None |})
                    Scenario.hi Scenario.kokoro))
    = [start_event; start_event; AudioStop].
Proof.
  apply (kokoro_api_error
           (fun _ _ => inr {| Kokoro.status_ok := false;
                              Kokoro.items := [Scenario.zeros 512];
                              Kokoro.stream_error := None |})
           Scenario.kokoro "hi" (Some "v1") (Some (f32_of_Z 1))).
  reflexivity.
Defined.

(** ** Kokoro: the base URL *)

Lemma append_nil_l (s : string) : String.append "" s = s.
Proof. reflexivity. Qed.

Lemma append_cons (c : ascii) (s t : string) :
  String.append (String c s) t = String c (String.append s t).
Proof. reflexivity. Qed.

Lemma rstrip_slash_app_slash (s : string) :
  Kokoro.rstrip_slash (String.append s "/") = Kokoro.rstrip_slash s.
Proof.
  induction s as [|c s IH]; [reflexivity|].
  rewrite append_cons. cbn [Kokoro.rstrip_slash]. rewrite IH. reflexivity.
Qed.

Lemma rstrip_slash_no_slash (s : string) :
  ends_with_slash (Kokoro.rstrip_slash s) = false.
Proof.
  induction s as [|c s IH]; [reflexivity|].
  cbn [Kokoro.rstrip_slash].
  destruct (Kokoro.rstrip_slash s) as [|d t] eqn:E.
  - destruct (Ascii.eqb c "/") eqn:Ec; [reflexivity|].
    cbn [ends_with_slash]. exact Ec.
  - cbn [ends_with_slash] in *. exact IH.
Qed.

Lemma rstrip_slash_slashes (s : string) :
  exists n, s = String.append (Kokoro.rstrip_slash s) (slashes n).
Proof.
  induction s as [|c s [n IH]]; [exists 0%nat; reflexivity|].
  cbn [Kokoro.rstrip_slash].
  destruct (Kokoro.rstrip_slash s) as [|d t] eqn:E.
  - destruct (Ascii.eqb c "/") eqn:Ec.
    + apply Ascii.eqb_eq in Ec. subst c. exists (S n).
      cbn [slashes]. rewrite append_nil_l in *. congruence.
    + exists n. rewrite append_cons, append_nil_l in *. congruence.
  - exists n. rewrite !append_cons in *. congruence.
Qed.

(** X6.  Trailing slashes of the base URL do not matter: [__init__] removes
    all of them and nothing else. *)
Theorem kokoro_base_url_slashes info (url voice : string) (speed timeout : f32) :
  Kokoro.__init__ info (String.append url "/") voice speed timeout
    = Kokoro.__init__ info url voice speed timeout
  /\ ends_with_slash (Kokoro.api_url (Kokoro.__init__ info url voice speed timeout)) = false
  /\ exists n,
       url = String.append (Kokoro.api_url (Kokoro.__init__ info url voice speed timeout))
               (slashes n).
Proof.
  unfold Kokoro.__init__. cbn [Kokoro.api_url].
  rewrite rstrip_slash_app_slash. split; [reflexivity|].
  split; [apply rstrip_slash_no_slash | apply rstrip_slash_slashes].
Qed.

(** ** Kokoro: items that are whole chunks *)

(** X7.  Items of whole samples, at most 1024 of them each, are written as
    they arrive, one chunk for one item. *)
Theorem kokoro_items_pass_through post (self : Kokoro.Handler) text voice speed
    (r : Kokoro.Response) :
  post (Kokoro.endpoint_of self) (Kokoro.payload_of self text) = inr r ->
  Kokoro.status_ok r = true ->
  Kokoro.stream_error r = None ->
  Forall chunk_ok (Kokoro.items r) ->
  written (trace (Kokoro.handle_event post (Synthesize text voice speed) self))
    = start_event :: map chunk_event (Kokoro.items r) ++ [AudioStop].
Proof.
  intros Hpost Hok Herr Hall.
  rewrite (synthesize_run _ _ _ _ _ r Hpost Hok), Herr.
  rewrite (push_all_whole_chunks self _ Hall). cbn [app written fst trace].
  rewrite written_app, written_map_emit. reflexivity.
Qed.

Lemma kokoro_items_pass_through_witness :
  let its := [Scenario.zeros 512; Scenario.zeros 512; Scenario.zeros 28] in
  written (trace (Kokoro.handle_event (Scenario.api its None) Scenario.hi Scenario.kokoro))
    = start_event :: map chunk_event its ++ [AudioStop].
Proof.
  cbv zeta.
  apply (kokoro_items_pass_through
           (Scenario.api [Scenario.zeros 512; Scenario.zeros 512; Scenario.zeros 28] None)
           Scenario.kokoro "hi" (Some "v1") (Some (f32_of_Z 1))
           {| Kokoro.status_ok := true;
              Kokoro.items := [Scenario.zeros 512; Scenario.zeros 512; Scenario.zeros 28];
              Kokoro.stream_error := None |}).
  - reflexivity.
  - reflexivity.
  - reflexivity.
  - repeat constructor; vm_compute; congruence.
Defined.

(** ** Kokoro: the sizes of the chunks *)

Lemma reframe_sizes (n : nat) : forall b : bytes,
  (length b <= n)%nat ->
  map len (fst (reframe b))
    = repeat 2048 (Z.to_nat (len b / 2048))
      ++ (if 2 <=? len b mod 2048 then [len b mod 2048 - len b mod 2] else [])
  /\ len (snd (reframe b)) = len b mod 2.
Proof.
  induction n as [|n IH]; intros b Hn.
  - destruct b; [|cbn in Hn; lia]. split; reflexivity.
  - pose proof (len_nonneg b) as H0.
    destruct (Z_lt_le_dec (len b) 2) as [Hsmall|Hbig].
    + rewrite (reframe_small b Hsmall). cbn [fst snd map].
      rewrite (Z.div_small (len b) 2048), (Z.mod_small (len b) 2048),
        (Z.mod_small (len b) 2) by lia.
      destruct (2 <=? len b) eqn:E; [apply Z.leb_le in E; lia|].
      split; reflexivity.
    + destruct (Z_lt_le_dec (len b) 2048) as [Hone|Hmany].
      * rewrite (reframe_step b Hbig). cbn [fst snd map].
        assert (Hcs : Z.of_nat (cut_size b) = len b - len b mod 2).
        { unfold cut_size. rewrite Z2Nat.id by (clear - H0; Z.to_euclidean_division_equations; lia).
          clear - H0 Hone. Z.to_euclidean_division_equations. lia. }
        assert (Hrest : len (drop (cut_size b) b) = len b mod 2).
        { rewrite <- (Nat2Z.id (cut_size b)), len_drop; [lia|].
          clear - H0 Hcs. Z.to_euclidean_division_equations. lia. }
        assert (Htake : len (take (cut_size b) b) = len b - len b mod 2).
        { rewrite <- (Nat2Z.id (cut_size b)), len_take; [lia|].
          clear - H0 Hcs. Z.to_euclidean_division_equations. lia. }
        rewrite (reframe_small (drop (cut_size b) b))
          by (rewrite Hrest; clear; Z.to_euclidean_division_equations; lia).
        cbn [fst snd map]. rewrite Htake, Hrest.
        rewrite (Z.div_small (len b) 2048), (Z.mod_small (len b) 2048) by lia.
        destruct (2 <=? len b) eqn:E; [|apply Z.leb_gt in E; lia].
        split; reflexivity.
      * rewrite (reframe_big b Hmany). cbn [fst snd map].
        assert (Hd : len (drop (Z.to_nat 2048) b) = len b - 2048)
          by (apply len_drop; lia).
        destruct (IH (drop (Z.to_nat 2048) b)) as (IH1 & IH2).
        { unfold len in Hd. lia. }
        rewrite IH1, IH2, Hd, len_take by lia.
        replace ((len b - 2048) mod 2048) with (len b mod 2048)
          by (clear; Z.to_euclidean_division_equations; lia).
        replace ((len b - 2048) mod 2) with (len b mod 2)
          by (clear; Z.to_euclidean_division_equations; lia).
        replace (Z.to_nat (len b / 2048)) with (S (Z.to_nat ((len b - 2048) / 2048)))
          by (clear - Hmany; Z.to_euclidean_division_equations; lia).
        split; reflexivity.
Qed.

(** X8.  The sizes of the chunks that one item gives: as many chunks of
    2048 bytes as fit, then one chunk with the whole samples that remain,
    and at most one byte kept for the next item. *)
Theorem kokoro_chunk_sizes (self : Kokoro.Handler) (buffer chunk : bytes) :
  let n := len buffer + len chunk in
  map len (fst (Kokoro.push self buffer chunk))
    = repeat 2048 (Z.to_nat (n / 2048))
      ++ (if 2 <=? n mod 2048 then [n mod 2048 - n mod 2] else [])
  /\ len (snd (Kokoro.push self buffer chunk)) = n mod 2.
Proof.
  cbv zeta. rewrite push_reframe, <- len_app.
  apply (reframe_sizes (length (buffer ++ chunk))). lia.
Qed.

(** ** Moonshine: sessions *)

Module MoonshineSession.
Import Moonshine MoonshineSteps MoonshineFacts.

Section Env.
Variable ctor : string -> nat -> exn + Model.
Variable librosa : option Resampler.

Lemma moonshine_describe_run (s : State) :
  handle_event ctor librosa Describe s
    = mkRun [Emit (Info_event (wyoming_info (self s)))] s (inr true).
Proof. reflexivity. Qed.

(** Every event is handled without an exception, with [True], and leaves
    the configuration of the handler as it was. *)
Lemma moonshine_handle_event_total (e : Event) (s : State) :
  outcome (handle_event ctor librosa e s) = inr true
  /\ wyoming_info (self (final (handle_event ctor librosa e s))) = wyoming_info (self s)
  /\ model_name (self (final (handle_event ctor librosa e s))) = model_name (self s).
Proof.
  destruct e; try (repeat split; reflexivity).
  - rewrite moonshine_chunk_run. cbn [outcome final].
    destruct (audio_buffer (self s)); repeat split.
  - destruct (moonshine_audio_stop_total ctor librosa s) as (Ho & Hs & _).
    rewrite Hs. repeat split. exact Ho.
Qed.

Lemma moonshine_events_step (e : Event) (es : list Event) (s : State) :
  handle_events ctor librosa (e :: es) s =
    mkRun (trace (handle_event ctor librosa e s)
           ++ trace (handle_events ctor librosa es (final (handle_event ctor librosa e s))))
          (final (handle_events ctor librosa es (final (handle_event ctor librosa e s))))
          (outcome (handle_events ctor librosa es (final (handle_event ctor librosa e s)))).
Proof.
  cbn [handle_events]. unfold bind.
  destruct (moonshine_handle_event_total e s) as (Ho & _).
  destruct (handle_event ctor librosa e s) as [t s' o]. cbn [outcome] in Ho. subst o.
  cbn [trace final]. destruct (handle_events ctor librosa es s'); reflexivity.
Qed.

Lemma moonshine_events_app (es1 : list Event) : forall (es2 : list Event) (s : State),
  handle_events ctor librosa (es1 ++ es2) s =
    mkRun (trace (handle_events ctor librosa es1 s)
           ++ trace (handle_events ctor librosa es2 (final (handle_events ctor librosa es1 s))))
          (final (handle_events ctor librosa es2 (final (handle_events ctor librosa es1 s))))
          (outcome (handle_events ctor librosa es2 (final (handle_events ctor librosa es1 s)))).
Proof.
  induction es1 as [|e es1 IH]; intros es2 s.
  - cbn. destruct (handle_events ctor librosa es2 s); reflexivity.
  - cbn [app]. rewrite !moonshine_events_step, IH. cbn [trace final outcome].
    now rewrite app_assoc.
Qed.

Lemma moonshine_events_total (es : list Event) : forall s : State,
  outcome (handle_events ctor librosa es s) = inr true
  /\ wyoming_info (self (final (handle_events ctor librosa es s))) = wyoming_info (self s)
  /\ model_name (self (final (handle_events ctor librosa es s))) = model_name (self s).
Proof.
  induction es as [|e es IH]; intros s; [repeat split|].
  rewrite moonshine_events_step. cbn [outcome final].
  destruct (moonshine_handle_event_total e s) as (_ & Hi & Hn).
  destruct (IH (final (handle_event ctor librosa e s))) as (Ho & Hi' & Hn').
  repeat split; congruence.
Qed.

Lemma moonshine_chunks_buffer (es : list Event) : forall s : State,
  all_chunks es ->
  trace (handle_events ctor librosa es s) = []
  /\ audio_buffer (self (final (handle_events ctor librosa es s)))
     = audio_buffer (self s) ++ concat (payloads es)
  /\ _model_cache (final (handle_events ctor librosa es s)) = _model_cache s
  /\ attempts (final (handle_events ctor librosa es s)) = attempts s.
Proof.
  induction es as [|e es IH]; intros s Hall.
  - cbn. rewrite app_nil_r. repeat split.
  - inversion Hall as [|? ? He Hall']; subst.
    destruct e; try discriminate.
    rewrite moonshine_events_step, moonshine_chunk_run. cbn [trace final app].
    destruct (IH (set_self
                    (set_audio_buffer (audio_buffer (self s) ++ audio)
                       match audio_buffer (self s) with
                       | [] => set_format rate width channels (self s)
                       | _ :: _ => self s
                       end) s) Hall') as (Ht & Hb & Hc & Ha).
    rewrite Ht, Hb, Hc, Ha. cbn. rewrite <- app_assoc. repeat split.
Qed.
End Env.
End MoonshineSession.

(** ** Voxtral: sessions *)

Module VoxtralSession.
Import Voxtral VoxtralSteps VoxtralFacts.

Section Env.
Variable ctor : string -> f32 -> nat -> exn + LLM.
Variable librosa : option Resampler.

Lemma voxtral_load_llm_config (s : State) :
  voxtral_config (self (final (load_llm ctor s))) = voxtral_config (self s).
Proof.
  unfold load_llm, bind at 1. cbn [get].
  destruct (llm (self s)) as [l|]; [reflexivity|].
  unfold bind. rewrite voxtral_get_vllm_model_run.
  destruct (_llm_cache s) as [l|].
  - cbn. unfold locked. destruct (_model_lock s); reflexivity.
  - destruct (ctor _ _ _) as [e|l]; cbn; unfold locked;
      destruct (_model_lock s); reflexivity.
Qed.

Lemma voxtral_transcribe_buffer_final (s : State) :
  final (transcribe_buffer librosa s) = s.
Proof.
  rewrite voxtral_transcribe_buffer_run.
  destruct (len (audio_buffer (self s)) mod 2 =? 0); [|reflexivity].
  destruct (voxtral_transcribe_sync_total librosa
              (Np.to_float (Np.int16_items (audio_buffer (self s))))
              (sample_rate (self s)) s) as (t & text & Ht & _).
  rewrite Ht. reflexivity.
Qed.

Lemma voxtral_audio_stop_config (s : State) :
  voxtral_config (self (final (handle_event ctor librosa AudioStop s)))
    = voxtral_config (self s).
Proof.
  rewrite voxtral_handle_audio_stop_run, voxtral_audio_stop_body_split. unfold bind.
  pose proof (voxtral_load_llm_config s) as Hc.
  destruct (load_llm ctor s) as [t s' [e|[]]]; cbn [final] in *; [exact Hc|].
  pose proof (voxtral_transcribe_buffer_final s') as Hf.
  destruct (transcribe_buffer librosa s') as [t' s'' [e|[]]]; cbn [final] in *;
    subst s''; exact Hc.
Qed.

Lemma voxtral_describe_run (s : State) :
  handle_event ctor librosa Describe s
    = mkRun [Emit (Info_event (wyoming_info (self s)))] s (inr true).
Proof. reflexivity. Qed.

Lemma voxtral_handle_event_total (e : Event) (s : State) :
  outcome (handle_event ctor librosa e s) = inr true
  /\ voxtral_config (self (final (handle_event ctor librosa e s)))
     = voxtral_config (self s).
Proof.
  destruct e; try (repeat split; reflexivity).
  - rewrite voxtral_chunk_run. cbn [outcome final].
    destruct (audio_buffer (self s)); repeat split.
  - destruct (voxtral_audio_stop_total ctor librosa s) as (Ho & _).
    split; [exact Ho | apply voxtral_audio_stop_config].
Qed.

Lemma voxtral_events_step (e : Event) (es : list Event) (s : State) :
  handle_events ctor librosa (e :: es) s =
    mkRun (trace (handle_event ctor librosa e s)
           ++ trace (handle_events ctor librosa es (final (handle_event ctor librosa e s))))
          (final (handle_events ctor librosa es (final (handle_event ctor librosa e s))))
          (outcome (handle_events ctor librosa es (final (handle_event ctor librosa e s)))).
Proof.
  cbn [handle_events]. unfold bind.
  destruct (voxtral_handle_event_total e s) as (Ho & _).
  destruct (handle_event ctor librosa e s) as [t s' o]. cbn [outcome] in Ho. subst o.
  cbn [trace final]. destruct (handle_events ctor librosa es s'); reflexivity.
Qed.

Lemma voxtral_events_app (es1 : list Event) : forall (es2 : list Event) (s : State),
  handle_events ctor librosa (es1 ++ es2) s =
    mkRun (trace (handle_events ctor librosa es1 s)
           ++ trace (handle_events ctor librosa es2 (final (handle_events ctor librosa es1 s))))
          (final (handle_events ctor librosa es2 (final (handle_events ctor librosa es1 s))))
          (outcome (handle_events ctor librosa es2 (final (handle_events ctor librosa es1 s)))).
Proof.
  induction es1 as [|e es1 IH]; intros es2 s.
  - cbn. destruct (handle_events ctor librosa es2 s); reflexivity.
  - cbn [app]. rewrite !voxtral_events_step, IH. cbn [trace final outcome].
    now rewrite app_assoc.
Qed.

Lemma voxtral_events_total (es : list Event) : forall s : State,
  outcome (handle_events ctor librosa es s) = inr true
  /\ voxtral_config (self (final (handle_events ctor librosa es s)))
     = voxtral_config (self s).
Proof.
  induction es as [|e es IH]; intros s; [repeat split|].
  rewrite voxtral_events_step. cbn [outcome final].
  destruct (voxtral_handle_event_total e s) as (_ & Hc).
  destruct (IH (final (handle_event ctor librosa e s))) as (Ho & Hc').
  split; congruence.
Qed.

Lemma voxtral_chunks_buffer (es : list Event) : forall s : State,
  all_chunks es ->
  trace (handle_events ctor librosa es s) = []
  /\ audio_buffer (self (final (handle_events ctor librosa es s)))
     = audio_buffer (self s) ++ concat (payloads es).
Proof.
  induction es as [|e es IH]; intros s Hall.
  - cbn. rewrite app_nil_r. repeat split.
  - inversion Hall as [|? ? He Hall']; subst.
    destruct e; try discriminate.
    rewrite voxtral_events_step, voxtral_chunk_run. cbn [trace final app].
    destruct (IH (set_self
                    (set_audio_buffer (audio_buffer (self s) ++ audio)
                       match audio_buffer (self s) with
                       | [] => set_format rate width channels (self s)
                       | _ :: _ => self s
                       end) s) Hall') as (Ht & Hb).
    rewrite Ht, Hb. cbn. rewrite <- app_assoc. repeat split.
Qed.
End Env.
End VoxtralSession.

(** ** Sessions of the speech-to-text handlers *)

Lemma constructed_app (t1 t2 : list Effect) :
  constructed (t1 ++ t2) = constructed t1 ++ constructed t2.
Proof.
  induction t1 as [|e t1 IH]; simpl; [reflexivity|].
  destruct e; simpl; now rewrite ?IH.
Qed.

Lemma moonshine_event_answers ctor librosa (e : Event) (s : Moonshine.State) :
  let w := written (trace (Moonshine.handle_event ctor librosa e s)) in
  count_events is_transcript w = (if is_audio_stop e then 1 else 0)%nat
  /\ count_events is_info w = (if is_describe e then 1 else 0)%nat
  /\ length w = ((if is_audio_stop e then 1 else 0) + (if is_describe e then 1 else 0))%nat.
Proof.
  cbv zeta. destruct e; try (repeat split; reflexivity).
  - rewrite MoonshineFacts.moonshine_chunk_run. repeat split.
  - destruct (MoonshineFacts.moonshine_audio_stop_total ctor librosa s)
      as (_ & _ & text & Hw & _).
    rewrite Hw. repeat split.
Qed.

Lemma voxtral_event_answers ctor librosa (e : Event) (s : Voxtral.State) :
  let w := written (trace (Voxtral.handle_event ctor librosa e s)) in
  count_events is_transcript w = (if is_audio_stop e then 1 else 0)%nat
  /\ count_events is_info w = (if is_describe e then 1 else 0)%nat
  /\ length w = ((if is_audio_stop e then 1 else 0) + (if is_describe e then 1 else 0))%nat.
Proof.
  cbv zeta. destruct e; try (repeat split; reflexivity).
  - rewrite VoxtralFacts.voxtral_chunk_run. repeat split.
  - destruct (VoxtralFacts.voxtral_audio_stop_total ctor librosa s)
      as (_ & _ & text & Hw & _).
    rewrite Hw. repeat split.
Qed.

Lemma count_events_cons (p : Event -> bool) (e : Event) (es : list Event) :
  count_events p (e :: es) = ((if p e then 1 else 0) + count_events p es)%nat.
Proof. unfold count_events. cbn [List.filter]. destruct (p e); reflexivity. Qed.

(** X9.  Every request gets exactly one answer: over the events of a
    connection, one [Transcript] is written for each [AudioStop], one [Info]
    for each [Describe], and nothing else is written. *)
Theorem stt_one_answer_per_request :
  (forall ctor librosa (events : list Event) (s : Moonshine.State),
     let r := Moonshine.handle_events ctor librosa events s in
     count_events is_transcript (written (trace r)) = count_events is_audio_stop events
     /\ count_events is_info (written (trace r)) = count_events is_describe events
     /\ length (written (trace r))
        = (count_events is_audio_stop events + count_events is_describe events)%nat)
  /\
  (forall ctor librosa (events : list Event) (s : Voxtral.State),
     let r := Voxtral.handle_events ctor librosa events s in
     count_events is_transcript (written (trace r)) = count_events is_audio_stop events
     /\ count_events is_info (written (trace r)) = count_events is_describe events
     /\ length (written (trace r))
        = (count_events is_audio_stop events + count_events is_describe events)%nat).
Proof.
  split; intros ctor librosa events; cbv zeta.
  - induction events as [|e es IH]; intros s; [repeat split|].
    rewrite MoonshineSession.moonshine_events_step. cbn [trace].
    destruct (IH (final (Moonshine.handle_event ctor librosa e s))) as (Ht & Hi & Hl).
    destruct (moonshine_event_answers ctor librosa e s) as (Et & Ei & El).
    rewrite written_app, !count_events_app, length_app, !count_events_cons.
    rewrite Ht, Hi, Hl, Et, Ei, El. repeat split; lia.
  - induction events as [|e es IH]; intros s; [repeat split|].
    rewrite VoxtralSession.voxtral_events_step. cbn [trace].
    destruct (IH (final (Voxtral.handle_event ctor librosa e s))) as (Ht & Hi & Hl).
    destruct (voxtral_event_answers ctor librosa e s) as (Et & Ei & El).
    rewrite written_app, !count_events_app, length_app, !count_events_cons.
    rewrite Ht, Hi, Hl, Et, Ei, El. repeat split; lia.
Qed.

(** X10.  [Describe] in the middle of a session changes nothing but the
    events written: the [Info] of the handler appears at that place, and
    the rest of the run is that of the session without it. *)
Theorem stt_describe_transparent :
  (forall ctor librosa (before after : list Event) (s : Moonshine.State),
     let r1 := Moonshine.handle_events ctor librosa before s in
     let r2 := Moonshine.handle_events ctor librosa after (final r1) in
     Moonshine.handle_events ctor librosa (before ++ Describe :: after) s
       = mkRun (trace r1
                ++ Emit (Info_event (Moonshine.wyoming_info (Moonshine.self s))) :: trace r2)
               (final r2) (inr true)
     /\ Moonshine.handle_events ctor librosa (before ++ after) s
        = mkRun (trace r1 ++ trace r2) (final r2) (inr true))
  /\
  (forall ctor librosa (before after : list Event) (s : Voxtral.State),
     let r1 := Voxtral.handle_events ctor librosa before s in
     let r2 := Voxtral.handle_events ctor librosa after (final r1) in
     Voxtral.handle_events ctor librosa (before ++ Describe :: after) s
       = mkRun (trace r1
                ++ Emit (Info_event (Voxtral.wyoming_info (Voxtral.self s))) :: trace r2)
               (final r2) (inr true)
     /\ Voxtral.handle_events ctor librosa (before ++ after) s
        = mkRun (trace r1 ++ trace r2) (final r2) (inr true)).
Proof.
  split; intros ctor librosa before after s; cbv zeta.
  - rewrite !MoonshineSession.moonshine_events_app.
    rewrite MoonshineSession.moonshine_events_step, MoonshineSession.moonshine_describe_run.
    cbn [trace final outcome app].
    destruct (MoonshineSession.moonshine_events_total ctor librosa before s) as (_ & Hi & _).
    destruct (MoonshineSession.moonshine_events_total ctor librosa after
                (final (Moonshine.handle_events ctor librosa before s))) as (Ho & _).
    rewrite Hi, Ho. split; reflexivity.
  - rewrite !VoxtralSession.voxtral_events_app.
    rewrite VoxtralSession.voxtral_events_step, VoxtralSession.voxtral_describe_run.
    cbn [trace final outcome app].
    destruct (VoxtralSession.voxtral_events_total ctor librosa before s) as (_ & Hc).
    destruct (VoxtralSession.voxtral_events_total ctor librosa after
                (final (Voxtral.handle_events ctor librosa before s))) as (Ho & _).
    assert (Hi : Voxtral.wyoming_info
                   (Voxtral.self (final (Voxtral.handle_events ctor librosa before s)))
                 = Voxtral.wyoming_info (Voxtral.self s))
      by (unfold voxtral_config in Hc; congruence).
    rewrite Hi, Ho. split; reflexivity.
Qed.

(** X11.  Only [Transcribe] empties the buffer: chunks that come after an
    [AudioStop] are appended to the audio already transcribed; after a
    [Transcribe] the buffer holds the later chunks alone. *)
Theorem stt_audio_kept_until_transcribe :
  (forall ctor librosa (first second : list Event) language (s : Moonshine.State),
     all_chunks first -> all_chunks second ->
     Moonshine.audio_buffer (Moonshine.self (final
       (Moonshine.handle_events ctor librosa (first ++ AudioStop :: second) s)))
     = Moonshine.audio_buffer (Moonshine.self s)
       ++ concat (payloads first) ++ concat (payloads second)
     /\ Moonshine.audio_buffer (Moonshine.self (final
          (Moonshine.handle_events ctor librosa
             (first ++ AudioStop :: Transcribe language :: second) s)))
        = concat (payloads second))
  /\
  (forall ctor librosa (first second : list Event) language (s : Voxtral.State),
     all_chunks first -> all_chunks second ->
     Voxtral.audio_buffer (Voxtral.self (final
       (Voxtral.handle_events ctor librosa (first ++ AudioStop :: second) s)))
     = Voxtral.audio_buffer (Voxtral.self s)
       ++ concat (payloads first) ++ concat (payloads second)
     /\ Voxtral.audio_buffer (Voxtral.self (final
          (Voxtral.handle_events ctor librosa
             (first ++ AudioStop :: Transcribe language :: second) s)))
        = concat (payloads second)).
Proof.
  split; intros ctor librosa first second language s H1 H2.
  - rewrite !MoonshineSession.moonshine_events_app. cbn [final].
    rewrite !MoonshineSession.moonshine_events_step. cbn [final].
    destruct (MoonshineSession.moonshine_chunks_buffer ctor librosa first s H1) as (_ & Hb & _).
    set (s1 := final (Moonshine.handle_events ctor librosa first s)) in *.
    destruct (MoonshineFacts.moonshine_audio_stop_total ctor librosa s1) as (_ & Hs & _).
    set (s2 := final (Moonshine.handle_event ctor librosa AudioStop s1)) in *.
    split.
    + destruct (MoonshineSession.moonshine_chunks_buffer ctor librosa second s2 H2)
        as (_ & Hb2 & _).
      rewrite Hb2, Hs, Hb, <- app_assoc. reflexivity.
    + rewrite MoonshineFacts.moonshine_transcribe_run. cbn [final].
      destruct (MoonshineSession.moonshine_chunks_buffer ctor librosa second
                  (Moonshine.set_self
                     (Moonshine.set_format 16000
                        (Moonshine.audio_width (Moonshine.self s2))
                        (Moonshine.audio_channels (Moonshine.self s2))
                        (Moonshine.set_audio_buffer [] (Moonshine.self s2))) s2) H2)
        as (_ & Hb2 & _).
      rewrite Hb2. reflexivity.
  - rewrite !VoxtralSession.voxtral_events_app. cbn [final].
    rewrite !VoxtralSession.voxtral_events_step. cbn [final].
    destruct (VoxtralSession.voxtral_chunks_buffer ctor librosa first s H1) as (_ & Hb).
    set (s1 := final (Voxtral.handle_events ctor librosa first s)) in *.
    destruct (VoxtralFacts.voxtral_audio_stop_total ctor librosa s1) as (_ & Hs & _).
    set (s2 := final (Voxtral.handle_event ctor librosa AudioStop s1)) in *.
    assert (Hs' : Voxtral.audio_buffer (Voxtral.self s2)
                  = Voxtral.audio_buffer (Voxtral.self s1))
      by (unfold VoxtralSteps.audio_fields in Hs; congruence).
    split.
    + destruct (VoxtralSession.voxtral_chunks_buffer ctor librosa second s2 H2) as (_ & Hb2).
      rewrite Hb2, Hs', Hb, <- app_assoc. reflexivity.
    + rewrite VoxtralFacts.voxtral_transcribe_run. cbn [final].
      destruct (VoxtralSession.voxtral_chunks_buffer ctor librosa second
                  (Voxtral.set_self
                     (Voxtral.set_format 16000
                        (Voxtral.audio_width (Voxtral.self s2))
                        (Voxtral.audio_channels (Voxtral.self s2))
                        (Voxtral.set_audio_buffer [] (Voxtral.self s2))) s2) H2)
        as (_ & Hb2).
      rewrite Hb2. reflexivity.
Qed.

Lemma stt_audio_kept_until_transcribe_witness :
  let first := [AudioChunk (Scenario.zeros 4) 16000 2 1] in
  let second := [AudioChunk [x01; x02] 16000 2 1] in
  Moonshine.audio_buffer (Moonshine.self (final
    (Moonshine.handle_events (Scenario.loads Scenario.hello) None
       (first ++ AudioStop :: second) Scenario.moonshine)))
  = Moonshine.audio_buffer (Moonshine.self Scenario.moonshine)
    ++ concat (payloads first) ++ concat (payloads second)
  /\ Voxtral.audio_buffer (Voxtral.self (final
       (Voxtral.handle_events (Scenario.loads_llm Scenario.hello_llm) None
          (first ++ AudioStop :: Transcribe None :: second) Scenario.voxtral)))
     = concat (payloads second).
Proof.
  cbv zeta. destruct stt_audio_kept_until_transcribe as (HM & HV). split.
  - apply (HM (Scenario.loads Scenario.hello) None _ _ None Scenario.moonshine);
      repeat constructor.
  - apply (HV (Scenario.loads_llm Scenario.hello_llm) None _ _ None Scenario.voxtral);
      repeat constructor.
Defined.

(** ** Moonshine: the model cache over a session *)

Module MoonshineCache.
Import Moonshine MoonshineSteps MoonshineFacts.

Section Env.
Variable ctor : string -> nat -> exn + Model.
Variable librosa : option Resampler.

Lemma moonshine_resample_constructed (rate : Z) (a : list f32) (s : State) :
  constructed (trace (resample librosa rate a s)) = [].
Proof.
  unfold resample. destruct (negb (rate =? 16000)); [|reflexivity].
  unfold catch, bind, tell. destruct librosa as [f|]; [|reflexivity].
  destruct (f a rate 16000) as [e|a']; [destruct e|]; reflexivity.
Qed.

Lemma moonshine_prepare_constructed (s : State) :
  constructed (trace (prepare librosa s)) = [].
Proof.
  unfold prepare, bind at 1. cbn [get].
  unfold bind at 1. rewrite np_frombuffer_run.
  destruct (len (audio_buffer (self s)) mod 2 =? 0); [|reflexivity].
  unfold bind.
  destruct (moonshine_downmix_run (audio_channels (self s))
              (Np.to_float (Np.int16_items (audio_buffer (self s)))) s) as [o Ho].
  rewrite Ho. destruct o as [e|a]; [reflexivity|].
  pose proof (moonshine_resample_constructed (sample_rate (self s)) a s) as Hc.
  destruct (resample librosa (sample_rate (self s)) a s) as [t s' o].
  cbn [trace] in *. exact Hc.
Qed.

(** The run of the [AudioStop] branch, from the run of the conversions and
    the run of [_transcribe_sync]. *)
Lemma moonshine_audio_stop_shape (s : State) :
  handle_event ctor librosa AudioStop s =
    match outcome (prepare librosa s) with
    | inl _ => mkRun (trace (prepare librosa s) ++ [Emit (Transcript "")]) s (inr true)
    | inr audio =>
        let r := _transcribe_sync ctor audio s in
        mkRun (trace (prepare librosa s) ++ trace r
               ++ [Emit (Transcript (match outcome r with inr text => text | inl _ => "" end))])
              (final r) (inr true)
    end.
Proof.
  rewrite moonshine_handle_audio_stop_run, moonshine_audio_stop_body_run.
  destruct (moonshine_prepare_run librosa s) as (t & o & Hp & _). rewrite Hp.
  cbn [outcome trace]. destruct o as [e|audio]; [reflexivity|].
  cbv zeta.
  destruct (moonshine_transcribe_sync_total ctor audio s) as (t' & s' & text & Ht & _).
  rewrite Ht. reflexivity.
Qed.

(** What a call to [get_model] does to the state of the process. *)
Lemma moonshine_get_model_frame (name : string) (s : State) :
  let r := get_model ctor name s in
  self (final r) = self s
  /\ (forall n m, _model_cache s !! n = Some m -> _model_cache (final r) !! n = Some m)
  /\ (forall n, n <> name -> _model_cache (final r) !! n = _model_cache s !! n)
  /\ constructed (trace r)
     = (match _model_cache s !! name with Some _ => [] | None => [name] end)
  /\ attempts (final r) = (attempts s + length (constructed (trace r)))%nat
  /\ (forall m, outcome r = inr m -> _model_cache (final r) !! name = Some m).
Proof.
  cbv zeta. rewrite moonshine_get_model_run.
  destruct (_model_cache s !! name) as [m|] eqn:Hc.
  - cbn. repeat split; auto; try lia. intros m' [= <-]. exact Hc.
  - destruct (ctor name (attempts s)) as [e|m]; cbn.
    + repeat split; auto; try lia. discriminate.
    + repeat split; auto; try lia.
      * intros n m' Hn. destruct (decide (n = name)) as [->|Hne]; [congruence|].
        now rewrite lookup_insert_ne by congruence.
      * intros n Hne. now rewrite lookup_insert_ne by congruence.
      * intros m' [= <-]. now rewrite lookup_insert_eq.
Qed.

Lemma moonshine_transcribe_sync_frame (audio : list f32) (s : State) :
  let r := _transcribe_sync ctor audio s in
  (forall n m, _model_cache s !! n = Some m -> _model_cache (final r) !! n = Some m)
  /\ (forall n, n <> model_name (self s) ->
        _model_cache (final r) !! n = _model_cache s !! n)
  /\ constructed (trace r)
     = (match _model_cache s !! model_name (self s) with
        | Some _ => []
        | None => [model_name (self s)]
        end)
  /\ attempts (final r) = (attempts s + length (constructed (trace r)))%nat.
Proof.
  cbv zeta. rewrite moonshine_transcribe_sync_run.
  destruct (moonshine_get_model_frame (model_name (self s)) s)
    as (_ & Hmono & Hframe & Hcons & Hatt & _).
  destruct (get_model ctor (model_name (self s)) s) as [t s' [e|model]];
    cbn [trace final outcome] in *.
  - repeat split; assumption.
  - destruct (generate model audio); cbn [trace final];
      rewrite constructed_app; cbn [constructed]; rewrite app_nil_r;
      repeat split; assumption.
Qed.

Lemma moonshine_event_cache (e : Event) (s : State) :
  let r := handle_event ctor librosa e s in
  (forall n m, _model_cache s !! n = Some m -> _model_cache (final r) !! n = Some m)
  /\ (forall n, n <> model_name (self s) ->
        _model_cache (final r) !! n = _model_cache s !! n)
  /\ Forall (fun n => n = model_name (self s)) (constructed (trace r))
  /\ (is_Some (_model_cache s !! model_name (self s)) -> constructed (trace r) = [])
  /\ attempts (final r) = (attempts s + length (constructed (trace r)))%nat.
Proof.
  cbv zeta.
  destruct e; try (cbn; repeat split; auto; lia).
  - rewrite moonshine_chunk_run. cbn. repeat split; auto; lia.
  - rewrite moonshine_audio_stop_shape.
    pose proof (moonshine_prepare_constructed s) as Hp.
    destruct (outcome (prepare librosa s)) as [e|audio].
    + cbn [trace final]. rewrite constructed_app, Hp. cbn. repeat split; auto; lia.
    + cbv zeta. cbn [trace final].
      destruct (moonshine_transcribe_sync_frame audio s) as (Hmono & Hframe & Hcons & Hatt).
      rewrite !constructed_app, Hp. cbn [constructed app]. rewrite app_nil_r.
      repeat split; try assumption.
      * rewrite Hcons. destruct (_model_cache s !! model_name (self s)); repeat constructor.
      * intros [m Hm]. rewrite Hcons, Hm. reflexivity.
Qed.

(** The cache over the events of a connection. *)
Lemma moonshine_session_cache (events : list Event) : forall s : State,
  let r := handle_events ctor librosa events s in
  (forall n m, _model_cache s !! n = Some m -> _model_cache (final r) !! n = Some m)
  /\ (forall n, n <> model_name (self s) ->
        _model_cache (final r) !! n = _model_cache s !! n)
  /\ Forall (fun n => n = model_name (self s)) (constructed (trace r))
  /\ (is_Some (_model_cache s !! model_name (self s)) -> constructed (trace r) = [])
  /\ attempts (final r) = (attempts s + length (constructed (trace r)))%nat.
Proof.
  induction events as [|e es IH]; intros s; cbv zeta.
  - cbn. repeat split; auto; lia.
  - rewrite MoonshineSession.moonshine_events_step. cbn [trace final].
    destruct (moonshine_event_cache e s) as (Hm & Hf & Hc & Hn & Ha).
    destruct (MoonshineSession.moonshine_handle_event_total ctor librosa e s) as (_ & _ & Hname).
    destruct (IH (final (handle_event ctor librosa e s))) as (Hm' & Hf' & Hc' & Hn' & Ha').
    rewrite Hname in *.
    rewrite constructed_app, length_app. repeat split.
    + intros n m H. apply Hm', Hm, H.
    + intros n H. rewrite Hf', Hf by exact H. reflexivity.
    + apply Forall_app. split; assumption.
    + intros [m H]. rewrite Hn by (exists m; exact H).
      rewrite Hn'; [reflexivity|]. exists m. apply Hm, H.
    + lia.
Qed.
End Env.
End MoonshineCache.

(** X12.  Over a whole connection, the Moonshine handler keeps every cached
    model, touches no other entry of the cache than that of its own model,
    only ever constructs the model it is configured with and, once that
    model is cached, constructs nothing. *)
Theorem moonshine_cache_over_session ctor librosa (events : list Event)
    (s : Moonshine.State) :
  let r := Moonshine.handle_events ctor librosa events s in
  let name := Moonshine.model_name (Moonshine.self s) in
  (forall n m, Moonshine._model_cache s !! n = Some m ->
               Moonshine._model_cache (final r) !! n = Some m)
  /\ (forall n, n <> name ->
        Moonshine._model_cache (final r) !! n = Moonshine._model_cache s !! n)
  /\ Forall (fun n => n = name) (constructed (trace r))
  /\ (is_Some (Moonshine._model_cache s !! name) -> constructed (trace r) = [])
  /\ Moonshine.attempts (final r)
     = (Moonshine.attempts s + length (constructed (trace r)))%nat.
Proof. exact (MoonshineCache.moonshine_session_cache ctor librosa events s). Qed.

(** ** Moonshine: from the buffer to the transcript *)

Module MoonshinePath.
Import Moonshine MoonshineSteps MoonshineFacts.

Section Env.
Variable ctor : string -> nat -> exn + Model.

Lemma moonshine_transcribe_sync_available (audio : list f32) (s : State) (m : Model) :
  (_model_cache s !! model_name (self s) = Some m
   \/ (_model_cache s !! model_name (self s) = None
       /\ ctor (model_name (self s)) (attempts s) = inr m)) ->
  let r := _transcribe_sync ctor audio s in
  generated (trace r) = [audio]
  /\ resampled (trace r) = []
  /\ written (trace r) = []
  /\ outcome r = inr (match generate m audio with inr text => text | inl _ => "" end)
  /\ _model_cache (final r) !! model_name (self s) = Some m.
Proof.
  intros Hm. cbv zeta. rewrite moonshine_transcribe_sync_run, moonshine_get_model_run.
  destruct Hm as [Hc|[Hc Hk]]; rewrite Hc.
  - destruct (generate m audio); cbn; repeat split; exact Hc.
  - rewrite Hk. destruct (generate m audio); cbn; repeat split;
      now rewrite lookup_insert_eq.
Qed.
Lemma moonshine_audio_stop_from_model librosa (s : State) (m : Model) (a : list f32) :
  convertible (self s) = true ->
  outcome (resample librosa (sample_rate (self s)) (mono_audio (self s)) s) = inr a ->
  (_model_cache s !! model_name (self s) = Some m
   \/ (_model_cache s !! model_name (self s) = None
       /\ ctor (model_name (self s)) (attempts s) = inr m)) ->
  let r := handle_event ctor librosa AudioStop s in
  generated (trace r) = [a]
  /\ written (trace r)
     = [Transcript (match generate m a with inr text => text | inl _ => "" end)]
  /\ _model_cache (final r) !! model_name (self s) = Some m
  /\ self (final r) = self s
  /\ resampled (trace r)
     = (if negb (sample_rate (self s) =? 16000) then
          match librosa with Some _ => [mono_audio (self s)] | None => [] end
        else []).
Proof.
  cbv zeta. intros Hconv Hres Hm.
  destruct (moonshine_audio_stop_total ctor librosa s) as (_ & Hself & _).
  rewrite MoonshineCache.moonshine_audio_stop_shape in *.
  rewrite (moonshine_prepare_convertible librosa s Hconv) in *.
  destruct (moonshine_resample_run librosa (sample_rate (self s)) (mono_audio (self s)) s)
    as (t & o & Hr & Hw & _ & Hg & Hrs).
  rewrite Hr in *. cbn [outcome trace] in *. subst o. cbv zeta in *.
  destruct (moonshine_transcribe_sync_available a s m Hm) as (Hg' & Hrs' & Hw' & Ho & Hc).
  cbn [trace final] in *.
  rewrite !generated_app, !written_app, !resampled_app, Hg, Hw, Hg', Hw', Hrs', Ho, Hrs. cbn.
  rewrite !app_nil_r. repeat split; assumption.
Qed.
End Env.
End MoonshinePath.

(** X13.  The transcript is the answer of the model on the whole buffer:
    when the conversions succeed with audio [a] and the model is cached or
    can be constructed, the model is asked once, about [a], the
    [Transcript] carries its answer (empty when it raises), and the model
    is in the cache afterwards. *)
Theorem moonshine_transcript_from_model ctor librosa
    (s : Moonshine.State) (m : Moonshine.Model) (a : list f32) :
  let h := Moonshine.self s in
  let name := Moonshine.model_name h in
  MoonshineSteps.convertible h = true ->
  outcome (Moonshine.resample librosa (Moonshine.sample_rate h)
             (MoonshineSteps.mono_audio h) s) = inr a ->
  (Moonshine._model_cache s !! name = Some m
   \/ (Moonshine._model_cache s !! name = None
       /\ ctor name (Moonshine.attempts s) = inr m)) ->
  let r := Moonshine.handle_event ctor librosa AudioStop s in
  generated (trace r) = [a]
  /\ written (trace r)
     = [Transcript (match Moonshine.generate m a with inr text => text | inl _ => "" end)]
  /\ Moonshine._model_cache (final r) !! name = Some m
  /\ Moonshine.self (final r) = h.
Proof.
  cbv zeta. intros Hconv Hres Hm.
  destruct (MoonshinePath.moonshine_audio_stop_from_model ctor librosa s m a Hconv Hres Hm)
    as (H1 & H2 & H3 & H4 & _).
  repeat split; assumption.
Qed.

Lemma moonshine_transcript_from_model_witness :
  let r := Moonshine.handle_event (Scenario.loads Scenario.hello) None AudioStop
             (final (Moonshine.handle_events (Scenario.loads Scenario.hello) None
                       Scenario.stereo_8k Scenario.moonshine)) in
  written (trace r) = [Transcript "hello"]
  /\ length (generated (trace r)) = 1%nat.
Proof.
  cbv zeta.
  pose proof (moonshine_transcript_from_model (Scenario.loads Scenario.hello) None
                (final (Moonshine.handle_events (Scenario.loads Scenario.hello) None
                          Scenario.stereo_8k Scenario.moonshine))
                Scenario.hello
                (MoonshineSteps.mono_audio
                   (Moonshine.self
                      (final (Moonshine.handle_events (Scenario.loads Scenario.hello) None
                                Scenario.stereo_8k Scenario.moonshine))))) as H.
  cbv zeta in H.
  destruct H as (Hg & Hw & _).
  - vm_compute. reflexivity.
  - reflexivity.
  - right. split; reflexivity.
  - split; [exact Hw|]. rewrite Hg. reflexivity.
Defined.

(** X14.  An exception of the resampler.  An [ImportError] raised by
    [librosa.resample] itself is handled like a missing [librosa]; any
    other exception gives an empty [Transcript] at once, and the model is
    neither constructed nor asked. *)
Theorem moonshine_resampler_failure ctor (f : Resampler) (e : exn) (s : Moonshine.State) :
  let h := Moonshine.self s in
  MoonshineSteps.convertible h = true ->
  Moonshine.sample_rate h <> 16000 ->
  f (MoonshineSteps.mono_audio h) (Moonshine.sample_rate h) 16000 = inl e ->
  let call := Resample (MoonshineSteps.mono_audio h) (Moonshine.sample_rate h) 16000 in
  Moonshine.handle_event ctor (Some f) AudioStop s =
    match e with
    | ImportError =>
        let r := Moonshine.handle_event ctor None AudioStop s in
        mkRun (call :: trace r) (final r) (outcome r)
    | _ => mkRun [call; Emit (Transcript "")] s (inr true)
    end.
Proof.
  cbv zeta. intros Hconv Hrate Hf.
  rewrite !MoonshineCache.moonshine_audio_stop_shape.
  rewrite !(MoonshineFacts.moonshine_prepare_convertible _ s Hconv).
  unfold Moonshine.resample.
  assert (Hr : negb (Moonshine.sample_rate (Moonshine.self s) =? 16000) = true).
  { apply negb_true_iff, Z.eqb_neq, Hrate. }
  rewrite Hr. unfold catch, bind, tell. cbn [lift]. rewrite Hf.
  destruct e; reflexivity.
Qed.

Lemma moonshine_resampler_failure_witness :
  let s := final (Moonshine.handle_events (Scenario.loads Scenario.hello) None
                    Scenario.session_8k Scenario.moonshine) in
  written (trace (Moonshine.handle_event (Scenario.loads Scenario.hello)
                    (Some (Cases.raising RuntimeError)) AudioStop s))
  = [Transcript ""].
Proof.
  cbv zeta.
  rewrite (moonshine_resampler_failure (Scenario.loads Scenario.hello)
             (Cases.raising RuntimeError) RuntimeError
             (final (Moonshine.handle_events (Scenario.loads Scenario.hello) None
                       Scenario.session_8k Scenario.moonshine))).
  - reflexivity.
  - vm_compute. reflexivity.
  - vm_compute. discriminate.
  - reflexivity.
Defined.

(** ** Voxtral: the engine over a session *)

Module VoxtralEngine.
Import Voxtral VoxtralSteps VoxtralFacts VoxtralStop.

Section Env.
Variable ctor : string -> f32 -> nat -> exn + LLM.
Variable librosa : option Resampler.

Lemma voxtral_ask_constructed (s : State) (pre : list Effect) (a : list f32) :
  constructed (trace (ask s pre a)) = constructed pre.
Proof.
  unfold ask. destruct (llm (self s)) as [l|]; [|reflexivity].
  destruct (generate l a) as [e|[text|]]; cbn [trace];
    rewrite constructed_app; cbn; now rewrite app_nil_r.
Qed.

Lemma voxtral_transcribe_sync_constructed (audio : list f32) (rate : Z) (s : State) :
  constructed (trace (_transcribe_sync librosa audio rate s)) = [].
Proof.
  rewrite voxtral_transcribe_sync_run. destruct librosa as [f|]; [|reflexivity].
  destruct (negb (rate =? 16000)).
  - destruct (f audio rate 16000); [reflexivity|]. now rewrite voxtral_ask_constructed.
  - now rewrite voxtral_ask_constructed.
Qed.

Lemma voxtral_load_llm_engine (s : State) :
  let r := load_llm ctor s in
  (forall l, _llm_cache s = Some l -> _llm_cache (final r) = Some l)
  /\ (forall l, llm (self s) = Some l -> llm (self (final r)) = Some l)
  /\ Forall (fun n => n = model_name (self s)) (constructed (trace r))
  /\ (is_Some (_llm_cache s) \/ is_Some (llm (self s)) -> constructed (trace r) = [])
  /\ attempts (final r) = (attempts s + length (constructed (trace r)))%nat
  /\ (_model_lock s = true -> _model_lock (final r) = true).
Proof.
  cbv zeta. rewrite voxtral_load_llm_cases.
  destruct (voxtral_locked_fields s) as (Hs & Hc & Ha).
  pose proof (voxtral_model_lock_locked s) as Hl.
  destruct (llm (self s)) as [l|] eqn:Hllm.
  - cbn. split; [auto|]. split; [intros; congruence|]. split; [constructor|].
    split; [auto|]. split; [lia|auto].
  - destruct (_llm_cache s) as [l|] eqn:Hcache.
    + cbn. rewrite ?Hc, ?Ha, ?Hl. split; [intros; congruence|]. split; [discriminate|].
      split; [constructor|]. split; [auto|]. split; [lia|auto].
    + destruct (ctor _ _ _) as [e|l]; cbn; rewrite ?Hc, ?Ha, ?Hl, ?Hs, ?Hllm.
      * split; [discriminate|]. split; [discriminate|].
        split; [repeat constructor|].
        split; [intros [[? ?]|[? ?]]; discriminate|]. split; [lia|auto].
      * split; [discriminate|]. split; [discriminate|].
        split; [repeat constructor|].
        split; [intros [[? ?]|[? ?]]; discriminate|]. split; [lia|auto].
Qed.

Lemma voxtral_event_engine (e : Event) (s : State) :
  let r := handle_event ctor librosa e s in
  (forall l, _llm_cache s = Some l -> _llm_cache (final r) = Some l)
  /\ (forall l, llm (self s) = Some l -> llm (self (final r)) = Some l)
  /\ Forall (fun n => n = model_name (self s)) (constructed (trace r))
  /\ (is_Some (_llm_cache s) \/ is_Some (llm (self s)) -> constructed (trace r) = [])
  /\ attempts (final r) = (attempts s + length (constructed (trace r)))%nat
  /\ (_model_lock s = true -> _model_lock (final r) = true).
Proof.
  cbv zeta.
  assert (Hquiet : forall s' : State,
            _llm_cache s' = _llm_cache s -> llm (self s') = llm (self s) ->
            attempts s' = attempts s -> _model_lock s' = _model_lock s ->
            (forall l, _llm_cache s = Some l -> _llm_cache s' = Some l)
            /\ (forall l, llm (self s) = Some l -> llm (self s') = Some l)
            /\ Forall (fun n => n = model_name (self s)) (constructed [])
            /\ (is_Some (_llm_cache s) \/ is_Some (llm (self s)) -> constructed [] = [])
            /\ attempts s' = (attempts s + length (constructed []))%nat
            /\ (_model_lock s = true -> _model_lock s' = true)).
  { intros s' H1 H2 H3 H4. rewrite H1, H2, H3, H4. cbn.
    split; [auto|]. split; [auto|]. split; [constructor|].
    split; [auto|]. split; [lia|auto]. }
  destruct e; try (apply Hquiet; reflexivity).
  - rewrite voxtral_chunk_run. cbn [trace final]. apply Hquiet; try reflexivity.
    cbn. destruct (audio_buffer (self s)); reflexivity.
  - rewrite voxtral_audio_stop_shape. cbv zeta.
    destruct (voxtral_load_llm_engine s) as (H1 & H2 & H3 & H4 & H5 & H6).
    destruct (outcome (load_llm ctor s)).
    + cbn [trace final]. rewrite constructed_app. cbn [constructed]. rewrite app_nil_r.
      repeat split; assumption.
    + destruct (len _ mod 2 =? 0); cbn [trace final]; rewrite !constructed_app;
        rewrite ?voxtral_transcribe_sync_constructed; cbn [constructed app];
        rewrite app_nil_r; repeat split; assumption.
Qed.

Lemma voxtral_session_engine (events : list Event) : forall s : State,
  let r := handle_events ctor librosa events s in
  (forall l, _llm_cache s = Some l -> _llm_cache (final r) = Some l)
  /\ (forall l, llm (self s) = Some l -> llm (self (final r)) = Some l)
  /\ Forall (fun n => n = model_name (self s)) (constructed (trace r))
  /\ (is_Some (_llm_cache s) \/ is_Some (llm (self s)) -> constructed (trace r) = [])
  /\ attempts (final r) = (attempts s + length (constructed (trace r)))%nat
  /\ (_model_lock s = true -> _model_lock (final r) = true).
Proof.
  induction events as [|e es IH]; intros s; cbv zeta.
  - cbn. split; [auto|]. split; [auto|]. split; [constructor|].
    split; [auto|]. split; [lia|auto].
  - rewrite VoxtralSession.voxtral_events_step. cbn [trace final].
    destruct (voxtral_event_engine e s) as (H1 & H2 & H3 & H4 & H5 & H6).
    destruct (VoxtralSession.voxtral_handle_event_total ctor librosa e s) as (_ & Hcfg).
    assert (Hname : model_name (self (final (handle_event ctor librosa e s)))
                    = model_name (self s))
      by (unfold voxtral_config in Hcfg; congruence).
    destruct (IH (final (handle_event ctor librosa e s)))
      as (H1' & H2' & H3' & H4' & H5' & H6').
    rewrite Hname in *.
    rewrite constructed_app, length_app. repeat split.
    + intros l H. apply H1', H1, H.
    + intros l H. apply H2', H2, H.
    + apply Forall_app. split; assumption.
    + intros H. rewrite H4 by exact H. rewrite H4'; [reflexivity|].
      destruct H as [[l H]|[l H]]; [left|right]; exists l; auto.
    + lia.
    + auto.
Qed.
End Env.
End VoxtralEngine.

(** X15.  Over a whole connection, the Voxtral handler keeps the engine it
    holds and the engine of the process cache, only ever constructs the
    model it is configured with and, once an engine exists, constructs
    nothing. *)
Theorem voxtral_engine_over_session ctor librosa (events : list Event)
    (s : Voxtral.State) :
  let r := Voxtral.handle_events ctor librosa events s in
  (forall l, Voxtral._llm_cache s = Some l -> Voxtral._llm_cache (final r) = Some l)
  /\ (forall l, Voxtral.llm (Voxtral.self s) = Some l ->
                Voxtral.llm (Voxtral.self (final r)) = Some l)
  /\ Forall (fun n => n = Voxtral.model_name (Voxtral.self s)) (constructed (trace r))
  /\ (is_Some (Voxtral._llm_cache s) \/ is_Some (Voxtral.llm (Voxtral.self s)) ->
      constructed (trace r) = [])
  /\ Voxtral.attempts (final r)
     = (Voxtral.attempts s + length (constructed (trace r)))%nat
  /\ (Voxtral._model_lock s = true -> Voxtral._model_lock (final r) = true).
Proof. exact (VoxtralEngine.voxtral_session_engine ctor librosa events s). Qed.

(** The [AudioStop] branch when everything succeeds. *)
Lemma voxtral_audio_stop_from_engine ctor (f : Resampler)
    (s : Voxtral.State) (l : Voxtral.LLM) (a : list f32) :
  let h := Voxtral.self s in
  let audio := Np.to_float (Np.int16_items (Voxtral.audio_buffer h)) in
  len (Voxtral.audio_buffer h) mod 2 = 0 ->
  (if Voxtral.sample_rate h =? 16000 then inr audio
   else f audio (Voxtral.sample_rate h) 16000) = inr a ->
  match Voxtral.llm h with
  | Some engine => inr engine
  | None =>
      match Voxtral._llm_cache s with
      | Some engine => inr engine
      | None => ctor (Voxtral.model_name h) (Voxtral.gpu_memory_utilization h)
                  (Voxtral.attempts s)
      end
  end = inr l ->
  let r := Voxtral.handle_event ctor (Some f) AudioStop s in
  generated (trace r) = [a]
  /\ written (trace r)
     = [Transcript (match Voxtral.generate l a with
                    | inr (Some text) => text
                    | _ => ""
                    end)]
  /\ Voxtral.llm (Voxtral.self (final r)) = Some l
  /\ VoxtralSteps.audio_fields (Voxtral.self (final r)) = VoxtralSteps.audio_fields h
  /\ resampled (trace r)
     = (if Voxtral.sample_rate h =? 16000 then [] else [audio]).
Proof.
  cbv zeta. intros Heven Hres Heng.
  rewrite VoxtralStop.voxtral_audio_stop_shape. cbv zeta.
  rewrite VoxtralStop.voxtral_load_llm_cases.
  destruct (VoxtralStop.voxtral_locked_fields s) as (Hs & _ & _).
  set (finish := fun s1 : Voxtral.State =>
         Voxtral.llm (Voxtral.self s1) = Some l ->
         VoxtralSteps.audio_fields (Voxtral.self s1)
           = VoxtralSteps.audio_fields (Voxtral.self s) ->
         forall t1, generated t1 = [] -> written t1 = [] -> resampled t1 = [] ->
         let r := mkRun (t1 ++ trace (Voxtral._transcribe_sync (Some f)
                      (Np.to_float (Np.int16_items (Voxtral.audio_buffer (Voxtral.self s1))))
                      (Voxtral.sample_rate (Voxtral.self s1)) s1)
                    ++ [Emit (Transcript
                          match outcome (Voxtral._transcribe_sync (Some f)
                            (Np.to_float (Np.int16_items (Voxtral.audio_buffer (Voxtral.self s1))))
                            (Voxtral.sample_rate (Voxtral.self s1)) s1) with
                          | inr text => text | inl _ => "" end)]) s1 (inr true : exn + bool) in
         generated (trace r) = [a]
         /\ written (trace r)
            = [Transcript (match Voxtral.generate l a with
                           | inr (Some text) => text
                           | _ => ""
                           end)]
         /\ Voxtral.llm (Voxtral.self (final r)) = Some l
         /\ VoxtralSteps.audio_fields (Voxtral.self (final r))
            = VoxtralSteps.audio_fields (Voxtral.self s)
         /\ resampled (trace r)
            = (if Voxtral.sample_rate (Voxtral.self s) =? 16000 then []
               else [Np.to_float (Np.int16_items (Voxtral.audio_buffer (Voxtral.self s)))])).
  assert (Hfinish : forall s1, finish s1).
  { unfold finish. intros s1 Hl Hf t1 Hg Hw Hrs. cbv zeta. cbn [trace final].
    unfold VoxtralSteps.audio_fields in Hf.
    assert (Hb : Voxtral.audio_buffer (Voxtral.self s1) = Voxtral.audio_buffer (Voxtral.self s))
      by congruence.
    assert (Hr : Voxtral.sample_rate (Voxtral.self s1) = Voxtral.sample_rate (Voxtral.self s))
      by congruence.
    rewrite Hb, Hr. rewrite VoxtralFacts.voxtral_transcribe_sync_run.
    rewrite !generated_app, !written_app, !resampled_app, Hg, Hw, Hrs.
    destruct (Voxtral.sample_rate (Voxtral.self s) =? 16000) eqn:Hrate; cbn [negb].
    - injection Hres as <-. unfold VoxtralSteps.ask. rewrite Hl.
      destruct (Voxtral.generate l _) as [e|[text|]]; cbn;
        repeat split; auto; unfold VoxtralSteps.audio_fields; congruence.
    - rewrite Hres. unfold VoxtralSteps.ask. rewrite Hl.
      destruct (Voxtral.generate l a) as [e|[text|]]; cbn;
        repeat split; auto; unfold VoxtralSteps.audio_fields; congruence. }
  unfold finish in Hfinish. cbv zeta in Hfinish.
  destruct (Voxtral.llm (Voxtral.self s)) as [engine|] eqn:Hllm.
  - injection Heng as ->. cbn [trace final outcome].
    assert (He : (len (Voxtral.audio_buffer (Voxtral.self s)) mod 2 =? 0) = true)
      by now apply Z.eqb_eq.
    rewrite He. apply (Hfinish s Hllm eq_refl []); reflexivity.
  - destruct (Voxtral._llm_cache s) as [engine|] eqn:Hcache.
    + injection Heng as ->. cbn [trace final outcome].
      cbn [Voxtral.self Voxtral.set_self Voxtral.set_llm Voxtral.audio_buffer
           Voxtral.sample_rate]. rewrite Hs.
      assert (He : (len (Voxtral.audio_buffer (Voxtral.self s)) mod 2 =? 0) = true)
        by now apply Z.eqb_eq.
      rewrite He.
      pose proof (Hfinish (Voxtral.set_self (Voxtral.set_llm (Some l) (Voxtral.self s))
                             (VoxtralSteps.locked s)) eq_refl eq_refl [] eq_refl eq_refl eq_refl) as H.
      cbn [Voxtral.self Voxtral.set_self Voxtral.set_llm Voxtral.audio_buffer
           Voxtral.sample_rate] in H. exact H.
    + rewrite Heng. cbn [trace final outcome].
      cbn [Voxtral.self Voxtral.set_self Voxtral.set_llm Voxtral.audio_buffer
           Voxtral.sample_rate]. rewrite Hs.
      assert (He : (len (Voxtral.audio_buffer (Voxtral.self s)) mod 2 =? 0) = true)
        by now apply Z.eqb_eq.
      rewrite He.
      pose proof (Hfinish (Voxtral.set_self (Voxtral.set_llm (Some l) (Voxtral.self s))
                             (VoxtralSteps.store l (VoxtralSteps.tick (VoxtralSteps.locked s))))
                    eq_refl eq_refl
                    [Construct (Voxtral.model_name (Voxtral.self s)) true]
                    eq_refl eq_refl eq_refl) as H.
      cbn [Voxtral.self Voxtral.set_self Voxtral.set_llm Voxtral.audio_buffer
           Voxtral.sample_rate] in H. exact H.
Qed.

(** X16.  The transcript is the answer of the engine on the whole buffer,
    channels interleaved; the engine is the one of the handler, else the
    cached one whatever the model name of the handler, else a new one. *)
Theorem voxtral_transcript_from_engine ctor (f : Resampler)
    (s : Voxtral.State) (l : Voxtral.LLM) (a : list f32) :
  let h := Voxtral.self s in
  let audio := Np.to_float (Np.int16_items (Voxtral.audio_buffer h)) in
  len (Voxtral.audio_buffer h) mod 2 = 0 ->
  (if Voxtral.sample_rate h =? 16000 then inr audio
   else f audio (Voxtral.sample_rate h) 16000) = inr a ->
  match Voxtral.llm h with
  | Some engine => inr engine
  | None =>
      match Voxtral._llm_cache s with
      | Some engine => inr engine
      | None => ctor (Voxtral.model_name h) (Voxtral.gpu_memory_utilization h)
                  (Voxtral.attempts s)
      end
  end = inr l ->
  let r := Voxtral.handle_event ctor (Some f) AudioStop s in
  generated (trace r) = [a]
  /\ written (trace r)
     = [Transcript (match Voxtral.generate l a with
                    | inr (Some text) => text
                    | _ => ""
                    end)]
  /\ Voxtral.llm (Voxtral.self (final r)) = Some l
  /\ VoxtralSteps.audio_fields (Voxtral.self (final r)) = VoxtralSteps.audio_fields h.
Proof.
  cbv zeta. intros Heven Hres Heng.
  destruct (voxtral_audio_stop_from_engine ctor f s l a Heven Hres Heng)
    as (H1 & H2 & H3 & H4 & _).
  repeat split; assumption.
Qed.

Lemma voxtral_transcript_from_engine_witness :
  let r := Voxtral.handle_event Scenario.flaky_llm (Some Scenario.decimate) AudioStop
             Scenario.voxtral_8k in
  length (generated (trace r)) = 1%nat
  /\ written (trace r) = [Transcript "hello"]
  /\ constructed (trace r) = [].
Proof.
  cbv zeta.
  pose proof (voxtral_transcript_from_engine Scenario.flaky_llm Scenario.decimate
                Scenario.voxtral_8k Scenario.hello_llm
                (Scenario.halve
                   (Np.to_float (Np.int16_items
                      (Voxtral.audio_buffer (Voxtral.self Scenario.voxtral_8k)))))) as H.
  cbv zeta in H. destruct H as (Hg & Hw & _).
  - reflexivity.
  - reflexivity.
  - reflexivity.
  - split; [now rewrite Hg|]. split; [exact Hw|]. reflexivity.
Defined.

(** ** Voxtral: an exception of the resampler *)

(** X17.  The engine is loaded before the audio is looked at, so that a
    resampler that raises costs the transcript but not the engine: the run
    is that of the loading step, followed by the call of the resampler and
    the empty [Transcript]. *)
Theorem voxtral_resampler_failure ctor (f : Resampler) (e : exn) (s : Voxtral.State) :
  let h := Voxtral.self s in
  let audio := Np.to_float (Np.int16_items (Voxtral.audio_buffer h)) in
  len (Voxtral.audio_buffer h) mod 2 = 0 ->
  Voxtral.sample_rate h <> 16000 ->
  f audio (Voxtral.sample_rate h) 16000 = inl e ->
  let r := Voxtral.handle_event ctor (Some f) AudioStop s in
  let r1 := VoxtralSteps.load_llm ctor s in
  trace r = trace r1
            ++ match outcome r1 with
               | inr _ => [Resample audio (Voxtral.sample_rate h) 16000]
               | inl _ => []
               end
            ++ [Emit (Transcript "")]
  /\ final r = final r1
  /\ generated (trace r) = [].
Proof.
  cbv zeta. intros Heven Hrate Hf.
  rewrite VoxtralStop.voxtral_audio_stop_shape. cbv zeta.
  destruct (VoxtralFacts.voxtral_load_llm_run ctor s)
    as (t & s' & o & Hl & Hfields & _ & Hg & _).
  rewrite Hl. cbn [trace final outcome].
  unfold VoxtralSteps.audio_fields in Hfields.
  assert (Hb : Voxtral.audio_buffer (Voxtral.self s') = Voxtral.audio_buffer (Voxtral.self s))
    by congruence.
  assert (Hr : Voxtral.sample_rate (Voxtral.self s') = Voxtral.sample_rate (Voxtral.self s))
    by congruence.
  destruct o as [e'|[]].
  - cbn [trace final app]. rewrite generated_app, Hg. repeat split.
  - rewrite Hb, Hr.
    assert (He : (len (Voxtral.audio_buffer (Voxtral.self s)) mod 2 =? 0) = true)
      by now apply Z.eqb_eq.
    assert (Hn : negb (Voxtral.sample_rate (Voxtral.self s) =? 16000) = true)
      by now apply negb_true_iff, Z.eqb_neq.
    rewrite He, VoxtralFacts.voxtral_transcribe_sync_run, Hn, Hf.
    cbn [trace final outcome]. rewrite !generated_app, Hg. repeat split.
Qed.

Lemma voxtral_resampler_failure_witness :
  Voxtral.handle_event Scenario.flaky_llm (Some (Cases.raising RuntimeError)) AudioStop
    Scenario.voxtral_8k
  = mkRun [Resample (Np.to_float (Np.int16_items (Scenario.zeros 4))) 8000 16000;
           Emit (Transcript "")]
      Scenario.voxtral_8k (inr true).
Proof.
  pose proof (voxtral_resampler_failure Scenario.flaky_llm (Cases.raising RuntimeError)
                RuntimeError Scenario.voxtral_8k) as H.
  cbv zeta in H. destruct H as (Ht & Hs & _).
  - reflexivity.
  - vm_compute. discriminate.
  - reflexivity.
  - destruct (VoxtralFacts.voxtral_audio_stop_total Scenario.flaky_llm
                (Some (Cases.raising RuntimeError)) Scenario.voxtral_8k) as (Ho & _).
    destruct (Voxtral.handle_event Scenario.flaky_llm (Some (Cases.raising RuntimeError))
                AudioStop Scenario.voxtral_8k) as [t s' o].
    cbn [trace final outcome] in *. subst t s' o. reflexivity.
Defined.

(** ** An utterance without audio *)

Lemma np_empty_convertible (h : Moonshine.Handler) :
  Moonshine.audio_buffer h = [] ->
  MoonshineSteps.convertible h = true /\ MoonshineSteps.mono_audio h = [].
Proof.
  intros Hb. unfold MoonshineSteps.convertible, MoonshineSteps.mono_audio.
  rewrite Hb. cbn. destruct (Moonshine.audio_channels h >? 1); [|split; reflexivity].
  rewrite Zmod_0_l. split; reflexivity.
Qed.

(** X18.  [AudioStop] right after [Transcribe] asks the Moonshine model
    about an empty array, whatever format the handler had, and nothing is
    resampled. *)
Theorem moonshine_empty_utterance ctor librosa language
    (s : Moonshine.State) (m : Moonshine.Model) :
  let name := Moonshine.model_name (Moonshine.self s) in
  (Moonshine._model_cache s !! name = Some m
   \/ (Moonshine._model_cache s !! name = None
       /\ ctor name (Moonshine.attempts s) = inr m)) ->
  let r := Moonshine.handle_events ctor librosa [Transcribe language; AudioStop] s in
  generated (trace r) = [[]]
  /\ resampled (trace r) = []
  /\ written (trace r)
     = [Transcript (match Moonshine.generate m [] with inr text => text | inl _ => "" end)].
Proof.
  cbv zeta. intros Hm.
  rewrite !MoonshineSession.moonshine_events_step, MoonshineFacts.moonshine_transcribe_run.
  cbn [trace final outcome app Moonshine.handle_events ret]. rewrite app_nil_r.
  set (s1 := Moonshine.set_self _ s).
  destruct (np_empty_convertible (Moonshine.self s1) eq_refl) as (Hconv & Hmono).
  destruct (MoonshinePath.moonshine_audio_stop_from_model ctor librosa s1 m [] Hconv)
    as (Hg & Hw & _ & _ & Hrs).
  - rewrite Hmono. reflexivity.
  - exact Hm.
  - rewrite Hg, Hw, Hrs. repeat split.
Qed.

Lemma moonshine_empty_utterance_witness :
  written (trace (Moonshine.handle_events (Scenario.loads Scenario.hello) None
                    (Scenario.stereo_8k ++ [Transcribe None; AudioStop])
                    Scenario.moonshine))
  = [Transcript "hello"].
Proof.
  rewrite MoonshineSession.moonshine_events_app. cbn [trace].
  destruct (moonshine_empty_utterance (Scenario.loads Scenario.hello) None None
              (final (Moonshine.handle_events (Scenario.loads Scenario.hello) None
                        Scenario.stereo_8k Scenario.moonshine)) Scenario.hello)
    as (_ & _ & Hw).
  - right. split; reflexivity.
  - rewrite written_app, Hw. reflexivity.
Defined.

(** X19.  The same for Voxtral, when [librosa] can be imported: the engine
    is asked about an empty array and the resampler is not called. *)
Theorem voxtral_empty_utterance ctor (f : Resampler) language
    (s : Voxtral.State) (l : Voxtral.LLM) :
  let h := Voxtral.self s in
  match Voxtral.llm h with
  | Some engine => inr engine
  | None =>
      match Voxtral._llm_cache s with
      | Some engine => inr engine
      | None => ctor (Voxtral.model_name h) (Voxtral.gpu_memory_utilization h)
                  (Voxtral.attempts s)
      end
  end = inr l ->
  let r := Voxtral.handle_events ctor (Some f) [Transcribe language; AudioStop] s in
  generated (trace r) = [[]]
  /\ resampled (trace r) = []
  /\ written (trace r)
     = [Transcript (match Voxtral.generate l [] with
                    | inr (Some text) => text
                    | _ => ""
                    end)].
Proof.
  cbv zeta. intros Hl.
  rewrite !VoxtralSession.voxtral_events_step, VoxtralFacts.voxtral_transcribe_run.
  cbn [trace final outcome app Voxtral.handle_events ret]. rewrite app_nil_r.
  set (s1 := Voxtral.set_self _ s).
  destruct (voxtral_audio_stop_from_engine ctor f s1 l [] eq_refl eq_refl Hl)
    as (Hg & Hw & _ & _ & Hrs).
  rewrite Hg, Hw, Hrs. repeat split.
Qed.

Lemma voxtral_empty_utterance_witness :
  written (trace (Voxtral.handle_events Scenario.flaky_llm (Some Scenario.decimate)
                    [Transcribe None; AudioStop] Scenario.voxtral_8k))
  = [Transcript "hello"].
Proof.
  destruct (voxtral_empty_utterance Scenario.flaky_llm Scenario.decimate None
              Scenario.voxtral_8k Scenario.hello_llm eq_refl) as (_ & _ & Hw).
  exact Hw.
Defined.

(** ** Fields that the transcription never reads *)

Lemma voxtral_load_llm_inputs ctor (s1 s2 : Voxtral.State) :
  voxtral_inputs s1 = voxtral_inputs s2 ->
  trace (VoxtralSteps.load_llm ctor s1) = trace (VoxtralSteps.load_llm ctor s2)
  /\ is_ok (outcome (VoxtralSteps.load_llm ctor s1))
     = is_ok (outcome (VoxtralSteps.load_llm ctor s2))
  /\ voxtral_inputs (final (VoxtralSteps.load_llm ctor s1))
     = voxtral_inputs (final (VoxtralSteps.load_llm ctor s2)).
Proof.
  intros H. rewrite !VoxtralStop.voxtral_load_llm_cases.
  destruct (VoxtralStop.voxtral_locked_fields s1) as (Hs1 & Hc1 & Ha1).
  destruct (VoxtralStop.voxtral_locked_fields s2) as (Hs2 & Hc2 & Ha2).
  unfold voxtral_inputs in *.
  injection H as Hn Hg Hl Hb Hr Hc Ha.
  rewrite <- Hn, <- Hg, <- Hl, <- Hc, <- Ha.
  destruct (Voxtral.llm (Voxtral.self s1)) as [l|] eqn:Hllm.
  - cbn. repeat split. congruence.
  - destruct (Voxtral._llm_cache s1) as [l|] eqn:Hcache.
    + cbn. rewrite Hs1, Hs2, Hc1, Hc2, Ha1, Ha2. repeat split. congruence.
    + destruct (ctor _ _ _) as [e|l]; cbn;
        rewrite ?Hs1, ?Hs2, ?Hc1, ?Hc2, ?Ha1, ?Ha2; repeat split; congruence.
Qed.

Lemma voxtral_transcribe_sync_inputs librosa (audio : list f32) (rate : Z)
    (s1 s2 : Voxtral.State) :
  Voxtral.llm (Voxtral.self s1) = Voxtral.llm (Voxtral.self s2) ->
  trace (Voxtral._transcribe_sync librosa audio rate s1)
    = trace (Voxtral._transcribe_sync librosa audio rate s2)
  /\ outcome (Voxtral._transcribe_sync librosa audio rate s1)
     = outcome (Voxtral._transcribe_sync librosa audio rate s2).
Proof.
  intros Hl. rewrite !VoxtralFacts.voxtral_transcribe_sync_run.
  unfold VoxtralSteps.ask. rewrite Hl.
  destruct librosa as [f|]; [|split; reflexivity].
  destruct (negb (rate =? 16000)).
  - destruct (f audio rate 16000) as [e|a]; [split; reflexivity|].
    destruct (Voxtral.llm (Voxtral.self s2)) as [l|]; [|split; reflexivity].
    destruct (Voxtral.generate l a) as [e|[text|]]; split; reflexivity.
  - destruct (Voxtral.llm (Voxtral.self s2)) as [l|]; [|split; reflexivity].
    destruct (Voxtral.generate l audio) as [e|[text|]]; split; reflexivity.
Qed.

Lemma voxtral_audio_stop_inputs ctor librosa (s1 s2 : Voxtral.State) :
  voxtral_inputs s1 = voxtral_inputs s2 ->
  trace (Voxtral.handle_event ctor librosa AudioStop s1)
    = trace (Voxtral.handle_event ctor librosa AudioStop s2)
  /\ voxtral_inputs (final (Voxtral.handle_event ctor librosa AudioStop s1))
     = voxtral_inputs (final (Voxtral.handle_event ctor librosa AudioStop s2)).
Proof.
  intros H. rewrite !VoxtralStop.voxtral_audio_stop_shape. cbv zeta.
  destruct (voxtral_load_llm_inputs ctor s1 s2 H) as (Ht & Ho & Hf).
  rewrite Ht.
  destruct (VoxtralSteps.load_llm ctor s1) as [t1 s1' o1].
  destruct (VoxtralSteps.load_llm ctor s2) as [t2 s2' o2].
  cbn [trace final outcome] in *.
  assert (Hf' := Hf). unfold voxtral_inputs in Hf'.
  injection Hf' as Hn Hg Hl Hb Hr Hc Ha.
  destruct o1 as [e1|[]], o2 as [e2|[]]; try discriminate; cbn [trace final].
  - split; [reflexivity | exact Hf].
  - rewrite Hb, Hr.
    destruct (len (Voxtral.audio_buffer (Voxtral.self s2')) mod 2 =? 0); cbn [trace final];
      [|split; [reflexivity | exact Hf]].
    destruct (voxtral_transcribe_sync_inputs librosa
                (Np.to_float (Np.int16_items (Voxtral.audio_buffer (Voxtral.self s2'))))
                (Voxtral.sample_rate (Voxtral.self s2')) s1' s2' Hl) as (Ht' & Ho').
    rewrite Ht', Ho'. split; [reflexivity | exact Hf].
Qed.

Lemma moonshine_prepare_inputs librosa (s1 s2 : Moonshine.State) :
  Moonshine.audio_buffer (Moonshine.self s1) = Moonshine.audio_buffer (Moonshine.self s2) ->
  Moonshine.audio_channels (Moonshine.self s1)
    = Moonshine.audio_channels (Moonshine.self s2) ->
  Moonshine.sample_rate (Moonshine.self s1) = Moonshine.sample_rate (Moonshine.self s2) ->
  trace (MoonshineSteps.prepare librosa s1) = trace (MoonshineSteps.prepare librosa s2)
  /\ outcome (MoonshineSteps.prepare librosa s1)
     = outcome (MoonshineSteps.prepare librosa s2).
Proof.
  intros Hb Hc Hr.
  unfold MoonshineSteps.prepare, Moonshine.resample, Moonshine.downmix, Np.reshape_mean,
    Np.reshape, Np.frombuffer.
  unfold catch, bind, get, tell, lift, ret, raise.
  rewrite <- Hb, <- Hc, <- Hr.
  destruct (len (Moonshine.audio_buffer (Moonshine.self s1)) mod 2 =? 0);
    [|split; reflexivity].
  destruct (Moonshine.audio_channels (Moonshine.self s1) >? 1).
  - destruct (len _ mod _ =? 0); [|split; reflexivity].
    destruct (negb (Moonshine.sample_rate (Moonshine.self s1) =? 16000));
      [|split; reflexivity].
    destruct librosa as [f|]; [|split; reflexivity].
    destruct (f _ _ _) as [e|a]; [destruct e|]; split; reflexivity.
  - destruct (negb (Moonshine.sample_rate (Moonshine.self s1) =? 16000));
      [|split; reflexivity].
    destruct librosa as [f|]; [|split; reflexivity].
    destruct (f _ _ _) as [e|a]; [destruct e|]; split; reflexivity.
Qed.

Lemma moonshine_transcribe_sync_inputs ctor (audio : list f32) (s1 s2 : Moonshine.State) :
  moonshine_inputs s1 = moonshine_inputs s2 ->
  trace (Moonshine._transcribe_sync ctor audio s1)
    = trace (Moonshine._transcribe_sync ctor audio s2)
  /\ outcome (Moonshine._transcribe_sync ctor audio s1)
     = outcome (Moonshine._transcribe_sync ctor audio s2)
  /\ moonshine_inputs (final (Moonshine._transcribe_sync ctor audio s1))
     = moonshine_inputs (final (Moonshine._transcribe_sync ctor audio s2)).
Proof.
  intros H. unfold moonshine_inputs in *. injection H as Hn Hb Hr Hc Hm Ha.
  rewrite !MoonshineFacts.moonshine_transcribe_sync_run,
    !MoonshineFacts.moonshine_get_model_run.
  rewrite <- Hn, <- Hm, <- Ha.
  destruct (Moonshine._model_cache s1 !! Moonshine.model_name (Moonshine.self s1))
    as [m|].
  - destruct (Moonshine.generate m audio); cbn; repeat split; congruence.
  - destruct (ctor _ _) as [e|m]; [cbn; repeat split; congruence|].
    destruct (Moonshine.generate m audio); cbn; repeat split; congruence.
Qed.

Lemma moonshine_audio_stop_inputs ctor librosa (s1 s2 : Moonshine.State) :
  moonshine_inputs s1 = moonshine_inputs s2 ->
  trace (Moonshine.handle_event ctor librosa AudioStop s1)
    = trace (Moonshine.handle_event ctor librosa AudioStop s2)
  /\ moonshine_inputs (final (Moonshine.handle_event ctor librosa AudioStop s1))
     = moonshine_inputs (final (Moonshine.handle_event ctor librosa AudioStop s2)).
Proof.
  intros H. rewrite !MoonshineCache.moonshine_audio_stop_shape.
  assert (H' := H). unfold moonshine_inputs in H'. injection H' as Hn Hb Hr Hc Hm Ha.
  destruct (moonshine_prepare_inputs librosa s1 s2 Hb Hc Hr) as (Ht & Ho).
  rewrite Ht, Ho.
  destruct (outcome (MoonshineSteps.prepare librosa s2)) as [e|audio].
  - cbn [trace final]. split; [reflexivity | exact H].
  - cbv zeta. cbn [trace final].
    destruct (moonshine_transcribe_sync_inputs ctor audio s1 s2 H) as (Ht' & Ho' & Hf').
    rewrite Ht', Ho'. split; [reflexivity | exact Hf'].
Qed.

Lemma moonshine_event_inputs ctor librosa (e1 e2 : Event) (s1 s2 : Moonshine.State) :
  moonshine_view e1 = moonshine_view e2 ->
  moonshine_inputs s1 = moonshine_inputs s2 ->
  Moonshine.wyoming_info (Moonshine.self s1) = Moonshine.wyoming_info (Moonshine.self s2) ->
  trace (Moonshine.handle_event ctor librosa e1 s1)
    = trace (Moonshine.handle_event ctor librosa e2 s2)
  /\ moonshine_inputs (final (Moonshine.handle_event ctor librosa e1 s1))
     = moonshine_inputs (final (Moonshine.handle_event ctor librosa e2 s2)).
Proof.
  intros Hv H Hi.
  assert (H' := H). unfold moonshine_inputs in H'. injection H' as Hn Hb Hr Hc Hm Ha.
  destruct e1, e2; try discriminate Hv;
    try (cbn; split; [congruence | exact H]).
  - rewrite !MoonshineFacts.moonshine_transcribe_run. cbn [trace final].
    split; [reflexivity|]. unfold moonshine_inputs. cbn. congruence.
  - injection Hv as -> -> ->.
    rewrite !MoonshineFacts.moonshine_chunk_run. cbn [trace final].
    split; [reflexivity|]. unfold moonshine_inputs. cbn. rewrite <- Hb.
    destruct (Moonshine.audio_buffer (Moonshine.self s1)); cbn; congruence.
  - apply moonshine_audio_stop_inputs, H.
Qed.

Lemma voxtral_event_inputs ctor librosa (e1 e2 : Event) (s1 s2 : Voxtral.State) :
  voxtral_view e1 = voxtral_view e2 ->
  voxtral_inputs s1 = voxtral_inputs s2 ->
  Voxtral.wyoming_info (Voxtral.self s1) = Voxtral.wyoming_info (Voxtral.self s2) ->
  trace (Voxtral.handle_event ctor librosa e1 s1)
    = trace (Voxtral.handle_event ctor librosa e2 s2)
  /\ voxtral_inputs (final (Voxtral.handle_event ctor librosa e1 s1))
     = voxtral_inputs (final (Voxtral.handle_event ctor librosa e2 s2)).
Proof.
  intros Hv H Hi.
  assert (H' := H). unfold voxtral_inputs in H'. injection H' as Hn Hg Hl Hb Hr Hc Ha.
  destruct e1, e2; try discriminate Hv;
    try (cbn; split; [congruence | exact H]).
  - rewrite !VoxtralFacts.voxtral_transcribe_run. cbn [trace final].
    split; [reflexivity|]. unfold voxtral_inputs. cbn. congruence.
  - injection Hv as -> ->.
    rewrite !VoxtralFacts.voxtral_chunk_run. cbn [trace final].
    split; [reflexivity|]. unfold voxtral_inputs. cbn. rewrite <- Hb.
    destruct (Voxtral.audio_buffer (Voxtral.self s1)); cbn; congruence.
  - apply voxtral_audio_stop_inputs, H.
Qed.

Lemma moonshine_events_inputs ctor librosa (es1 : list Event) :
  forall (es2 : list Event) (s1 s2 : Moonshine.State),
  map moonshine_view es1 = map moonshine_view es2 ->
  moonshine_inputs s1 = moonshine_inputs s2 ->
  Moonshine.wyoming_info (Moonshine.self s1) = Moonshine.wyoming_info (Moonshine.self s2) ->
  trace (Moonshine.handle_events ctor librosa es1 s1)
    = trace (Moonshine.handle_events ctor librosa es2 s2).
Proof.
  induction es1 as [|e1 es1 IH]; intros [|e2 es2] s1 s2 Hv H Hi; try discriminate Hv;
    [reflexivity|].
  injection Hv as Hv Hvs.
  rewrite !MoonshineSession.moonshine_events_step. cbn [trace].
  destruct (moonshine_event_inputs ctor librosa e1 e2 s1 s2 Hv H Hi) as (Ht & Hf).
  destruct (MoonshineSession.moonshine_handle_event_total ctor librosa e1 s1) as (_ & Hi1 & _).
  destruct (MoonshineSession.moonshine_handle_event_total ctor librosa e2 s2) as (_ & Hi2 & _).
  rewrite Ht. f_equal. apply IH; [exact Hvs | exact Hf | congruence].
Qed.

Lemma voxtral_events_inputs ctor librosa (es1 : list Event) :
  forall (es2 : list Event) (s1 s2 : Voxtral.State),
  map voxtral_view es1 = map voxtral_view es2 ->
  voxtral_inputs s1 = voxtral_inputs s2 ->
  Voxtral.wyoming_info (Voxtral.self s1) = Voxtral.wyoming_info (Voxtral.self s2) ->
  trace (Voxtral.handle_events ctor librosa es1 s1)
    = trace (Voxtral.handle_events ctor librosa es2 s2).
Proof.
  induction es1 as [|e1 es1 IH]; intros [|e2 es2] s1 s2 Hv H Hi; try discriminate Hv;
    [reflexivity|].
  injection Hv as Hv Hvs.
  rewrite !VoxtralSession.voxtral_events_step. cbn [trace].
  destruct (voxtral_event_inputs ctor librosa e1 e2 s1 s2 Hv H Hi) as (Ht & Hf).
  destruct (VoxtralSession.voxtral_handle_event_total ctor librosa e1 s1) as (_ & Hc1).
  destruct (VoxtralSession.voxtral_handle_event_total ctor librosa e2 s2) as (_ & Hc2).
  unfold voxtral_config in Hc1, Hc2.
  rewrite Ht. f_equal. apply IH; [exact Hvs | exact Hf | congruence].
Qed.

(** X20.  The sample width that the chunks declare, the language of
    [Transcribe] and of the handler, the content of the events that are not
    handled and, for Voxtral, the number of channels have no influence on a
    session. *)
Theorem stt_unread_fields :
  (forall ctor librosa (es1 es2 : list Event) (s1 s2 : Moonshine.State),
     map moonshine_view es1 = map moonshine_view es2 ->
     moonshine_inputs s1 = moonshine_inputs s2 ->
     Moonshine.wyoming_info (Moonshine.self s1)
       = Moonshine.wyoming_info (Moonshine.self s2) ->
     trace (Moonshine.handle_events ctor librosa es1 s1)
       = trace (Moonshine.handle_events ctor librosa es2 s2))
  /\
  (forall ctor librosa (es1 es2 : list Event) (s1 s2 : Voxtral.State),
     map voxtral_view es1 = map voxtral_view es2 ->
     voxtral_inputs s1 = voxtral_inputs s2 ->
     Voxtral.wyoming_info (Voxtral.self s1) = Voxtral.wyoming_info (Voxtral.self s2) ->
     trace (Voxtral.handle_events ctor librosa es1 s1)
       = trace (Voxtral.handle_events ctor librosa es2 s2)).
Proof.
  split; intros ctor librosa es1 es2 s1 s2 Hv H Hi.
  - apply (moonshine_events_inputs ctor librosa es1 es2 s1 s2 Hv H Hi).
  - apply (voxtral_events_inputs ctor librosa es1 es2 s1 s2 Hv H Hi).
Qed.

Lemma stt_unread_fields_witness :
  let a := Scenario.zeros 4 in
  trace (Voxtral.handle_events (Scenario.loads_llm Scenario.hello_llm)
           (Some Scenario.decimate)
           [Transcribe (Some "fr"); AudioChunk a 16000 2 2; AudioStop] Scenario.voxtral)
  = trace (Voxtral.handle_events (Scenario.loads_llm Scenario.hello_llm)
             (Some Scenario.decimate)
             [Transcribe None; AudioChunk a 16000 4 1; AudioStop] Scenario.voxtral).
Proof.
  cbv zeta. apply (proj2 stt_unread_fields); reflexivity.
Defined.

(** ** The servers and their handlers *)

Lemma moonshine_session_infos ctor librosa (events : list Event) :
  forall s : Moonshine.State,
  Forall (fun e => is_info e = true ->
                   e = Info_event (Moonshine.wyoming_info (Moonshine.self s)))
    (written (trace (Moonshine.handle_events ctor librosa events s))).
Proof.
  induction events as [|e es IH]; intros s; [constructor|].
  rewrite MoonshineSession.moonshine_events_step. cbn [trace]. rewrite written_app.
  apply Forall_app. split.
  - destruct e; try constructor.
    + intros _. reflexivity.
    + constructor.
    + rewrite MoonshineFacts.moonshine_chunk_run. constructor.
    + destruct (MoonshineFacts.moonshine_audio_stop_total ctor librosa s)
        as (_ & _ & text & Hw & _).
      rewrite Hw. repeat constructor. discriminate.
  - destruct (MoonshineSession.moonshine_handle_event_total ctor librosa e s) as (_ & Hi & _).
    rewrite <- Hi. apply IH.
Qed.

Lemma voxtral_session_infos ctor librosa (events : list Event) :
  forall s : Voxtral.State,
  Forall (fun e => is_info e = true ->
                   e = Info_event (Voxtral.wyoming_info (Voxtral.self s)))
    (written (trace (Voxtral.handle_events ctor librosa events s))).
Proof.
  induction events as [|e es IH]; intros s; [constructor|].
  rewrite VoxtralSession.voxtral_events_step. cbn [trace]. rewrite written_app.
  apply Forall_app. split.
  - destruct e; try constructor.
    + intros _. reflexivity.
    + constructor.
    + rewrite VoxtralFacts.voxtral_chunk_run. constructor.
    + destruct (VoxtralFacts.voxtral_audio_stop_total ctor librosa s)
        as (_ & _ & text & Hw & _).
      rewrite Hw. repeat constructor. discriminate.
  - destruct (VoxtralSession.voxtral_handle_event_total ctor librosa e s) as (_ & Hc).
    assert (Hi : Voxtral.wyoming_info
                   (Voxtral.self (final (Voxtral.handle_event ctor librosa e s)))
                 = Voxtral.wyoming_info (Voxtral.self s))
      by (unfold voxtral_config in Hc; congruence).
    rewrite <- Hi. apply IH.
Qed.

(** X21.  A Kokoro server advertises one voice, the one of its command
    line, and asks the API for that voice and that speed at the base URL of
    its command line, whatever the client asks for. *)
Theorem kokoro_server_voice post (args : KokoroWrapper.Args) text voice speed :
  let h := KokoroWrapper.handler_factory args in
  written (trace (Kokoro.handle_event post Describe h))
    = [Info_event (KokoroWrapper.wyoming_info args)]
  /\ models (KokoroWrapper.wyoming_info args) = [KokoroWrapper.voice args]
  /\ map (fun request => (fst request, p_voice (snd request), p_speed (snd request)))
       (requests (trace (Kokoro.handle_event post (Synthesize text voice speed) h)))
     = [(String.append (Kokoro.rstrip_slash (KokoroWrapper.api_url args)) "/audio/speech",
         KokoroWrapper.voice args, KokoroWrapper.speed args)].
Proof.
  cbv zeta. split; [reflexivity|]. split; [reflexivity|].
  rewrite kokoro_synthesize_full_run. cbn [trace requests].
  rewrite requests_map_emit. reflexivity.
Qed.

(** X22.  A speech-to-text server advertises one model, the one of its
    command line; every connection answers [Describe] with the [Info] of
    the server and constructs no other model. *)
Theorem stt_server_model :
  (forall ctor librosa (args : MoonshineWrapper.Args) (p : Moonshine.State)
          (events : list Event),
     let r := Moonshine.handle_events ctor librosa events
                (MoonshineWrapper.connect args p) in
     models (MoonshineWrapper.wyoming_info args) = [MoonshineWrapper.model args]
     /\ Forall (fun e => is_info e = true ->
                         e = Info_event (MoonshineWrapper.wyoming_info args))
          (written (trace r))
     /\ Forall (fun n => n = MoonshineWrapper.model args) (constructed (trace r)))
  /\
  (forall ctor librosa (args : VoxtralWrapper.Args) (p : Voxtral.State)
          (events : list Event),
     let r := Voxtral.handle_events ctor librosa events
                (VoxtralWrapper.connect args p) in
     models (VoxtralWrapper.wyoming_info args) = [VoxtralWrapper.model args]
     /\ Forall (fun e => is_info e = true ->
                         e = Info_event (VoxtralWrapper.wyoming_info args))
          (written (trace r))
     /\ Forall (fun n => n = VoxtralWrapper.model args) (constructed (trace r))).
Proof.
  split; intros ctor librosa args p events; cbv zeta.
  - split; [reflexivity|]. split.
    + apply (moonshine_session_infos ctor librosa events (MoonshineWrapper.connect args p)).
    + apply (MoonshineCache.moonshine_session_cache ctor librosa events
               (MoonshineWrapper.connect args p)).
  - split; [reflexivity|]. split.
    + apply (voxtral_session_infos ctor librosa events (VoxtralWrapper.connect args p)).
    + apply (VoxtralEngine.voxtral_session_engine ctor librosa events
               (VoxtralWrapper.connect args p)).
Qed.
